(** * ScamShield: the rule-based scam analyzer (lib/scam-analyzer.ts)

    A shallow embedding of the scoring engine and of the request handler
    that calls it.  JavaScript strings are sequences of UTF-16 code units,
    numbers that the engine adds up are small integers (modelled in [Z]),
    and the mutable accumulators of each analyzer ([riskScore], [flags],
    [details]) are threaded explicitly through the checks. *)

From Stdlib Require Import Ascii String.
From Stdlib Require Import List ZArith NArith Bool Lia.
Import ListNotations.
Local Open Scope list_scope.

Set Implicit Arguments.

(* ================================================================== *)
(** * JavaScript strings *)
(* ================================================================== *)

Module JS.

(** A string is a list of UTF-16 code units. *)
Definition jsstring := list N.

Fixpoint bytes_of (s : string) : list N :=
  match s with
  | EmptyString => []
  | String c s' => N_of_ascii c :: bytes_of s'
  end.

(** Literals are written in UTF-8 in this file; [utf16] decodes them
    (one, two and three byte sequences give one code unit, four byte
    sequences a surrogate pair). *)
Fixpoint utf16 (bs : list N) : jsstring :=
  match bs with
  | [] => []
  | b :: r =>
      if (b <? 128)%N then b :: utf16 r
      else if (b <? 224)%N then
        match r with
        | b2 :: r' => ((b - 192) * 64 + (b2 - 128))%N :: utf16 r'
        | [] => [b]
        end
      else if (b <? 240)%N then
        match r with
        | b2 :: b3 :: r' =>
            ((b - 224) * 4096 + (b2 - 128) * 64 + (b3 - 128))%N :: utf16 r'
        | _ => [b]
        end
      else
        match r with
        | b2 :: b3 :: b4 :: r' =>
            let cp := ((b - 240) * 262144 + (b2 - 128) * 4096
                       + (b3 - 128) * 64 + (b4 - 128) - 65536)%N in
            (55296 + cp / 1024)%N :: (56320 + cp mod 1024)%N :: utf16 r'
        | _ => [b]
        end
  end.

Definition js (s : string) : jsstring := utf16 (bytes_of s).

Definition ch (c : ascii) : N := N_of_ascii c.

Definition eqb (a b : jsstring) : bool :=
  if list_eq_dec N.eq_dec a b then true else false.

(** [s.startsWith(p)] *)
Fixpoint startsWith (s p : jsstring) : bool :=
  match p, s with
  | [], _ => true
  | _ :: _, [] => false
  | y :: p', x :: s' => (x =? y)%N && startsWith s' p'
  end.

(** [s.includes(p)] *)
Fixpoint includes (s p : jsstring) : bool :=
  startsWith s p ||
  match s with
  | [] => false
  | _ :: s' => includes s' p
  end.

(** [s.endsWith(p)] *)
Definition endsWith (s p : jsstring) : bool :=
  startsWith (rev s) (rev p).

(** [s.slice(-n)] *)
Definition slice_last (n : nat) (s : jsstring) : jsstring :=
  skipn (length s - n) s.

(** [s.split(sep)] for a one-unit separator. *)
Fixpoint split (sep : N) (s : jsstring) : list jsstring :=
  match s with
  | [] => [[]]
  | x :: s' =>
      if (x =? sep)%N then [] :: split sep s'
      else match split sep s' with
           | seg :: segs => (x :: seg) :: segs
           | [] => [[x]]
           end
  end.

(** [arr.includes(x)] on an array of strings. *)
Definition arr_includes (arr : list jsstring) (x : jsstring) : bool :=
  existsb (eqb x) arr.

(** White space and line terminators: what [\s] matches and what [trim]
    removes. *)
Definition is_space (c : N) : bool :=
  ((9 <=? c) && (c <=? 13) || (c =? 32) || (c =? 160) || (c =? 5760)
   || (8192 <=? c) && (c <=? 8202) || (c =? 8232) || (c =? 8233)
   || (c =? 8239) || (c =? 8287) || (c =? 12288) || (c =? 65279))%N.

Definition is_digit (c : N) : bool := ((48 <=? c) && (c <=? 57))%N.

Definition is_word (c : N) : bool :=
  (is_digit c || (65 <=? c) && (c <=? 90) || (97 <=? c) && (c <=? 122)
   || (c =? 95))%N.

Definition is_line_terminator (c : N) : bool :=
  ((c =? 10) || (c =? 13) || (c =? 8232) || (c =? 8233))%N.

Fixpoint trimStart (s : jsstring) : jsstring :=
  match s with
  | x :: s' => if is_space x then trimStart s' else s
  | [] => []
  end.

(** [s.trim()] *)
Definition trim (s : jsstring) : jsstring :=
  rev (trimStart (rev (trimStart s))).

End JS.

Import JS.

(* ================================================================== *)
(** * Regular expressions

    The patterns of the catalogs are kept as their source text and read
    by [parse]; [run] is a backtracking matcher with the priorities of the
    JavaScript engine (leftmost alternative first, greedy quantifiers).
    Ignoring case compares ASCII letters by their upper-case form, which
    is what the engine's canonicalization does for the characters that
    occur in the catalogs (ASCII, Devanagari and the rupee sign). *)
(* ================================================================== *)

Module RegExp.

Inductive class_item :=
| CChar (c : N)
| CRange (lo hi : N)
| CDigit
| CNotDigit
| CSpace.

Inductive regex :=
| Empty
| Char (c : N)
| Any
| Class (neg : bool) (items : list class_item)
| Seq (r1 r2 : regex)
| Alt (r1 r2 : regex)
| Rep (lo : nat) (hi : option nat) (r : regex)
| Group (n : nat) (r : regex)
| Backref (n : nat)
| WordBoundary
| Bol
| Eol.

(** ** Reading a pattern *)

Definition digit_val (c : N) : option nat :=
  if is_digit c then Some (N.to_nat (c - 48)) else None.

Definition hex_val (c : N) : option N :=
  if is_digit c then Some (c - 48)%N
  else if ((65 <=? c) && (c <=? 70))%N then Some (c - 55)%N
  else if ((97 <=? c) && (c <=? 102))%N then Some (c - 87)%N
  else None.

Fixpoint read_nat (acc : nat) (s : jsstring) : nat * jsstring :=
  match s with
  | c :: s' =>
      match digit_val c with
      | Some d => read_nat (10 * acc + d) s'
      | None => (acc, s)
      end
  | [] => (acc, s)
  end.

(** [\uXXXX] *)
Definition read_hex4 (s : jsstring) : option (N * jsstring) :=
  match s with
  | a :: b :: c :: d :: s' =>
      match hex_val a, hex_val b, hex_val c, hex_val d with
      | Some a, Some b, Some c, Some d =>
          Some (a * 4096 + b * 256 + c * 16 + d, s')%N
      | _, _, _, _ => None
      end
  | _ => None
  end.

(** One member of a character class, before a possible range. *)
Definition read_class_atom (s : jsstring) : option (class_item * jsstring) :=
  match s with
  | [] => None
  | c :: s' =>
      if (c =? ch "\")%N then
        match s' with
        | [] => None
        | e :: s'' =>
            if (e =? ch "s")%N then Some (CSpace, s'')
            else if (e =? ch "d")%N then Some (CDigit, s'')
            else if (e =? ch "D")%N then Some (CNotDigit, s'')
            else if (e =? ch "u")%N then
              match read_hex4 s'' with
              | Some (n, s3) => Some (CChar n, s3)
              | None => None
              end
            else if is_word e then None
            else Some (CChar e, s'')
        end
      else Some (CChar c, s')
  end.

Fixpoint read_class (fuel : nat) (s : jsstring)
  : option (list class_item * jsstring) :=
  match fuel with
  | O => None
  | S fuel' =>
      match s with
      | [] => None
      | c :: s' =>
          if (c =? ch "]")%N then Some ([], s')
          else
            match read_class_atom s with
            | None => None
            | Some (a, s1) =>
                match a, s1 with
                | CChar lo, d :: s2 =>
                    if (d =? ch "-")%N then
                      match s2 with
                      | e :: _ =>
                          if (e =? ch "]")%N then
                            option_map (fun '(l, t) => (a :: l, t))
                                       (read_class fuel' s1)
                          else
                            match read_class_atom s2 with
                            | Some (CChar hi, s3) =>
                                option_map
                                  (fun '(l, t) => (CRange lo hi :: l, t))
                                  (read_class fuel' s3)
                            | _ => None
                            end
                      | [] => None
                      end
                    else option_map (fun '(l, t) => (a :: l, t))
                                    (read_class fuel' s1)
                | _, _ => option_map (fun '(l, t) => (a :: l, t))
                                     (read_class fuel' s1)
                end
            end
      end
  end.

(** A quantifier after an atom, if there is one: bounds and the rest. *)
Definition read_quant (s : jsstring)
  : option (option (nat * option nat) * jsstring) :=
  let lazy_guard (q : nat * option nat) (t : jsstring) :=
    match t with
    | c :: _ => if (c =? ch "?")%N then None else Some (Some q, t)
    | [] => Some (Some q, t)
    end in
  match s with
  | c :: s' =>
      if (c =? ch "*")%N then lazy_guard (0, None) s'
      else if (c =? ch "+")%N then lazy_guard (1, None) s'
      else if (c =? ch "?")%N then lazy_guard (0, Some 1) s'
      else if (c =? ch "{")%N then
        match s' with
        | d :: _ =>
            if is_digit d then
              let '(lo, s1) := read_nat 0 s' in
              match s1 with
              | e :: s2 =>
                  if (e =? ch "}")%N then lazy_guard (lo, Some lo) s2
                  else if (e =? ch ",")%N then
                    match s2 with
                    | f :: s3 =>
                        if (f =? ch "}")%N then lazy_guard (lo, None) s3
                        else if is_digit f then
                          let '(hi, s4) := read_nat 0 s2 in
                          match s4 with
                          | g :: s5 =>
                              if (g =? ch "}")%N
                              then lazy_guard (lo, Some hi) s5
                              else None
                          | [] => None
                          end
                        else None
                    | [] => None
                    end
                  else None
              | [] => None
              end
            else None
        | [] => None
        end
      else Some (None, s)
  | [] => Some (None, s)
  end.

Definition quantify (r : regex) (q : option (nat * option nat)) : regex :=
  match q with
  | Some (lo, hi) => Rep lo hi r
  | None => r
  end.

(** Disjunction, alternative and term, by recursive descent; the [nat]
    counts the capturing groups opened so far. *)
Fixpoint read_disj (fuel : nat) (s : jsstring) (g : nat)
  : option (regex * jsstring * nat) :=
  match fuel with
  | O => None
  | S fuel' =>
      match read_alt fuel' s g with
      | None => None
      | Some (r1, s1, g1) =>
          match s1 with
          | c :: s2 =>
              if (c =? ch "|")%N then
                match read_disj fuel' s2 g1 with
                | Some (r2, s3, g3) => Some (Alt r1 r2, s3, g3)
                | None => None
                end
              else Some (r1, s1, g1)
          | [] => Some (r1, s1, g1)
          end
      end
  end

with read_alt (fuel : nat) (s : jsstring) (g : nat)
  : option (regex * jsstring * nat) :=
  match fuel with
  | O => None
  | S fuel' =>
      match s with
      | [] => Some (Empty, s, g)
      | c :: _ =>
          if ((c =? ch "|") || (c =? ch ")"))%N then Some (Empty, s, g)
          else
            match read_term fuel' s g with
            | None => None
            | Some (r1, s1, g1) =>
                match read_alt fuel' s1 g1 with
                | Some (Empty, s2, g2) => Some (r1, s2, g2)
                | Some (r2, s2, g2) => Some (Seq r1 r2, s2, g2)
                | None => None
                end
            end
      end
  end

with read_term (fuel : nat) (s : jsstring) (g : nat)
  : option (regex * jsstring * nat) :=
  match fuel with
  | O => None
  | S fuel' =>
      let with_quant (r : regex) (t : jsstring) (g' : nat) :=
        match read_quant t with
        | Some (q, t') => Some (quantify r q, t', g')
        | None => None
        end in
      match s with
      | [] => None
      | c :: s' =>
          if (c =? ch "^")%N then Some (Bol, s', g)
          else if (c =? ch "$")%N then Some (Eol, s', g)
          else if (c =? ch ".")%N then with_quant Any s' g
          else if (c =? ch "(")%N then
            match read_disj fuel' s' (S g) with
            | Some (r, d :: s1, g1) =>
                if (d =? ch ")")%N then with_quant (Group (S g) r) s1 g1
                else None
            | _ => None
            end
          else if (c =? ch "[")%N then
            let '(neg, s1) :=
              match s' with
              | d :: s1 => if (d =? ch "^")%N then (true, s1) else (false, s')
              | [] => (false, s')
              end in
            match read_class (S (length s1)) s1 with
            | Some (items, s2) => with_quant (Class neg items) s2 g
            | None => None
            end
          else if (c =? ch "\")%N then
            match s' with
            | [] => None
            | e :: s1 =>
                if (e =? ch "b")%N then Some (WordBoundary, s1, g)
                else if (e =? ch "d")%N then with_quant (Class false [CDigit]) s1 g
                else if (e =? ch "D")%N then with_quant (Class false [CNotDigit]) s1 g
                else if (e =? ch "s")%N then with_quant (Class false [CSpace]) s1 g
                else if (e =? ch "u")%N then
                  match read_hex4 s1 with
                  | Some (n, s2) => with_quant (Char n) s2 g
                  | None => None
                  end
                else if is_digit e then
                  if (e =? ch "0")%N then None
                  else with_quant (Backref (N.to_nat (e - 48))) s1 g
                else if is_word e then None
                else with_quant (Char e) s1 g
            end
          else if ((c =? ch "*") || (c =? ch "+") || (c =? ch "?")
                   || (c =? ch "{") || (c =? ch "}") || (c =? ch "]"))%N
          then None
          else with_quant (Char c) s' g
      end
  end.

(** The pattern of a literal [/src/]; [None] outside the syntax above. *)
Definition parse (src : jsstring) : option regex :=
  match read_disj (3 * length src + 3) src 0 with
  | Some (r, [], _) => Some r
  | _ => None
  end.

(** ** Matching *)

(** Where the matcher stands: the unit before the position (none at the
    start of the input), the units after it, and the captures so far. *)
Record mstate := MState {
  prev : option N;
  rest : jsstring;
  caps : list (nat * jsstring)
}.

Definition upper (c : N) : N :=
  if ((97 <=? c) && (c <=? 122))%N then (c - 32)%N else c.

Definition same_char (icase : bool) (a b : N) : bool :=
  if icase then (upper a =? upper b)%N else (a =? b)%N.

Definition in_range (icase : bool) (lo hi x : N) : bool :=
  ((lo <=? x) && (x <=? hi))%N
  || (icase &&
      (((lo <=? upper x) && (upper x <=? hi))%N
       || ((65 <=? x) && (x <=? 90) && (lo <=? x + 32) && (x + 32 <=? hi))%N)).

Definition item_matches (icase : bool) (x : N) (it : class_item) : bool :=
  match it with
  | CChar c => same_char icase c x
  | CRange lo hi => in_range icase lo hi x
  | CDigit => is_digit x
  | CNotDigit => negb (is_digit x)
  | CSpace => is_space x
  end.

Definition class_matches (icase neg : bool) (items : list class_item) (x : N)
  : bool :=
  xorb neg (existsb (item_matches icase x) items).

Definition step (st : mstate) (x : N) (xs : jsstring) : mstate :=
  MState (Some x) xs (caps st).

(** Consume one unit that satisfies [p]. *)
Definition eat (p : N -> bool) (st : mstate) (k : mstate -> option mstate)
  : option mstate :=
  match rest st with
  | x :: xs => if p x then k (step st x xs) else None
  | [] => None
  end.

Fixpoint get_cap (n : nat) (cs : list (nat * jsstring)) : option jsstring :=
  match cs with
  | [] => None
  | (m, v) :: cs' => if Nat.eqb m n then Some v else get_cap n cs'
  end.

Definition at_word_char (o : option N) : bool :=
  match o with
  | Some c => is_word c
  | None => false
  end.

(** Consume the units of [w], compared as [same_char] does. *)
Fixpoint eat_string (icase : bool) (w : jsstring) (st : mstate) : option mstate :=
  match w with
  | [] => Some st
  | c :: w' =>
      match rest st with
      | x :: xs =>
          if same_char icase c x then eat_string icase w' (step st x xs)
          else None
      | [] => None
      end
  end.

(** The iterations of a quantifier whose body is matched by [body]:
    greedy, so one more iteration is tried before the continuation [k];
    once the lower bound is met, an iteration that consumes nothing is
    refused.  [fuel] bounds the number of iterations. *)
Fixpoint rep_loop (body : mstate -> (mstate -> option mstate) -> option mstate)
         (lo : nat) (hi : option nat) (k : mstate -> option mstate)
         (fuel count : nat) (st0 : mstate) {struct fuel} : option mstate :=
  let more :=
    match fuel with
    | O => None
    | S fuel' =>
        let allowed :=
          match hi with
          | Some h => Nat.ltb count h
          | None => true
          end in
        if allowed then
          body st0
               (fun st' =>
                  if Nat.leb lo count
                     && Nat.eqb (length (rest st')) (length (rest st0))
                  then None
                  else rep_loop body lo hi k fuel' (S count) st')
        else None
    end in
  match more with
  | Some res => Some res
  | None => if Nat.leb lo count then k st0 else None
  end.

(** [run icase r st k]: match [r] at [st] and continue with [k];
    alternatives are tried in the order of the engine and the first one
    whose continuation succeeds is the answer.  The iterations of a
    quantifier are bounded by its lower bound plus the input that is
    left, since the later ones must consume something. *)
Fixpoint run (icase : bool) (r : regex) (st : mstate)
         (k : mstate -> option mstate) {struct r} : option mstate :=
  match r with
  | Empty => k st
  | Char c => eat (same_char icase c) st k
  | Any => eat (fun x => negb (is_line_terminator x)) st k
  | Class neg items => eat (class_matches icase neg items) st k
  | Seq r1 r2 => run icase r1 st (fun st' => run icase r2 st' k)
  | Alt r1 r2 =>
      match run icase r1 st k with
      | Some res => Some res
      | None => run icase r2 st k
      end
  | Group n r1 =>
      run icase r1 st
          (fun st' =>
             let matched :=
               firstn (length (rest st) - length (rest st')) (rest st) in
             k (MState (prev st') (rest st') ((n, matched) :: caps st')))
  | Backref n =>
      match get_cap n (caps st) with
      | None => k st
      | Some w =>
          match eat_string icase w st with
          | Some st' => k st'
          | None => None
          end
      end
  | Rep lo hi r1 =>
      rep_loop (run icase r1) lo hi k (lo + length (rest st)) 0 st
  | WordBoundary =>
      if xorb (at_word_char (prev st)) (at_word_char (hd_error (rest st)))
      then k st else None
  | Bol => match prev st with None => k st | Some _ => None end
  | Eol => match rest st with [] => k st | _ :: _ => None end
  end.

(** The match of [r] that starts exactly at the given position. *)
Definition match_here (icase : bool) (r : regex) (before : option N)
           (s : jsstring) : option mstate :=
  run icase r (MState before s []) Some.

(** The leftmost match at or after the given position: the units skipped
    before it and the state at its end. *)
Fixpoint search (icase : bool) (r : regex) (before : option N) (s : jsstring)
  : option (jsstring * jsstring * mstate) :=
  match match_here icase r before s with
  | Some st => Some ([], firstn (length s - length (rest st)) s, st)
  | None =>
      match s with
      | [] => None
      | x :: s' =>
          match search icase r (Some x) s' with
          | Some (skipped, m, st) => Some (x :: skipped, m, st)
          | None => None
          end
      end
  end.

(** A regular expression literal: source text and the [i] flag.  The [g]
    flag only selects between the operations below. *)
Record t := Literal { source : jsstring; ignoreCase : bool }.

Definition compiled (re : t) : regex :=
  match parse (source re) with
  | Some r => r
  | None => Class false []
  end.

(** [re.test(s)] for a pattern without the [g] flag. *)
Definition test (re : t) (s : jsstring) : bool :=
  match search (ignoreCase re) (compiled re) None s with
  | Some _ => true
  | None => false
  end.

(** The successive matches of a [g] pattern, each with the text skipped
    before it, and the text after the last one.  After an empty match the
    engine moves one unit forward. *)
Fixpoint scan (fuel : nat) (icase : bool) (r : regex) (before : option N)
         (s : jsstring) : list (jsstring * jsstring) * jsstring :=
  match fuel with
  | O => ([], s)
  | S fuel' =>
      match search icase r before s with
      | None => ([], s)
      | Some (skipped, m, st) =>
          match m, rest st with
          | [], [] => ([(skipped, m)], [])
          | [], x :: xs =>
              let '(ms, tail) := scan fuel' icase r (Some x) xs in
              match ms with
              | (sk, m') :: ms' => ((skipped, m) :: (x :: sk, m') :: ms', tail)
              | [] => ([(skipped, m)], x :: tail)
              end
          | _ :: _, _ =>
              let '(ms, tail) := scan fuel' icase r (prev st) (rest st) in
              ((skipped, m) :: ms, tail)
          end
      end
  end.

(** [s.match(re) || []] for a [g] pattern. *)
Definition match_all (re : t) (s : jsstring) : list jsstring :=
  map snd (fst (scan (S (length s)) (ignoreCase re) (compiled re) None s)).

(** [s.replace(re, by)] for a [g] pattern and a replacement without [$]. *)
Definition replace_all (re : t) (by_ : jsstring) (s : jsstring) : jsstring :=
  let '(ms, tail) := scan (S (length s)) (ignoreCase re) (compiled re) None s in
  concat (map (fun '(skipped, _) => skipped ++ by_) ms) ++ tail.

End RegExp.

(** [/src/] and [/src/i] *)
Definition rx (src : string) : RegExp.t := RegExp.Literal (js src) false.
Definition rxi (src : string) : RegExp.t := RegExp.Literal (js src) true.

(* ================================================================== *)
(** * What the engine takes from its host

    Two operations are the platform's and not the repository's: Unicode
    lower-casing and the URL parser behind [new URL(...)].  The analyzers
    are defined over any host. *)
(* ================================================================== *)

(** The three members of a parsed URL that the engine reads. *)
Record URL := MkURL {
  hostname : jsstring;
  pathname : jsstring;
  search : jsstring
}.

Class Host := {
  (** [s.toLowerCase()] *)
  toLowerCase : jsstring -> jsstring;
  (** [new URL(s)]; [None] when the constructor throws. *)
  URL_parse : jsstring -> option URL
}.

(* ================================================================== *)
(** * Types *)
(* ================================================================== *)

Inductive RiskLevel := safe | suspicious | high_risk.

Module Detail.
Record t := Make { rule : jsstring; flag : jsstring; points : Z }.
End Detail.

Record AnalysisResult := MkResult {
  riskScore : Z;
  riskLevel : RiskLevel;
  flags : list jsstring;
  details : list Detail.t;
  embeddedUrls : option (list jsstring);
  embeddedPhones : option (list jsstring)
}.

Inductive Language := english | hindi | hinglish.

Record FullAnalysisResult := MkFull {
  analysis : AnalysisResult;
  inputType : jsstring;
  language : Language;
  explanation : jsstring;
  disclaimer : jsstring
}.

(* ================================================================== *)
(** * Input handler *)
(* ================================================================== *)

Definition detectInputType (text : jsstring) : jsstring :=
  let trimmed := trim text in
  let urlPattern :=
    rxi "^https?:\/\/[^\s]+|^www\.[^\s]+|^[a-zA-Z0-9-]+\.(com|org|net|xyz|top|click|info|co|in|io|ly|tk|ml|ga|cf|gq|bit\.ly|tinyurl)" in
  if RegExp.test urlPattern trimmed then js "url"
  else
    let phonePattern := rx "^[+]?[0-9\s\-()]{10,}$" in
    if RegExp.test phonePattern (RegExp.replace_all (rx "\s") [] trimmed)
    then js "phone"
    else js "message".

Definition detectLanguage (text : jsstring) : Language :=
  let hindiPattern := rx "[\u0900-\u097F]" in
  let hindiChars := length (RegExp.match_all hindiPattern text) in
  let englishChars := length (RegExp.match_all (rx "[a-zA-Z]") text) in
  let total := (hindiChars + englishChars)%nat in
  if Nat.eqb total 0 then english
  else if Nat.ltb englishChars hindiChars then hindi
  else if Nat.ltb 0 hindiChars && Nat.ltb 0 englishChars then hinglish
  else english.

Definition normalizeInput (text : jsstring) : jsstring :=
  RegExp.replace_all (rx "\s+") (js " ") (trim text).

Definition extractUrls (text : jsstring) : list jsstring :=
  let urlPattern :=
    rxi "https?:\/\/[^\s]+|www\.[^\s]+|bit\.ly\/[^\s]+|tinyurl\.com\/[^\s]+|\b[a-z0-9.-]+\.(com|org|net|in|io|co|xyz|top|click|info|ly|tk|ml|ga|cf|gq)\b" in
  RegExp.match_all urlPattern text.

Definition extractPhones (text : jsstring) : list jsstring :=
  let phonePattern := rx "[+]?[0-9]{10,13}" in
  let cleaned := RegExp.replace_all (rx "[\s\-]") [] text in
  RegExp.match_all phonePattern cleaned.

(* ================================================================== *)
(** * Message analysis rules *)
(* ================================================================== *)

Module Rule.
Record t := Make {
  patterns : list RegExp.t;
  weight : Z;
  flag : jsstring
}.
End Rule.

(** The entries of the catalog, in the order in which
    [Object.entries] lists them. *)
Definition MESSAGE_RULES : list (jsstring * Rule.t) := [
  (js "urgency", Rule.Make
     [
       rxi "\b(urgent|immediately|right now|act now|hurry|last chance|limited time|expires? today|don'?t delay|final notice|final warning|within 24 hours?|within 2 hours?|action required)\b";
       rxi "\b(तुरंत|अभी|जल्दी|आखिरी मौका|अंतिम चेतावनी|24 घंटे में)\b";
       rxi "\b(jaldi|abhi|turant|fauran)\b"
     ]
     18
     (js "urgency_pressure"));
  (js "otp_kyc", Rule.Make
     [
       rxi "\b(otp|kyc|verify|verification|cvv|pin|password|atm pin|upi pin|पासवर्ड)\b";
       rxi "\b(share|send|provide|enter|batao|bhejo).{0,20}(otp|code|pin)\b";
       rxi "\b(update|complete).{0,15}(kyc|pan|aadhar|aadhaar)\b";
       rxi "otp.{0,10}(hai|is|send|bhej)"
     ]
     25
     (js "otp_kyc_request"));
  (js "account_threat", Rule.Make
     [
       rxi "\b(account|खाता|a\/c).{0,20}(block|suspend|close|deactivat|freeze|बंद|ब्लॉक|hold)\b";
       rxi "\b(block|suspend|deactivat|freeze).{0,20}(account|खाता|a\/c)\b";
       rxi "\b(service|card|upi).{0,15}(block|suspend|stop)\b";
       rxi "\b(legal action|कानूनी कार्रवाई|police complaint)\b"
     ]
     22
     (js "account_threat"));
  (js "lottery_reward", Rule.Make
     [
       rxi "\b(congratulations|congrats|winner|won|lottery|prize|reward|gift|cash prize|इनाम|जीत|badhai|mubarak)\b";
       rxi "\b(claim|collect|receive).{0,20}(prize|reward|money|amount)\b";
       rxi "\b(free|मुफ्त|muft).{0,10}(gift|iphone|laptop|money|car|bike)\b";
       rxi "\b(lucky draw|spin wheel|scratch card)\b";
       rxi "\b(selected|chosen).{0,15}(winner|prize)\b";
       rxi "₹\s*\d{1,3}(,\d{3})*\s*(lakh|crore|cr|lac)"
     ]
     25
     (js "lottery_reward_bait"));
  (js "job_scam", Rule.Make
     [
       rxi "\b(earn|income|salary|kamai|kamao).{0,20}(lakhs?|crores?|per day|daily|weekly|monthly|ghar baithe)\b";
       rxi "\b(work from home|wfh|ghar se kaam).{0,20}(earn|income|money|kamai)\b";
       rxi "\b(no interview|direct joining|immediate joining|part time job|typing job)\b";
       rxi "\b(amazon|flipkart|meesho).{0,15}(job|work|partner)\b";
       rxi "\bdata entry.{0,10}(job|work|earn)"
     ]
     22
     (js "suspicious_job_offer"));
  (js "authority", Rule.Make
     [
       rxi "\b(rbi|reserve bank|income tax|it department|police|cyber cell|customs|ed|cbi|enforcement)\b";
       rxi "\b(sbi|hdfc|icici|axis|kotak|pnb|bob|canara|union bank|paytm|phonepe|gpay|google pay)\b";
       rxi "\b(government|सरकार|बैंक|ministry).{0,20}(notice|warning|alert|message)\b";
       rxi "\b(customer care|helpline|support).{0,10}(number|no\.?)\b"
     ]
     18
     (js "authority_impersonation"));
  (js "money_request", Rule.Make
     [
       rxi "\b(transfer|send|pay|bhejo|de do).{0,20}(money|amount|rs|₹|rupees|paisa|paise)\b";
       rxi "\b(processing fee|registration fee|advance payment|token money|booking amount)\b";
       rxi "\b(pay|deposit).{0,15}(first|only|just).{0,10}(rs|₹|\d)";
       rxi "\b(refund|cashback).{0,20}(pending|stuck|process)\b";
       rxi "upi.{0,10}(id|address|transfer)"
     ]
     22
     (js "money_request"));
  (js "poor_grammar", Rule.Make
     [
       rx "(!!!|\?\?\?|\.\.\.\.+)";
       rxi "\b(plz|pls|ur|u r|bcoz|coz|dis|dat|dnt|2day|2morrow|4u|asap)\b";
       rxi "dear\s+(customer|user|sir|madam|member)"
     ]
     10
     (js "poor_grammar"));
  (js "embedded_link", Rule.Make
     [
       rxi "https?:\/\/[^\s]+";
       rxi "bit\.ly|tinyurl|short\.link|t\.co|goo\.gl";
       rxi "click\s+(here|now|below|link)"
     ]
     12
     (js "contains_link"));
  (js "delivery_scam", Rule.Make
     [
       rxi "\b(delivery|courier|parcel|package|shipment).{0,20}(failed|pending|hold|stuck|address)\b";
       rxi "\b(bluedart|delhivery|dtdc|fedex|ecom express|india post).{0,15}(track|delivery)\b";
       rxi "track.{0,10}(order|shipment|parcel)"
     ]
     18
     (js "delivery_scam"));
  (js "loan_scam", Rule.Make
     [
       rxi "\b(instant loan|personal loan|loan approved|pre.?approved loan)\b";
       rxi "\b(loan).{0,15}(₹|rs|lakh|crore)\b";
       rxi "\b(no document|without document|bina document)\b";
       rxi "\b(low interest|0% interest|zero interest)\b"
     ]
     20
     (js "loan_scam"));
  (js "investment_scam", Rule.Make
     [
       rxi "\b(invest|trading|crypto|bitcoin|stock).{0,15}(earn|return|profit|double)\b";
       rxi "\b(double|triple).{0,10}(money|investment|amount)\b";
       rxi "\b(guaranteed|100%|assured).{0,10}(return|profit)\b";
       rxi "\b(forex|binary option|mlm|network marketing)\b"
     ]
     25
     (js "investment_scam"));
  (js "whatsapp_forward", Rule.Make
     [
       rxi "\b(forward|share).{0,15}(10|20|100|groups?|contacts?|friends?)\b";
       rxi "\b(whatsapp|telegram).{0,10}(forward|share)\b";
       rxi "\b(viral|trending|breaking).{0,10}(news|alert)\b"
     ]
     12
     (js "chain_message"))
].

(* ================================================================== *)
(** * URL analysis rules *)
(* ================================================================== *)

Definition SUSPICIOUS_TLDS : list jsstring :=
  map js [".xyz"; ".top"; ".click"; ".info"; ".tk"; ".ml"; ".ga"; ".cf";
          ".gq"; ".buzz"; ".work"; ".loan"]%string.

Definition URL_SHORTENERS : list jsstring :=
  map js ["bit.ly"; "tinyurl.com"; "short.link"; "goo.gl"; "t.co"; "ow.ly";
          "is.gd"; "buff.ly"]%string.

Definition KNOWN_BRANDS : list jsstring :=
  map js ["google"; "facebook"; "amazon"; "flipkart"; "paytm"; "phonepe";
          "gpay"; "sbi"; "hdfc"; "icici"; "axis"; "netflix"; "whatsapp";
          "instagram"]%string.

Definition SUSPICIOUS_PATH_TOKENS : list jsstring :=
  map js ["verify"; "confirm"; "login"; "secure"; "account"; "update";
          "bank"; "payment"; "refund"; "prize"; "claim"; "click";
          "authenticate"; "signin"; "token"]%string.

(** [s.replace(/a/g, b)] for single units [a] and [b]. *)
Definition replace_unit (a b : ascii) (s : jsstring) : jsstring :=
  map (fun c => if (c =? ch a)%N then ch b else c) s.

Definition deleet (s : jsstring) : jsstring :=
  replace_unit "8" "b"
    (replace_unit "7" "t"
       (replace_unit "4" "a"
          (replace_unit "5" "s"
             (replace_unit "3" "e"
                (replace_unit "1" "l"
                   (replace_unit "0" "o" s)))))).

(* ================================================================== *)
(** * Phone rules *)
(* ================================================================== *)

Definition FOREIGN_CODES : list jsstring :=
  map js ["+1"; "+44"; "+234"; "+233"; "+254"; "+880"; "+92"]%string.

(* ================================================================== *)
(** * Risk level calculator *)
(* ================================================================== *)

Definition calculateRiskLevel (score : Z) : RiskLevel :=
  if (score <=? 30)%Z then safe
  else if (score <=? 60)%Z then suspicious
  else high_risk.

(* ================================================================== *)
(** * Analyzers *)
(* ================================================================== *)

(** The three local variables that every analyzer updates as it goes. *)
Record Acc := MkAcc {
  acc_score : Z;
  acc_flags : list jsstring;
  acc_details : list Detail.t
}.

Definition start : Acc := MkAcc 0 [] [].

(** [riskScore += n] *)
Definition add (n : Z) (a : Acc) : Acc :=
  MkAcc (acc_score a + n) (acc_flags a) (acc_details a).

(** [flags.push(f); details.push({ rule, flag: f, points })] *)
Definition record (rule f : jsstring) (pts : Z) (a : Acc) : Acc :=
  MkAcc (acc_score a) (acc_flags a ++ [f])
        (acc_details a ++ [Detail.Make rule f pts]).

(** The three statements of an unguarded check. *)
Definition hit (pts : Z) (rule f : string) (a : Acc) : Acc :=
  record (js rule) (js f) pts (add pts a).

(** [if (!flags.includes(f)) flags.push(f)] *)
Definition merge_flag (a : Acc) (f : jsstring) : Acc :=
  if arr_includes (acc_flags a) f then a
  else MkAcc (acc_score a) (acc_flags a ++ [f]) (acc_details a).

(** [for (const x of xs) { if (p x) { body; break } }] *)
Fixpoint first_that {A : Type} (p : A -> bool) (xs : list A)
         (body : Acc -> Acc) (a : Acc) : Acc :=
  match xs with
  | [] => a
  | x :: xs' => if p x then body a else first_that p xs' body a
  end.

(** The result object that each analyzer returns. *)
Definition finish (a : Acc) (urls phones : option (list jsstring))
  : AnalysisResult :=
  MkResult (Z.min (acc_score a) 100)
           (calculateRiskLevel (Z.min (acc_score a) 100))
           (acc_flags a) (acc_details a) urls phones.

Section Analyzers.

Context {host : Host}.

(** The [try]/[catch] at the head of [analyzeUrl]: the values of
    [domain] and [pathname] after it. *)
Definition url_parts (url : jsstring) : jsstring * jsstring :=
  match URL_parse (if startsWith url (js "http") then url
                   else js "http://" ++ url) with
  | Some parsed => (hostname parsed, pathname parsed ++ search parsed)
  | None => (hd [] (split (ch "/") url), [])
  end.

Definition url_domain (url : jsstring) : jsstring := fst (url_parts url).

(** The checks of [analyzeUrl] up to the [return], on its accumulator. *)
Definition analyzeUrl_acc (url : jsstring) : Acc :=
  let a := start in
  let urlLower := toLowerCase url in
  (* Extract domain *)
  let domain := url_domain url in
  let pathname := snd (url_parts url) in
  (* IP-based URL *)
  let a :=
    if RegExp.test (rx "https?:\/\/\d{1,3}\.\d{1,3}\.\d{1,3}\.\d{1,3}") urlLower
    then hit 25 "ip_based" "ip_based_url" a else a in
  (* Punycode / IDN homograph indicator *)
  let a :=
    if includes domain (js "xn--")
    then hit 20 "punycode" "punycode_domain" a else a in
  (* '@' in URL *)
  let a :=
    if RegExp.test (rx "@") urlLower
    then hit 18 "userinfo" "userinfo_in_url" a else a in
  (* HTTP without TLS *)
  let a :=
    if startsWith urlLower (js "http://")
       && negb (startsWith urlLower (js "https://"))
    then hit 8 "no_https" "no_https" a else a in
  (* Suspicious TLD *)
  let a :=
    first_that (fun tld => endsWith domain tld) SUSPICIOUS_TLDS
               (hit 18 "suspicious_tld" "suspicious_tld") a in
  (* URL shortener *)
  let a :=
    first_that (fun shortener => includes domain shortener) URL_SHORTENERS
               (hit 15 "shortener" "url_shortener") a in
  (* Brand spoofing *)
  let a :=
    first_that
      (fun brand =>
         let brandLower := toLowerCase brand in
         (includes domain brandLower || includes (deleet domain) brandLower)
         && (let officialDomains :=
               [brand ++ js ".com"; brand ++ js ".in"; brand ++ js ".co.in";
                brand ++ js ".org"] in
             let isOfficial :=
               existsb (fun od => endsWith domain od || JS.eqb domain od)
                       officialDomains in
             negb isOfficial))
      KNOWN_BRANDS
      (hit 22 "brand_spoof" "brand_spoofing") a in
  (* Suspicious path tokens *)
  let combinedPath := pathname ++ js " " ++ urlLower in
  let a :=
    fold_left
      (fun a token =>
         if includes combinedPath token then
           let a := add 12 a in
           if negb (arr_includes (acc_flags a) (js "suspicious_path_token"))
           then record (js "suspicious_path") (js "suspicious_path_token") 12 a
           else a
         else a)
      SUSPICIOUS_PATH_TOKENS a in
  (* Subdomain count *)
  let subdomainCount := (Z.of_nat (length (split (ch ".") domain)) - 2)%Z in
  let a :=
    if (3 <=? subdomainCount)%Z
    then hit 12 "many_subdomains" "excessive_subdomains" a else a in
  (* Long URL *)
  let a :=
    if Nat.ltb 100 (length url)
    then hit 10 "long_url" "suspicious_long_url" a else a in
  (* Random string *)
  let a :=
    if RegExp.test (rx "[a-z0-9]{15,}") urlLower
    then hit 12 "random_string" "random_string_url" a else a in
  (* Minimal caution for an otherwise unflagged odd domain *)
  let a :=
    if Nat.eqb (length (acc_flags a)) 0
       && negb (Nat.eqb (length domain) 0)
       && Nat.leb 2 (length (split (ch ".") domain))
    then
      if RegExp.test (rxi "[^a-z0-9.-]") domain
      then hit 6 "weird_chars" "weird_domain_chars" a else a
    else a in
  a.

Definition analyzeUrl (url : jsstring) : AnalysisResult :=
  finish (analyzeUrl_acc url) None None.

(** The digits of a phone number: [digitsOnly] in [analyzePhone]. *)
Definition phone_digits (phone : jsstring) : jsstring :=
  let cleanPhone := RegExp.replace_all (rx "[\s\-()]") [] phone in
  RegExp.replace_all (rx "\D") [] cleanPhone.

(** The checks of [analyzePhone] up to the [return]. *)
Definition analyzePhone_acc (phone : jsstring) : Acc :=
  let a := start in
  let cleanPhone := RegExp.replace_all (rx "[\s\-()]") [] phone in
  (* Foreign country code *)
  let a :=
    first_that (fun code => startsWith cleanPhone code) FOREIGN_CODES
               (hit 15 "foreign_code" "foreign_country_code") a in
  (* Length validation *)
  let digitsOnly := phone_digits phone in
  let a :=
    if Nat.ltb (length digitsOnly) 10 || Nat.ltb 15 (length digitsOnly)
    then hit 12 "length_issue" "suspicious_number_length" a else a in
  (* Invalid Indian pattern *)
  let a :=
    if Nat.eqb (length digitsOnly) 10
       && negb (arr_includes (map js ["6"; "7"; "8"; "9"]%string)
                             (firstn 1 digitsOnly))
    then hit 20 "invalid_pattern" "invalid_number_pattern" a else a in
  (* Repeated digits: the size of the set of the units of [lastTen] *)
  let lastTen := slice_last 10 digitsOnly in
  let a :=
    if Nat.leb (length (nodup N.eq_dec lastTen)) 2
    then hit 15 "repeated_digits" "suspicious_repeated_digits" a else a in
  (* Long repeated sequences anywhere *)
  let a :=
    if RegExp.test (rx "(\d)\1{4,}") digitsOnly then
      if negb (arr_includes (acc_flags a) (js "suspicious_repeated_digits"))
      then hit 12 "repeated_sequence" "suspicious_repeated_digits" a
      else a
    else a in
  a.

Definition analyzePhone (phone : jsstring) : AnalysisResult :=
  finish (analyzePhone_acc phone) None None.

(** One turn of the loop over the rules: the first pattern that matches
    ends the inner loop. *)
Definition apply_rule (textLower : jsstring) (a : Acc)
           (entry : jsstring * Rule.t) : Acc :=
  let '(ruleName, rule) := entry in
  if existsb (fun pattern => RegExp.test pattern textLower)
             (Rule.patterns rule)
  then
    let a := add (Rule.weight rule) a in
    if negb (arr_includes (acc_flags a) (Rule.flag rule))
    then record ruleName (Rule.flag rule) (Rule.weight rule) a
    else a
  else a.

(** One turn of the loop over the embedded URLs. *)
Definition fold_url (a : Acc) (url : jsstring) : Acc :=
  let urlResult := analyzeUrl url in
  let a := add (Z.min (riskScore urlResult / 2) 30) a in
  fold_left merge_flag (flags urlResult) a.

(** One turn of the loop over the embedded phone numbers. *)
Definition fold_phone (a : Acc) (phone : jsstring) : Acc :=
  let phoneResult := analyzePhone phone in
  let a := add (Z.min (riskScore phoneResult / 3) 15) a in
  fold_left merge_flag (flags phoneResult) a.

Definition analyzeMessage_acc (text : jsstring) : Acc :=
  let a := start in
  let textLower := toLowerCase text in
  let a := fold_left (apply_rule textLower) MESSAGE_RULES a in
  (* Check embedded URLs *)
  let urls := extractUrls text in
  let a := fold_left fold_url (firstn 2 urls) a in
  (* Check embedded phones *)
  let phones := extractPhones text in
  let a := fold_left fold_phone (firstn 2 phones) a in
  a.

Definition analyzeMessage (text : jsstring) : AnalysisResult :=
  finish (analyzeMessage_acc text)
         (Some (extractUrls text)) (Some (extractPhones text)).

End Analyzers.

(* ================================================================== *)
(** * Fallback explanation *)
(* ================================================================== *)

Definition FLAG_DESCRIPTIONS : list (jsstring * jsstring) :=
  map (fun '(k, v) => (js k, js v))
  [ ("urgency_pressure", "Contains urgent language designed to pressure quick decisions");
    ("otp_kyc_request", "Requests sensitive information like OTP or KYC details");
    ("account_threat", "Threatens account suspension or blocking");
    ("lottery_reward_bait", "Promises prizes, rewards, or lottery winnings");
    ("suspicious_job_offer", "Offers suspicious job with unrealistic earnings");
    ("authority_impersonation", "May be impersonating banks or government");
    ("money_request", "Requests money transfer or payment");
    ("poor_grammar", "Contains suspicious grammar patterns");
    ("contains_link", "Contains links that need verification");
    ("ip_based_url", "URL uses IP address instead of domain name");
    ("suspicious_tld", "Uses suspicious domain extension");
    ("url_shortener", "Uses URL shortener to hide actual destination");
    ("brand_spoofing", "May be impersonating a known brand");
    ("excessive_subdomains", "Has suspicious number of subdomains");
    ("suspicious_long_url", "Unusually long URL");
    ("random_string_url", "Contains random characters in URL");
    ("foreign_country_code", "Phone number from foreign country");
    ("invalid_number_pattern", "Invalid phone number pattern");
    ("suspicious_number_length", "Suspicious phone number length");
    ("suspicious_repeated_digits", "Phone has suspicious repeated digits")
  ]%string.

Fixpoint lookup (k : jsstring) (table : list (jsstring * jsstring))
  : option jsstring :=
  match table with
  | [] => None
  | (k', v) :: table' => if JS.eqb k k' then Some v else lookup k table'
  end.

(** [parts.join(sep)] *)
Fixpoint join (sep : jsstring) (parts : list jsstring) : jsstring :=
  match parts with
  | [] => []
  | [x] => x
  | x :: parts' => x ++ sep ++ join sep parts'
  end.

Definition generateFallbackExplanation (riskLevel : RiskLevel)
           (flags : list jsstring) : jsstring :=
  let parts :=
    match riskLevel with
    | high_risk => [js "⚠️ HIGH RISK: This appears to be a potential scam."]
    | suspicious => [js "⚡ SUSPICIOUS: This has some concerning patterns."]
    | safe => [js "✅ LOW RISK: No major red flags detected."]
    end in
  let parts :=
    if Nat.ltb 0 (length flags) then
      let descriptions :=
        map (fun f =>
               match lookup f FLAG_DESCRIPTIONS with
               | Some d => d
               | None => replace_unit "_" " " f
               end)
            (firstn 3 flags) in
      parts ++ [js "Detected issues: " ++ join (js "; ") descriptions ++ js "."]
    else parts in
  let parts :=
    match riskLevel with
    | safe => parts
    | _ => parts ++ [js "Do NOT click links, share OTP, or send money. Verify through official channels."]
    end in
  join (js " ") parts.

(* ================================================================== *)
(** * Main analyze function *)
(* ================================================================== *)

Section Analyze.

Context {host : Host}.

(** [type] is [None] when the argument is absent; a present argument is
    whatever string the caller passed. *)
Definition analyze (input : jsstring) (type : option jsstring)
  : FullAnalysisResult :=
  let normalized := normalizeInput input in
  let inputType :=
    match type with
    | None => detectInputType normalized
    | Some t =>
        if JS.eqb t (js "auto") || Nat.eqb (length t) 0
        then detectInputType normalized
        else t
    end in
  let language := detectLanguage normalized in
  let analysis :=
    if JS.eqb inputType (js "url") then analyzeUrl normalized
    else if JS.eqb inputType (js "phone") then analyzePhone normalized
    else analyzeMessage normalized in
  let explanation :=
    generateFallbackExplanation (riskLevel analysis) (flags analysis) in
  MkFull analysis inputType language explanation
         (js "This is a risk-based analysis, not a verification. Always verify through official channels.").

(* ================================================================== *)
(** * The request handler (app/api/analyze/route.ts) *)
(* ================================================================== *)

(** The body of a request, for bodies whose [input] and [type] members
    are strings or absent. *)
Record Body := MkBody {
  body_input : option jsstring;
  body_type : option jsstring
}.

Inductive Response :=
| ErrorResponse (error : jsstring) (status : Z)
| SuccessResponse (result : FullAnalysisResult) (explanation : jsstring).

(** [a || b] on strings that may be absent: the empty string is falsy. *)
Definition or_else (a : option jsstring) (b : jsstring) : jsstring :=
  match a with
  | Some (x :: xs) => x :: xs
  | _ => b
  end.

(** [POST], with the answer of the explanation collaborator for the
    analysed input as a function ([None] when it gives none). *)
Definition POST (getGeminiExplanation : FullAnalysisResult -> jsstring -> option jsstring)
           (body : Body) : Response :=
  match body_input body with
  | None | Some [] => ErrorResponse (js "No input provided") 400
  | Some (x :: xs) =>
      let input := trim (x :: xs) in
      let type := or_else (body_type body) (js "auto") in
      if Nat.eqb (length input) 0 then ErrorResponse (js "Empty input") 400
      else
        let result := analyze input (Some type) in
        let aiExplanation := getGeminiExplanation result input in
        SuccessResponse result (or_else aiExplanation (explanation result))
  end.

End Analyze.

(* ================================================================== *)
(** * A host for the examples

    ASCII lower-casing, and a parser for URLs of the plain shape
    [scheme://[userinfo@]host[:port][/path][?query][#fragment]] whose host
    is made of ASCII letters, digits, hyphens and dots.  On the inputs
    that are evaluated in this file both return what the platform
    returns. *)
(* ================================================================== *)

Module Reference.

Definition lower (c : N) : N :=
  if ((65 <=? c) && (c <=? 90))%N then (c + 32)%N else c.

Definition toLowerCase (s : jsstring) : jsstring := map lower s.

Fixpoint take_until (stop : N -> bool) (s : jsstring) : jsstring * jsstring :=
  match s with
  | [] => ([], [])
  | x :: s' =>
      if stop x then ([], s)
      else let '(a, b) := take_until stop s' in (x :: a, b)
  end.

Definition one_of (cs : string) (x : N) : bool :=
  existsb (N.eqb x) (js cs).

(** What follows the last occurrence of [c], if there is one. *)
Definition after_last (c : N) (s : jsstring) : option jsstring :=
  match split c s with
  | [] | [_] => None
  | segs => Some (last segs [])
  end.

Definition before_last (c : N) (s : jsstring) : jsstring :=
  firstn (length s - length (last (split c s) []) - 1) s.

Definition host_unit (x : N) : bool :=
  (((97 <=? x) && (x <=? 122)) || is_digit x || (x =? ch "-") || (x =? ch "."))%N.

Definition URL_parse (s : jsstring) : option URL :=
  let after_scheme :=
    if startsWith (toLowerCase s) (js "http://") then Some (skipn 7 s)
    else if startsWith (toLowerCase s) (js "https://") then Some (skipn 8 s)
    else None in
  match after_scheme with
  | None => None
  | Some r =>
      let '(authority, r1) := take_until (one_of "/?#\") r in
      let hostport :=
        match after_last (ch "@") authority with
        | Some h => h
        | None => authority
        end in
      let h :=
        match after_last (ch ":") hostport with
        | Some p => if forallb is_digit p then before_last (ch ":") hostport
                    else hostport
        | None => hostport
        end in
      let h := toLowerCase h in
      if Nat.eqb (length h) 0 || negb (forallb host_unit h) then None
      else
        let '(path, r2) := take_until (one_of "?#") r1 in
        let '(query, _) :=
          match r2 with
          | x :: r3 => if (x =? ch "?")%N
                       then let '(q, t) := take_until (one_of "#") r3 in
                            (x :: q, t)
                       else ([], r2)
          | [] => ([], [])
          end in
        Some (MkURL h
                    (match path with [] => js "/" | _ => path end)
                    (match query with [_] => [] | _ => query end))
  end.

#[export] Instance host : Host := {
  toLowerCase := toLowerCase;
  URL_parse := URL_parse
}.

End Reference.

(* ================================================================== *)
(** * Notions used to state the properties *)
(* ================================================================== *)

(** [subseq l m]: [l] is [m] with some elements left out. *)
Inductive subseq {A : Type} : list A -> list A -> Prop :=
| subseq_nil : subseq [] []
| subseq_skip x l m : subseq l m -> subseq l (x :: m)
| subseq_take x l m : subseq l m -> subseq (x :: l) (x :: m).

(** [dedup l]: the first occurrence of every string of [l], in order. *)
Fixpoint dedup (l : list jsstring) : list jsstring :=
  match l with
  | [] => []
  | x :: l' => x :: filter (fun y => negb (JS.eqb y x)) (dedup l')
  end.

Definition sum (l : list Z) : Z := fold_right Z.add 0%Z l.

(** The flags of [analyzeUrl] and of [analyzePhone], in the order of the
    checks that raise them. *)
Definition URL_FLAG_ORDER : list jsstring :=
  map js ["ip_based_url"; "punycode_domain"; "userinfo_in_url"; "no_https";
          "suspicious_tld"; "url_shortener"; "brand_spoofing";
          "suspicious_path_token"; "excessive_subdomains";
          "suspicious_long_url"; "random_string_url";
          "weird_domain_chars"]%string.

Definition PHONE_FLAG_ORDER : list jsstring :=
  map js ["foreign_country_code"; "suspicious_number_length";
          "invalid_number_pattern"; "suspicious_repeated_digits"]%string.

(** What holds of an accumulator after the first [n] checks of an analyzer
    whose flags are raised in the order [order] and whose checks award at
    least [least] points. *)
Record Inv (order : list jsstring) (least : Z) (n : nat) (a : Acc) : Prop := {
  inv_order : subseq (acc_flags a) (firstn n order);
  inv_details : map Detail.flag (acc_details a) = acc_flags a;
  inv_score : (acc_flags a = [] /\ acc_score a = 0%Z)
              \/ (acc_flags a <> [] /\ (least <= acc_score a)%Z)
}.

(** A rule fires on a text when one of its patterns matches it. *)
Definition rule_fires (textLower : jsstring) (entry : jsstring * Rule.t)
  : bool :=
  existsb (fun pattern => RegExp.test pattern textLower)
          (Rule.patterns (snd entry)).

Definition fired_rules (textLower : jsstring) : list (jsstring * Rule.t) :=
  filter (rule_fires textLower) MESSAGE_RULES.

(** A list of strings without repetition, as a test. *)
Fixpoint nodupb (l : list jsstring) : bool :=
  match l with
  | [] => true
  | x :: l' => negb (arr_includes l' x) && nodupb l'
  end.

Definition rule_flag (entry : jsstring * Rule.t) : jsstring :=
  Rule.flag (snd entry).

Definition rule_weight (entry : jsstring * Rule.t) : Z :=
  Rule.weight (snd entry).

(** Either nothing was flagged and the score is 0, or something was and
    the score is at least the smallest award of the analyzer. *)
Definition flagged_or_zero (least : Z) (r : AnalysisResult) : Prop :=
  (flags r = [] /\ riskScore r = 0%Z)
  \/ (flags r <> [] /\ (least <= riskScore r <= 100)%Z).

(** ** What a pattern matches, without the search order

    [Matches icase r st st']: the pattern [r] can take the matcher from
    [st] to [st'].  [Iter R lo hi count st st'] are the iterations of a
    quantifier whose body is [R], after [count] of them. *)
Inductive Iter (R : RegExp.mstate -> RegExp.mstate -> Prop)
          (lo : nat) (hi : option nat)
  : nat -> RegExp.mstate -> RegExp.mstate -> Prop :=
| Iter_stop count st :
    lo <= count -> Iter R lo hi count st st
| Iter_more count st st1 st' :
    match hi with Some h => count < h | None => True end ->
    R st st1 ->
    ~ (lo <= count
       /\ length (RegExp.rest st1) = length (RegExp.rest st)) ->
    Iter R lo hi (S count) st1 st' ->
    Iter R lo hi count st st'.

Fixpoint Matches (icase : bool) (r : RegExp.regex)
         (st st' : RegExp.mstate) {struct r} : Prop :=
  match r with
  | RegExp.Empty => st' = st
  | RegExp.Char c =>
      exists x xs, RegExp.rest st = x :: xs
                   /\ RegExp.same_char icase c x = true
                   /\ st' = RegExp.step st x xs
  | RegExp.Any =>
      exists x xs, RegExp.rest st = x :: xs
                   /\ is_line_terminator x = false
                   /\ st' = RegExp.step st x xs
  | RegExp.Class neg items =>
      exists x xs, RegExp.rest st = x :: xs
                   /\ RegExp.class_matches icase neg items x = true
                   /\ st' = RegExp.step st x xs
  | RegExp.Seq r1 r2 =>
      exists st1, Matches icase r1 st st1 /\ Matches icase r2 st1 st'
  | RegExp.Alt r1 r2 => Matches icase r1 st st' \/ Matches icase r2 st st'
  | RegExp.Group n r1 =>
      exists st1,
        Matches icase r1 st st1
        /\ st' = RegExp.MState
                   (RegExp.prev st1) (RegExp.rest st1)
                   ((n, firstn (length (RegExp.rest st)
                                - length (RegExp.rest st1))
                               (RegExp.rest st))
                      :: RegExp.caps st1)
  | RegExp.Backref n =>
      match RegExp.get_cap n (RegExp.caps st) with
      | None => st' = st
      | Some w => RegExp.eat_string icase w st = Some st'
      end
  | RegExp.Rep lo hi r1 => Iter (Matches icase r1) lo hi 0 st st'
  | RegExp.WordBoundary =>
      xorb (RegExp.at_word_char (RegExp.prev st))
           (RegExp.at_word_char (hd_error (RegExp.rest st))) = true
      /\ st' = st
  | RegExp.Bol => RegExp.prev st = None /\ st' = st
  | RegExp.Eol => RegExp.rest st = [] /\ st' = st
  end.

(** The unit before the position that follows [pre]. *)
Definition unit_before (before : option N) (pre : jsstring) : option N :=
  match rev pre with
  | x :: _ => Some x
  | [] => before
  end.

(** ** The words of a pattern

    For a pattern built from single units, sequence, alternation and
    quantified single units (no assertion, group or back-reference), what
    it matches is a set of words. *)
Definition unit_of (icase : bool) (r : RegExp.regex) : option (N -> bool) :=
  match r with
  | RegExp.Char c => Some (RegExp.same_char icase c)
  | RegExp.Any => Some (fun x => negb (is_line_terminator x))
  | RegExp.Class neg items => Some (RegExp.class_matches icase neg items)
  | _ => None
  end.

Fixpoint plain (r : RegExp.regex) : bool :=
  match r with
  | RegExp.Empty | RegExp.Char _ | RegExp.Any | RegExp.Class _ _ => true
  | RegExp.Seq r1 r2 | RegExp.Alt r1 r2 => plain r1 && plain r2
  | RegExp.Rep _ _ r1 =>
      match r1 with
      | RegExp.Char _ | RegExp.Any | RegExp.Class _ _ => true
      | _ => false
      end
  | _ => false
  end.

Fixpoint Lang (icase : bool) (r : RegExp.regex) (w : jsstring) : Prop :=
  match r with
  | RegExp.Empty => w = []
  | RegExp.Char _ | RegExp.Any | RegExp.Class _ _ =>
      match unit_of icase r with
      | Some p => exists x, w = [x] /\ p x = true
      | None => False
      end
  | RegExp.Seq r1 r2 =>
      exists w1 w2, w = w1 ++ w2 /\ Lang icase r1 w1 /\ Lang icase r2 w2
  | RegExp.Alt r1 r2 => Lang icase r1 w \/ Lang icase r2 w
  | RegExp.Rep lo hi r1 =>
      match unit_of icase r1 with
      | Some p =>
          lo <= length w
          /\ match hi with Some h => length w <= h | None => True end
          /\ forallb p w = true
      | None => False
      end
  | _ => False
  end.

(** One to three decimal digits. *)
Definition digit_group (w : jsstring) : Prop :=
  1 <= length w <= 3 /\ forallb is_digit w = true.

(** A text that contains [http://] or [https://] followed at once by four
    groups of one to three digits with dots between them. *)
Definition ip_url_shape (s : jsstring) : Prop :=
  exists pre scheme a b c d post,
    s = pre ++ scheme ++ a ++ js "." ++ b ++ js "." ++ c ++ js "." ++ d
            ++ post
    /\ (scheme = js "http://" \/ scheme = js "https://")
    /\ digit_group a /\ digit_group b /\ digit_group c /\ digit_group d.

(** A text that contains the same decimal digit five times in a row. *)
Definition has_digit_run (s : jsstring) : Prop :=
  exists pre d post,
    is_digit d = true /\ s = pre ++ repeat d 5 ++ post.

(** What one flag [f] and one detail entry [d] do in an accumulator:
    both are present exactly when [P] holds. *)
Record Trk (f : jsstring) (d : Detail.t) (P : Prop) (a : Acc) : Prop := {
  trk_flag : In f (acc_flags a) <-> P;
  trk_detail : In d (acc_details a) <-> P
}.

(** The score is the points of the detail entries plus [extra]. *)
Record Paid (extra : Z) (a : Acc) : Prop := {
  paid_points : Forall (fun d => 0 <= Detail.points d)%Z (acc_details a);
  paid_eq :
    acc_score a = (sum (map Detail.points (acc_details a)) + extra)%Z
}.

(** The tokens of [SUSPICIOUS_PATH_TOKENS] that a text contains. *)
Definition path_tokens_in (combinedPath : jsstring) : list jsstring :=
  filter (includes combinedPath) SUSPICIOUS_PATH_TOKENS.

(** The four suffixes that make a domain official for a brand. *)
Definition OFFICIAL_SUFFIXES : list jsstring :=
  map js [".com"; ".in"; ".co.in"; ".org"]%string.

(** A domain spoofs a brand: it contains its name, as written or with
    digits standing for letters, and does not end with one of the brand's
    official domains. *)
Definition spoofs (domain brand : jsstring) : Prop :=
  (includes domain brand = true \/ includes (deleet domain) brand = true)
  /\ forall suffix, In suffix OFFICIAL_SUFFIXES ->
                    endsWith domain (brand ++ suffix) = false.

(** Four groups of decimal digits with dots between them. *)
Definition is_ip_literal (domain : jsstring) : bool :=
  match split (ch ".") domain with
  | [a; b; c; d] =>
      forallb (fun g => negb (Nat.eqb (length g) 0) && forallb is_digit g)
              [a; b; c; d]
  | _ => false
  end.

(** The test of the brand loop of [analyzeUrl], for all brands at once. *)
Definition brand_spoofed {host : Host} (domain : jsstring) : bool :=
  existsb
    (fun brand =>
       (includes domain (toLowerCase brand)
        || includes (deleet domain) (toLowerCase brand))
       && negb (existsb (fun od => endsWith domain od || JS.eqb domain od)
                        [brand ++ js ".com"; brand ++ js ".in";
                         brand ++ js ".co.in"; brand ++ js ".org"]))
    KNOWN_BRANDS.

(** The two repetition tests of [analyzePhone]. *)
Definition few_distinct (digits : jsstring) : bool :=
  Nat.leb (length (nodup N.eq_dec (slice_last 10 digits))) 2.

Definition digit_run (digits : jsstring) : bool :=
  RegExp.test (rx "(\d)\1{4,}") digits.

(** ** Notions for further properties *)

(** The tiers in increasing order of risk. *)
Definition level_rank (l : RiskLevel) : nat :=
  match l with
  | safe => 0
  | suspicious => 1
  | high_risk => 2
  end.

(** The digits that [deleet] rewrites. *)
Definition leet_digit (c : N) : bool :=
  existsb (N.eqb c) (js "0135478").

(** The first sentence of the fallback explanation. *)
Definition headline (l : RiskLevel) : jsstring :=
  match l with
  | high_risk => js "⚠️ HIGH RISK: This appears to be a potential scam."
  | suspicious => js "⚡ SUSPICIOUS: This has some concerning patterns."
  | safe => js "✅ LOW RISK: No major red flags detected."
  end.

(** [cleanPhone] in [analyzePhone]. *)
Definition clean_phone (phone : jsstring) : jsstring :=
  RegExp.replace_all (rx "[\s\-()]") [] phone.

(** What [cleanPhone] leaves out: white space, hyphens and parentheses. *)
Definition phone_separator (c : N) : bool :=
  is_space c || (c =? ch "-")%N || (c =? ch "(")%N || (c =? ch ")")%N.

(** [if c then n else 0] *)
Definition pts (c : bool) (n : Z) : Z := if c then n else 0%Z.

(** The flags and the detail entries that one check leaves. *)
Definition flag_if (c : bool) (f : string) : list jsstring :=
  if c then [js f] else [].

Definition detail_if (c : bool) (rule f : string) (n : Z) : list Detail.t :=
  if c then [Detail.Make (js rule) (js f) n] else [].

(** One turn of the loop of [analyzeUrl] over the path tokens. *)
Definition path_token_turn (combinedPath : jsstring) (a : Acc)
           (token : jsstring) : Acc :=
  if includes combinedPath token then
    let a := add 12 a in
    if negb (arr_includes (acc_flags a) (js "suspicious_path_token"))
    then record (js "suspicious_path") (js "suspicious_path_token") 12 a
    else a
  else a.

(** A lower-case ASCII letter or a decimal digit: what [[a-z0-9]]
    matches. *)
Definition lower_alnum (c : N) : bool :=
  ((97 <=? c) && (c <=? 122))%N || is_digit c.

(** An ASCII letter, and a code unit of the Devanagari block. *)
Definition ascii_letter (c : N) : bool :=
  ((97 <=? c) && (c <=? 122) || (65 <=? c) && (c <=? 90))%N.

Definition devanagari (c : N) : bool := ((2304 <=? c) && (c <=? 2431))%N.

(** The longest prefix whose units satisfy [p], and what follows it. *)
Fixpoint take_while (p : N -> bool) (s : jsstring) : jsstring :=
  match s with
  | x :: s' => if p x then x :: take_while p s' else []
  | [] => []
  end.

Fixpoint drop_while (p : N -> bool) (s : jsstring) : jsstring :=
  match s with
  | x :: s' => if p x then drop_while p s' else s
  | [] => []
  end.

(** [s] with every run of white space replaced by one blank;
    [in_space] tells that the unit before was white space. *)
Fixpoint squeeze (in_space : bool) (s : jsstring) : jsstring :=
  match s with
  | [] => []
  | x :: s' =>
      if is_space x
      then if in_space then squeeze true s' else 32%N :: squeeze true s'
      else x :: squeeze false s'
  end.

(** The first unit, if there is one, is not white space. *)
Definition starts_clean (s : jsstring) : bool :=
  match s with
  | x :: _ => negb (is_space x)
  | [] => true
  end.

(** The only white space is the blank, and each blank is followed by a
    unit that is not white space. *)
Fixpoint single_spaced (s : jsstring) : bool :=
  match s with
  | [] => true
  | x :: s' =>
      (if is_space x
       then (x =? 32)%N && negb (Nat.eqb (length s') 0) && starts_clean s'
       else true)
      && single_spaced s'
  end.

(** A normalized text: no white space at either end, and single blanks
    only inside. *)
Definition normal (s : jsstring) : bool := starts_clean s && single_spaced s.

(** A decimal digit, a hyphen or a parenthesis. *)
Definition phone_char (c : N) : bool :=
  is_digit c || (c =? ch "-")%N || (c =? ch "(")%N || (c =? ch ")")%N.

(* ================================================================== *)
(** * Properties *)
(* ================================================================== *)

(** ** Strings and lists *)

Lemma eqb_eq a b : JS.eqb a b = true <-> a = b.
Proof.
  unfold JS.eqb. destruct (list_eq_dec N.eq_dec a b); split; congruence.
Qed.

Lemma eqb_refl a : JS.eqb a a = true.
Proof. now apply eqb_eq. Qed.

Lemma arr_includes_In arr x : arr_includes arr x = true <-> In x arr.
Proof.
  unfold arr_includes. rewrite existsb_exists. split.
  - intros [y [Hy He]]. apply eqb_eq in He. now subst.
  - intros H. exists x. split; [assumption | apply eqb_refl].
Qed.

Lemma nodupb_NoDup l : nodupb l = true -> NoDup l.
Proof.
  induction l as [|x l IH]; simpl; intros H; constructor.
  - apply andb_prop in H. destruct H as [H _].
    intros Hin. apply arr_includes_In in Hin. rewrite Hin in H. discriminate.
  - apply IH. apply andb_prop in H. tauto.
Qed.

Section ListFacts.

Context {A : Type}.

Implicit Types l m : list A.

Lemma subseq_nil_l m : subseq [] m.
Proof. induction m; constructor; assumption. Qed.

Lemma subseq_refl l : subseq l l.
Proof. induction l; constructor; assumption. Qed.

Lemma subseq_incl l m : subseq l m -> incl l m.
Proof.
  induction 1 as [|x l m _ IH|x l m _ IH]; intros y Hy.
  - assumption.
  - right. now apply IH.
  - destruct Hy as [->|Hy]; [now left | right; now apply IH].
Qed.

Lemma subseq_NoDup l m : subseq l m -> NoDup m -> NoDup l.
Proof.
  induction 1 as [|x l m _ IH|x l m Hs IH]; intros Hm.
  - constructor.
  - inversion Hm; subst. now apply IH.
  - inversion Hm; subst. constructor.
    + intros Hx. now apply (subseq_incl Hs) in Hx.
    + now apply IH.
Qed.

Lemma subseq_app_skip l m x : subseq l m -> subseq l (m ++ [x]).
Proof.
  induction 1; simpl.
  - apply subseq_skip, subseq_nil.
  - now apply subseq_skip.
  - now apply subseq_take.
Qed.

Lemma subseq_app_snoc l m x : subseq l m -> subseq (l ++ [x]) (m ++ [x]).
Proof.
  induction 1; simpl.
  - apply subseq_take, subseq_nil.
  - now apply subseq_skip.
  - now apply subseq_take.
Qed.

Lemma subseq_drop_last l m x :
  subseq l (m ++ [x]) -> ~ In x l -> subseq l m.
Proof.
  revert l. induction m as [|y m IH]; simpl; intros l Hs Hx.
  - inversion Hs as [|? ? ? Hs'|? ? ? Hs']; subst.
    + inversion Hs'; subst. constructor.
    + exfalso. apply Hx. now left.
  - inversion Hs as [|? ? ? Hs'|? l' ? Hs']; subst.
    + apply subseq_skip. now apply IH.
    + apply subseq_take. apply IH; [assumption|].
      intros Hin. apply Hx. now right.
Qed.

Lemma firstn_S_nth (l : list A) n x :
  nth_error l n = Some x -> firstn (S n) l = firstn n l ++ [x].
Proof.
  revert l. induction n as [|n IH]; intros [|y l] H; try discriminate.
  - simpl in H. now inversion H.
  - simpl in H.
    change (firstn (S (S n)) (y :: l)) with (y :: firstn (S n) l).
    rewrite (IH l H). reflexivity.
Qed.

Lemma subseq_firstn l (m : list A) n : subseq l (firstn n m) -> subseq l m.
Proof.
  revert l n. induction m as [|y m IH]; intros l n H.
  - now rewrite firstn_nil in H.
  - destruct n as [|n]; simpl in H.
    + inversion H; subst. apply subseq_nil_l.
    + inversion H as [|? ? ? H'|? ? ? H']; subst.
      * apply subseq_skip. now apply (IH _ n).
      * apply subseq_take. now apply (IH _ n).
Qed.

End ListFacts.

Lemma In_dedup l x : In x (dedup l) <-> In x l.
Proof.
  induction l as [|y l IH]; simpl; [tauto|].
  rewrite filter_In, IH. split.
  - intros [H|[H _]]; auto.
  - intros [H|H]; auto.
    destruct (list_eq_dec N.eq_dec y x) as [E|E]; [now left|right].
    split; [assumption|].
    destruct (JS.eqb x y) eqn:Hb; [|reflexivity].
    apply eqb_eq in Hb. congruence.
Qed.

Lemma NoDup_filter {A} (p : A -> bool) l : NoDup l -> NoDup (filter p l).
Proof.
  induction 1 as [|x l Hx _ IH]; simpl; [constructor|].
  destruct (p x); [constructor|]; auto.
  rewrite filter_In. tauto.
Qed.

Lemma NoDup_dedup l : NoDup (dedup l).
Proof.
  induction l as [|x l IH]; simpl; constructor.
  - rewrite filter_In. intros [_ H]. now rewrite eqb_refl in H.
  - now apply NoDup_filter.
Qed.

Lemma filter_comm {A} (p q : A -> bool) l :
  filter p (filter q l) = filter q (filter p l).
Proof.
  induction l as [|x l IH]; simpl; [reflexivity|].
  destruct (p x) eqn:Hp, (q x) eqn:Hq; simpl; rewrite ?Hp, ?Hq, IH; reflexivity.
Qed.

Lemma filter_idem {A} (p : A -> bool) l : filter p (filter p l) = filter p l.
Proof.
  induction l as [|x l IH]; simpl; [reflexivity|].
  destruct (p x) eqn:Hp; simpl; rewrite ?Hp, IH; reflexivity.
Qed.

Lemma dedup_app_seen_filter l1 l2 x :
  filter (fun y => negb (JS.eqb y x)) (dedup (l1 ++ x :: l2))
  = filter (fun y => negb (JS.eqb y x)) (dedup (l1 ++ l2)).
Proof.
  induction l1 as [|z l1 IH]; simpl.
  - rewrite eqb_refl. simpl. apply filter_idem.
  - destruct (negb (JS.eqb z x)); [f_equal|];
      rewrite (filter_comm (fun y => negb (JS.eqb y x))
                           (fun y => negb (JS.eqb y z))), IH;
      apply filter_comm.
Qed.

Lemma dedup_app_seen l1 l2 x :
  In x l1 -> dedup (l1 ++ x :: l2) = dedup (l1 ++ l2).
Proof.
  induction l1 as [|z l1 IH]; simpl; [tauto|].
  intros [->|H].
  - f_equal. apply dedup_app_seen_filter.
  - now rewrite IH.
Qed.

Lemma dedup_NoDup l : NoDup l -> dedup l = l.
Proof.
  induction 1 as [|x l Hx _ IH]; simpl; [reflexivity|].
  rewrite IH. f_equal.
  rewrite forallb_filter_id; [reflexivity|].
  apply forallb_forall. intros y Hy.
  destruct (JS.eqb y x) eqn:E; [|reflexivity].
  apply eqb_eq in E. congruence.
Qed.

(** ** The accumulator *)

Lemma first_that_existsb {A} (p : A -> bool) xs body a :
  first_that p xs body a = if existsb p xs then body a else a.
Proof.
  induction xs as [|x xs IH]; simpl; [reflexivity|].
  destruct (p x); simpl; [reflexivity | exact IH].
Qed.

Lemma snoc_not_nil {A} (l : list A) x : l ++ [x] <> [].
Proof. destruct l; discriminate. Qed.

Section InvFacts.

Variable order : list jsstring.
Variable least : Z.
Hypothesis least_pos : (0 < least)%Z.

Lemma Inv_start : Inv order least 0 start.
Proof.
  split; simpl; [constructor | reflexivity | left; split; reflexivity].
Qed.

Lemma Inv_skip n a f :
  nth_error order n = Some f -> Inv order least n a -> Inv order least (S n) a.
Proof.
  intros Hn [Ho Hd Hs]. split; try assumption.
  rewrite (firstn_S_nth _ _ Hn). now apply subseq_app_skip.
Qed.

Lemma Inv_score_nonneg n a : Inv order least n a -> (0 <= acc_score a)%Z.
Proof. intros [_ _ [[_ ->]|[_ H]]]; lia. Qed.

(** A check that raises the next flag of the order. *)
Lemma Inv_hit n a pts rule f :
  nth_error order n = Some (js f) -> (least <= pts)%Z ->
  Inv order least n a -> Inv order least (S n) (hit pts rule f a).
Proof.
  intros Hn Hp [Ho Hd Hs].
  split; unfold hit, record, add; cbn [acc_flags acc_details acc_score].
  - rewrite (firstn_S_nth _ _ Hn). now apply subseq_app_snoc.
  - rewrite map_app, Hd. reflexivity.
  - right. split; [apply snoc_not_nil|].
    destruct Hs as [[_ ->]|[_ H]]; lia.
Qed.

Lemma Inv_hit_if n a pts rule f (c : bool) :
  nth_error order n = Some (js f) -> (least <= pts)%Z ->
  Inv order least n a ->
  Inv order least (S n) (if c then hit pts rule f a else a).
Proof.
  intros Hn Hp H. destruct c; [now apply Inv_hit | now apply Inv_skip with (js f)].
Qed.

Lemma Inv_first_that {A} n a pts rule f (p : A -> bool) xs :
  nth_error order n = Some (js f) -> (least <= pts)%Z ->
  Inv order least n a ->
  Inv order least (S n) (first_that p xs (hit pts rule f) a).
Proof.
  intros. rewrite first_that_existsb. now apply Inv_hit_if.
Qed.

(** More points for a flag that is already there. *)
Lemma Inv_add n a pts f :
  In f (acc_flags a) -> (0 <= pts)%Z ->
  Inv order least n a -> Inv order least n (add pts a).
Proof.
  intros Hf Hp [Ho Hd Hs].
  split; unfold add; cbn [acc_flags acc_details acc_score]; try assumption.
  right. destruct Hs as [[E _]|[Hne H]].
  - rewrite E in Hf. destruct Hf.
  - split; [assumption | lia].
Qed.

(** A guarded check for a flag that an earlier check may have raised. *)
Lemma Inv_hit_again n a pts rule f :
  nth_error order n = Some (js f) -> (least <= pts)%Z ->
  ~ In (js f) (acc_flags a) ->
  Inv order least (S n) a -> Inv order least (S n) (hit pts rule f a).
Proof.
  intros Hn Hp Hnew [Ho Hd Hs].
  rewrite (firstn_S_nth _ _ Hn) in Ho.
  apply subseq_drop_last in Ho; [|assumption].
  apply Inv_hit; try assumption. split; assumption.
Qed.

End InvFacts.

(** ** The invariant of the URL and phone analyzers *)

(** Turn the outermost [let] of the analysed accumulator into a local
    definition. *)
Ltac intro_let :=
  lazymatch goal with
  | |- ?P (let x := ?v in @?b x) =>
      let y := fresh x in
      change (let y := v in P (b y)); intro y; cbv beta
  end.

(** The next [let] updates the accumulator: [H] is the invariant before
    it, and [tac] proves the invariant after it. *)
Ltac acc_step H tac :=
  intro_let;
  lazymatch goal with
  | x := _ : Acc |- _ =>
      lazymatch type of H with
      | Inv ?o ?l ?n _ =>
          let H' := fresh "H" in
          assert (H' : Inv o l (S n) x) by (subst x; tac);
          clear H; rename H' into H; clearbody x
      end
  end.

Ltac by_hit H :=
  first [ apply Inv_hit_if | apply Inv_first_that ];
  [ lia | reflexivity | lia | exact H ].

Section AnalyzerInvariants.

Context {host : Host}.

Lemma Inv_tokens order least n a combined tokens :
  (0 < least)%Z -> (least <= 12)%Z ->
  nth_error order n = Some (js "suspicious_path_token") ->
  Inv order least n a ->
  Inv order least (S n)
      (fold_left
         (fun a token =>
            if includes combined token then
              let a := add 12 a in
              if negb (arr_includes (acc_flags a) (js "suspicious_path_token"))
              then record (js "suspicious_path") (js "suspicious_path_token") 12 a
              else a
            else a)
         tokens a).
Proof.
  intros Hl Hp Hn H. apply Inv_skip with (f := js "suspicious_path_token") in H;
    [|assumption].
  revert a H. induction tokens as [|t tokens IH]; intros a H; [exact H|].
  cbn [fold_left]. apply IH.
  destruct (includes combined t); [|exact H].
  cbv zeta. cbn [add acc_flags].
  destruct (arr_includes (acc_flags a) (js "suspicious_path_token")) eqn:E;
    cbn [negb].
  - apply arr_includes_In in E.
    apply Inv_add with (f := js "suspicious_path_token"); [assumption|lia|exact H].
  - apply (@Inv_hit_again order least Hl n a 12 "suspicious_path"
                          "suspicious_path_token"); try assumption.
    intros Hin. apply arr_includes_In in Hin. congruence.
Qed.

Lemma analyzeUrl_Inv url : Inv URL_FLAG_ORDER 6 12 (analyzeUrl_acc url).
Proof.
  cbv beta delta [analyzeUrl_acc].
  intro_let. assert (H : Inv URL_FLAG_ORDER 6 0 a)
    by (subst a; apply Inv_start). clearbody a.
  intro_let. intro_let. intro_let.
  acc_step H ltac:(by_hit H).
  acc_step H ltac:(by_hit H).
  acc_step H ltac:(by_hit H).
  acc_step H ltac:(by_hit H).
  acc_step H ltac:(by_hit H).
  acc_step H ltac:(by_hit H).
  acc_step H ltac:(by_hit H).
  intro_let.
  acc_step H ltac:(apply Inv_tokens; [lia | lia | reflexivity | exact H]).
  intro_let.
  acc_step H ltac:(by_hit H).
  acc_step H ltac:(by_hit H).
  acc_step H ltac:(by_hit H).
  acc_step H ltac:(
    idtac;
    match goal with
    | |- Inv _ _ _ (if ?c then _ else _) =>
        destruct c;
        [ by_hit H
        | apply Inv_skip with (f := js "weird_domain_chars");
          [reflexivity | exact H] ]
    end).
  exact H.
Qed.

Lemma analyzePhone_Inv phone : Inv PHONE_FLAG_ORDER 12 4 (analyzePhone_acc phone).
Proof.
  cbv beta delta [analyzePhone_acc].
  intro_let. assert (H : Inv PHONE_FLAG_ORDER 12 0 a)
    by (subst a; apply Inv_start). clearbody a.
  intro_let.
  acc_step H ltac:(by_hit H).
  intro_let.
  acc_step H ltac:(by_hit H).
  acc_step H ltac:(by_hit H).
  intro_let.
  acc_step H ltac:(by_hit H).
  intro_let. subst a4.
  destruct (RegExp.test _ _); [|exact H].
  destruct (arr_includes _ _) eqn:E; cbn [negb]; [exact H|].
  apply Inv_hit_again; [lia | reflexivity | lia | | exact H].
  intros Hin. apply arr_includes_In in Hin. congruence.
Qed.

(** What the two invariants say of a result. *)
Lemma analyzeUrl_flags_subseq url :
  subseq (flags (analyzeUrl url)) URL_FLAG_ORDER.
Proof.
  destruct (analyzeUrl_Inv url) as [H _ _]. now apply subseq_firstn in H.
Qed.

Lemma analyzePhone_flags_subseq phone :
  subseq (flags (analyzePhone phone)) PHONE_FLAG_ORDER.
Proof.
  destruct (analyzePhone_Inv phone) as [H _ _]. now apply subseq_firstn in H.
Qed.

Lemma URL_FLAG_ORDER_NoDup : NoDup URL_FLAG_ORDER.
Proof.
  apply nodupb_NoDup. vm_compute. reflexivity.
Qed.

Lemma PHONE_FLAG_ORDER_NoDup : NoDup PHONE_FLAG_ORDER.
Proof.
  apply nodupb_NoDup. vm_compute. reflexivity.
Qed.

Lemma analyzeUrl_flags_NoDup url : NoDup (flags (analyzeUrl url)).
Proof.
  exact (subseq_NoDup (analyzeUrl_flags_subseq url) URL_FLAG_ORDER_NoDup).
Qed.

Lemma analyzePhone_flags_NoDup phone : NoDup (flags (analyzePhone phone)).
Proof.
  exact (subseq_NoDup (analyzePhone_flags_subseq phone) PHONE_FLAG_ORDER_NoDup).
Qed.

End AnalyzerInvariants.

(** ** Merging flags *)

Lemma sum_cons x l : sum (x :: l) = (x + sum l)%Z.
Proof. reflexivity. Qed.

Lemma filter_filter {A} (p q : A -> bool) l :
  filter p (filter q l) = filter (fun x => q x && p x) l.
Proof.
  induction l as [|x l IH]; simpl; [reflexivity|].
  destruct (q x); simpl; [destruct (p x)|]; now rewrite IH.
Qed.

Lemma dedup_app l1 l2 :
  dedup (l1 ++ l2)
  = dedup l1 ++ filter (fun y => negb (arr_includes l1 y)) (dedup l2).
Proof.
  induction l1 as [|x l1 IH]; simpl.
  - symmetry. apply forallb_filter_id. apply forallb_forall. reflexivity.
  - f_equal. rewrite IH, filter_app, filter_filter. f_equal.
    apply filter_ext. intros y. unfold arr_includes. simpl.
    rewrite negb_orb. apply andb_comm.
Qed.

Lemma arr_includes_dedup l y : arr_includes (dedup l) y = arr_includes l y.
Proof.
  destruct (arr_includes l y) eqn:E.
  - apply arr_includes_In. apply In_dedup. now apply arr_includes_In.
  - destruct (arr_includes (dedup l) y) eqn:E'; [|reflexivity].
    apply (proj1 (arr_includes_In _ _)) in E'.
    apply (proj1 (In_dedup _ _)) in E'.
    apply (proj2 (arr_includes_In _ _)) in E'. congruence.
Qed.

Lemma dedup_dedup_app l c : dedup (dedup l ++ c) = dedup (l ++ c).
Proof.
  rewrite !dedup_app, (dedup_NoDup (NoDup_dedup l)). f_equal.
  apply filter_ext. intros y. now rewrite arr_includes_dedup.
Qed.

Lemma merge_flag_score a f : acc_score (merge_flag a f) = acc_score a.
Proof. unfold merge_flag. now destruct (arr_includes _ _). Qed.

Lemma merge_flag_details a f : acc_details (merge_flag a f) = acc_details a.
Proof. unfold merge_flag. now destruct (arr_includes _ _). Qed.

Lemma merge_flags_score new a :
  acc_score (fold_left merge_flag new a) = acc_score a.
Proof.
  revert a. induction new as [|f new IH]; intros a; simpl; [reflexivity|].
  now rewrite IH, merge_flag_score.
Qed.

Lemma merge_flags_details new a :
  acc_details (fold_left merge_flag new a) = acc_details a.
Proof.
  revert a. induction new as [|f new IH]; intros a; simpl; [reflexivity|].
  now rewrite IH, merge_flag_details.
Qed.

Lemma NoDup_snoc {A} (l : list A) x : NoDup l -> ~ In x l -> NoDup (l ++ [x]).
Proof.
  intros Hl Hx. apply NoDup_rev in Hl. rewrite <- (rev_involutive (l ++ [x])).
  apply NoDup_rev. rewrite rev_app_distr. simpl. constructor; [|assumption].
  now rewrite <- in_rev.
Qed.

Lemma merge_flags_flags new a :
  NoDup (acc_flags a) ->
  acc_flags (fold_left merge_flag new a) = dedup (acc_flags a ++ new).
Proof.
  revert a. induction new as [|f new IH]; intros a Hnd; simpl.
  - rewrite app_nil_r. symmetry. now apply dedup_NoDup.
  - unfold merge_flag at 2.
    destruct (arr_includes (acc_flags a) f) eqn:E.
    + apply arr_includes_In in E. rewrite IH by assumption.
      symmetry. now apply dedup_app_seen.
    + rewrite IH; cbn [acc_flags].
      * now rewrite <- app_assoc.
      * apply NoDup_snoc; [assumption|].
        intros Hin. apply arr_includes_In in Hin. congruence.
Qed.

(** ** The three loops of the message analyzer *)

Section MessageLoops.

Context {host : Host}.

Lemma apply_rule_eq textLower a entry :
  apply_rule textLower a entry
  = if rule_fires textLower entry then
      if arr_includes (acc_flags a) (rule_flag entry)
      then add (rule_weight entry) a
      else record (fst entry) (rule_flag entry) (rule_weight entry)
                  (add (rule_weight entry) a)
    else a.
Proof.
  destruct entry as [name rule].
  unfold apply_rule, rule_fires, rule_flag, rule_weight. cbn [fst snd].
  destruct (existsb _ _); [|reflexivity].
  cbv zeta. cbn [add acc_flags]. now destruct (arr_includes _ _).
Qed.

Lemma rules_loop textLower rules a :
  NoDup (acc_flags a) ->
  map Detail.flag (acc_details a) = acc_flags a ->
  let a' := fold_left (apply_rule textLower) rules a in
  let fired := filter (rule_fires textLower) rules in
  acc_score a' = (acc_score a + sum (map rule_weight fired))%Z
  /\ acc_flags a' = dedup (acc_flags a ++ map rule_flag fired)
  /\ map Detail.flag (acc_details a') = acc_flags a'.
Proof.
  revert a. induction rules as [|entry rules IH]; intros a Hnd Hd; cbv zeta.
  - cbn [fold_left filter map]. rewrite app_nil_r, dedup_NoDup by assumption.
    unfold sum. cbn [fold_right]. repeat split; [lia | assumption].
  - cbn [fold_left filter]. rewrite apply_rule_eq.
    destruct (rule_fires textLower entry); [|now apply IH].
    destruct (arr_includes (acc_flags a) (rule_flag entry)) eqn:E.
    + apply arr_includes_In in E.
      destruct (IH (add (rule_weight entry) a) Hnd Hd) as (Hs & Hf & Hdd).
      cbv zeta in Hs, Hf, Hdd. rewrite Hs, Hdd, Hf.
      cbn [add acc_score acc_flags map]. rewrite sum_cons.
      split; [lia | split; [|reflexivity]].
      symmetry. now apply dedup_app_seen.
    + assert (Hnew : ~ In (rule_flag entry) (acc_flags a)).
      { intros Hin. apply arr_includes_In in Hin. congruence. }
      set (a1 := record (fst entry) (rule_flag entry) (rule_weight entry)
                        (add (rule_weight entry) a)).
      assert (Hnd1 : NoDup (acc_flags a1)) by now apply NoDup_snoc.
      assert (Hd1 : map Detail.flag (acc_details a1) = acc_flags a1).
      { subst a1. cbn [record add acc_details acc_flags].
        now rewrite map_app, Hd. }
      destruct (IH a1 Hnd1 Hd1) as (Hs & Hf & Hdd).
      cbv zeta in Hs, Hf, Hdd. rewrite Hs, Hdd, Hf.
      subst a1.
      cbn [record add acc_score acc_flags map]. rewrite sum_cons.
      split; [lia | split; [|reflexivity]].
      now rewrite <- app_assoc.
Qed.

Lemma embedded_loop (sub : jsstring -> AnalysisResult) (d cap : Z) xs a :
  NoDup (acc_flags a) ->
  let a' :=
    fold_left
      (fun a x =>
         fold_left merge_flag (flags (sub x))
                   (add (Z.min (riskScore (sub x) / d) cap) a))
      xs a in
  acc_score a'
  = (acc_score a + sum (map (fun x => Z.min (riskScore (sub x) / d) cap) xs))%Z
  /\ acc_flags a' = dedup (acc_flags a ++ concat (map (fun x => flags (sub x)) xs))
  /\ acc_details a' = acc_details a.
Proof.
  revert a. induction xs as [|x xs IH]; intros a Hnd; cbv zeta.
  - cbn [fold_left map concat]. rewrite app_nil_r, dedup_NoDup by assumption.
    unfold sum. cbn [fold_right]. repeat split; lia.
  - cbn [fold_left map concat]. rewrite sum_cons.
    set (a1 := fold_left merge_flag (flags (sub x))
                         (add (Z.min (riskScore (sub x) / d) cap) a)).
    assert (Hf1 : acc_flags a1 = dedup (acc_flags a ++ flags (sub x))).
    { subst a1. now rewrite merge_flags_flags. }
    assert (Hnd1 : NoDup (acc_flags a1)) by (rewrite Hf1; apply NoDup_dedup).
    destruct (IH a1 Hnd1) as (Hs & Hf & Hdd). cbv zeta in Hs, Hf, Hdd.
    rewrite Hs, Hf, Hdd. subst a1.
    rewrite merge_flags_score, merge_flags_details.
    cbn [add acc_score acc_details].
    split; [lia | split; [|reflexivity]].
    now rewrite Hf1, dedup_dedup_app, <- app_assoc.
Qed.

Lemma NoDup_map_filter {A B} (f : A -> B) (p : A -> bool) l :
  NoDup (map f l) -> NoDup (map f (filter p l)).
Proof.
  induction l as [|x l IH]; simpl; intros H; [constructor|].
  inversion H as [|? ? Hx Hl]; subst.
  destruct (p x); simpl; [constructor|]; auto.
  intros Hin. apply Hx. apply in_map_iff in Hin.
  destruct Hin as (y & Hy & Hin). apply filter_In in Hin.
  apply in_map_iff. exists y. tauto.
Qed.

Lemma MESSAGE_RULES_flags_NoDup : NoDup (map rule_flag MESSAGE_RULES).
Proof. apply nodupb_NoDup. vm_compute. reflexivity. Qed.

Lemma fired_flags_NoDup textLower :
  NoDup (map rule_flag (fired_rules textLower)).
Proof. apply NoDup_map_filter, MESSAGE_RULES_flags_NoDup. Qed.

(** The score, the flags and the details of [analyzeMessage] before the
    final clamp, in closed form. *)
Lemma analyzeMessage_acc_spec text :
  let fired := fired_rules (toLowerCase text) in
  let urls := firstn 2 (extractUrls text) in
  let phones := firstn 2 (extractPhones text) in
  acc_score (analyzeMessage_acc text)
  = (sum (map rule_weight fired)
     + sum (map (fun url => Z.min (riskScore (analyzeUrl url) / 2) 30) urls)
     + sum (map (fun phone => Z.min (riskScore (analyzePhone phone) / 3) 15)
                phones))%Z
  /\ acc_flags (analyzeMessage_acc text)
     = dedup (map rule_flag fired
              ++ concat (map (fun url => flags (analyzeUrl url)) urls)
              ++ concat (map (fun phone => flags (analyzePhone phone)) phones))
  /\ map Detail.flag (acc_details (analyzeMessage_acc text))
     = map rule_flag fired.
Proof.
  cbv zeta. unfold analyzeMessage_acc. cbv zeta.
  destruct (@rules_loop (toLowerCase text) MESSAGE_RULES start)
    as (Hs1 & Hf1 & Hd1); [constructor | reflexivity |].
  cbv zeta in Hs1, Hf1, Hd1. cbn [start acc_score acc_flags app] in Hs1, Hf1.
  fold (fired_rules (toLowerCase text)) in Hs1, Hf1.
  rewrite (dedup_NoDup (fired_flags_NoDup _)) in Hf1.
  set (a1 := fold_left (apply_rule (toLowerCase text)) MESSAGE_RULES start) in *.
  assert (Hnd1 : NoDup (acc_flags a1)) by (rewrite Hf1; apply fired_flags_NoDup).
  destruct (@embedded_loop analyzeUrl 2 30 (firstn 2 (extractUrls text)) a1 Hnd1)
    as (Hs2 & Hf2 & Hd2).
  cbv zeta in Hs2, Hf2, Hd2.
  change (fun a x => fold_left merge_flag (flags (analyzeUrl x))
                       (add (Z.min (riskScore (analyzeUrl x) / 2) 30) a))
    with fold_url in Hs2, Hf2, Hd2.
  set (a2 := fold_left fold_url (firstn 2 (extractUrls text)) a1) in *.
  assert (Hnd2 : NoDup (acc_flags a2)) by (rewrite Hf2; apply NoDup_dedup).
  destruct (@embedded_loop analyzePhone 3 15 (firstn 2 (extractPhones text)) a2 Hnd2)
    as (Hs3 & Hf3 & Hd3).
  cbv zeta in Hs3, Hf3, Hd3.
  change (fun a x => fold_left merge_flag (flags (analyzePhone x))
                       (add (Z.min (riskScore (analyzePhone x) / 3) 15) a))
    with fold_phone in Hs3, Hf3, Hd3.
  rewrite Hs3, Hf3, Hd3, Hs2, Hf2, Hd2, Hd1, Hs1, Hf1.
  split; [lia | split; [|reflexivity]].
  now rewrite dedup_dedup_app, <- app_assoc.
Qed.

End MessageLoops.

(** ** Scores *)

Lemma sum_app l1 l2 : sum (l1 ++ l2) = (sum l1 + sum l2)%Z.
Proof.
  induction l1 as [|x l1 IH]; [reflexivity|].
  cbn [app]. rewrite !sum_cons, IH. lia.
Qed.

Lemma sum_nonneg l : Forall (fun x => 0 <= x)%Z l -> (0 <= sum l)%Z.
Proof.
  induction 1 as [|x l Hx _ IH]; [unfold sum; simpl; lia|].
  rewrite sum_cons. lia.
Qed.

Lemma dedup_nil l : dedup l = [] <-> l = [].
Proof. destruct l; simpl; split; congruence. Qed.

Lemma MESSAGE_RULES_weights :
  Forall (fun entry => 10 <= rule_weight entry)%Z MESSAGE_RULES.
Proof.
  apply Forall_forall. intros e He.
  assert (H : forallb (fun entry => (10 <=? rule_weight entry)%Z)
                      MESSAGE_RULES = true) by (vm_compute; reflexivity).
  rewrite forallb_forall in H. apply Z.leb_le. now apply H.
Qed.

Section Scores.

Context {host : Host}.

Lemma finish_flagged_or_zero order least n a urls phones :
  (0 < least <= 100)%Z -> Inv order least n a ->
  flagged_or_zero least (finish a urls phones).
Proof.
  intros Hl [_ _ [[Hf Hs]|[Hf Hs]]]; [left|right];
    unfold finish; cbn [flags riskScore]; split; try assumption; lia.
Qed.

Lemma analyzeUrl_cases url : flagged_or_zero 6 (analyzeUrl url).
Proof.
  apply (@finish_flagged_or_zero URL_FLAG_ORDER 6 12);
    [lia | apply analyzeUrl_Inv].
Qed.

Lemma analyzePhone_cases phone : flagged_or_zero 12 (analyzePhone phone).
Proof.
  apply (@finish_flagged_or_zero PHONE_FLAG_ORDER 12 4);
    [lia | apply analyzePhone_Inv].
Qed.

(** The damped contributions of a list of embedded entities. *)
Lemma embedded_cases (sub : jsstring -> AnalysisResult) (d cap least : Z) xs :
  (0 < d <= least)%Z -> (1 <= cap)%Z ->
  (forall x, flagged_or_zero least (sub x)) ->
  let total := sum (map (fun x => Z.min (riskScore (sub x) / d) cap) xs) in
  let found := concat (map (fun x => flags (sub x)) xs) in
  (found = [] /\ total = 0%Z) \/ (found <> [] /\ (1 <= total)%Z).
Proof.
  intros Hd Hcap Hsub. cbv zeta.
  induction xs as [|x xs IH]; cbn [map concat]; [left; split; reflexivity|].
  rewrite sum_cons.
  assert (Hrest : (0 <= sum (map (fun x => Z.min (riskScore (sub x) / d) cap) xs))%Z)
    by (destruct IH as [[_ ->]|[_ H]]; lia).
  destruct (Hsub x) as [[Hf Hs]|[Hf Hs]].
  - rewrite Hf, Hs. cbn [app]. rewrite Z.div_0_l by lia.
    rewrite Z.min_l by lia. exact IH.
  - right. split.
    + intros E. apply app_eq_nil in E. tauto.
    + assert (1 <= riskScore (sub x) / d)%Z.
      { apply Z.div_le_lower_bound; lia. }
      lia.
Qed.

Lemma analyzeMessage_cases text : flagged_or_zero 1 (analyzeMessage text).
Proof.
  destruct (analyzeMessage_acc_spec text) as (Hs & Hf & _). cbv zeta in Hs, Hf.
  unfold flagged_or_zero, analyzeMessage, finish. cbn [flags riskScore].
  rewrite Hs, Hf, dedup_nil.
  pose proof (@embedded_cases analyzeUrl 2 30 6 (firstn 2 (extractUrls text))
                ltac:(lia) ltac:(lia) analyzeUrl_cases) as Hu.
  pose proof (@embedded_cases analyzePhone 3 15 12 (firstn 2 (extractPhones text))
                ltac:(lia) ltac:(lia) analyzePhone_cases) as Hp.
  cbv zeta in Hu, Hp.
  set (urls := firstn 2 (extractUrls text)) in *.
  set (phones := firstn 2 (extractPhones text)) in *.
  set (su := sum (map _ urls)) in *. set (sp := sum (map _ phones)) in *.
  set (fu := concat (map _ urls)) in *. set (fp := concat (map _ phones)) in *.
  assert (Hw : Forall (fun entry => 10 <= rule_weight entry)%Z
                      (fired_rules (toLowerCase text))).
  { apply Forall_forall. intros e He. apply filter_In in He.
    exact (proj1 (Forall_forall _ _) MESSAGE_RULES_weights e (proj1 He)). }
  assert (Hsum : (0 <= sum (map rule_weight (fired_rules (toLowerCase text))))%Z).
  { apply sum_nonneg. apply Forall_map. eapply Forall_impl; [|exact Hw].
    cbv beta. intros; lia. }
  destruct (fired_rules (toLowerCase text)) as [|e fired] eqn:Efired.
  - cbn [map app]. change (sum []) with 0%Z.
    destruct Hu as [[Hfu Hsu]|[Hfu Hsu]], Hp as [[Hfp Hsp]|[Hfp Hsp]].
    + left. rewrite Hfu, Hfp, Hsu, Hsp. split; reflexivity.
    + right. split; [|lia]. rewrite Hfu. exact Hfp.
    + right. split; [|lia]. intros E. apply app_eq_nil in E. tauto.
    + right. split; [|lia]. intros E. apply app_eq_nil in E. tauto.
  - right. split; [discriminate|].
    cbn [map] in *. rewrite sum_cons in *.
    inversion Hw as [|? ? He Hrest]; subst.
    assert (0 <= sum (map rule_weight fired))%Z.
    { apply sum_nonneg. apply Forall_map. eapply Forall_impl; [|exact Hrest].
      cbv beta. intros; lia. }
    assert (0 <= su)%Z by (destruct Hu as [[_ ->]|[_ ?]]; lia).
    assert (0 <= sp)%Z by (destruct Hp as [[_ ->]|[_ ?]]; lia).
    lia.
Qed.

End Scores.

(** ** The dispatch of [analyze] *)

Lemma analyze_cases {host : Host} input type :
  let normalized := normalizeInput input in
  analysis (analyze input type) = analyzeUrl normalized
  \/ analysis (analyze input type) = analyzePhone normalized
  \/ analysis (analyze input type) = analyzeMessage normalized.
Proof.
  cbv zeta. unfold analyze. cbv zeta. cbn [analysis].
  destruct (JS.eqb _ (js "url")); [now left|].
  destruct (JS.eqb _ (js "phone")); [right; now left | right; now right].
Qed.

(* ================================================================== *)
(** * The claims *)
(* ================================================================== *)

(** C1. The risk level is a total function of the score: at most 30 is
    [safe], 31 to 60 is [suspicious], 61 and more is [high_risk]; the six
    boundary values map as listed; and the level of every result of the
    three analyzers and of [analyze] is [calculateRiskLevel] of that
    result's score. *)
Theorem risk_level_of_score :
  (forall score : Z,
      (calculateRiskLevel score = safe <-> (score <= 30)%Z)
      /\ (calculateRiskLevel score = suspicious <-> (31 <= score <= 60)%Z)
      /\ (calculateRiskLevel score = high_risk <-> (61 <= score)%Z))
  /\ (calculateRiskLevel 29 = safe
      /\ calculateRiskLevel 30 = safe
      /\ calculateRiskLevel 31 = suspicious
      /\ calculateRiskLevel 60 = suspicious
      /\ calculateRiskLevel 61 = high_risk
      /\ calculateRiskLevel 100 = high_risk)
  /\ (forall (host : Host) (input : jsstring) (type : option jsstring),
         riskLevel (analyzeMessage input)
         = calculateRiskLevel (riskScore (analyzeMessage input))
         /\ riskLevel (analyzeUrl input)
            = calculateRiskLevel (riskScore (analyzeUrl input))
         /\ riskLevel (analyzePhone input)
            = calculateRiskLevel (riskScore (analyzePhone input))
         /\ riskLevel (analysis (analyze input type))
            = calculateRiskLevel (riskScore (analysis (analyze input type)))).
Proof.
  split; [|split].
  - intros score. unfold calculateRiskLevel.
    destruct (Z.leb_spec score 30); [|destruct (Z.leb_spec score 60)];
      repeat split; intros; try discriminate; try lia; reflexivity.
  - repeat split.
  - intros host input type. repeat split.
    destruct (analyze_cases input type) as [E|[E|E]]; rewrite E; reflexivity.
Qed.

(** C2. The score of every result lies between 0 and 100: it is the raw
    sum, which is never negative, cut off at 100; a raw sum above 100
    does occur and gives exactly 100. *)
Theorem risk_score_bounded :
  (forall (host : Host) (input : jsstring) (type : option jsstring),
      (0 <= riskScore (analyzeMessage input) <= 100)%Z
      /\ (0 <= riskScore (analyzeUrl input) <= 100)%Z
      /\ (0 <= riskScore (analyzePhone input) <= 100)%Z
      /\ (0 <= riskScore (analysis (analyze input type)) <= 100)%Z)
  /\ (forall (host : Host) (input : jsstring),
         riskScore (analyzeMessage input)
         = Z.min (acc_score (analyzeMessage_acc input)) 100
         /\ riskScore (analyzeUrl input)
            = Z.min (acc_score (analyzeUrl_acc input)) 100
         /\ riskScore (analyzePhone input)
            = Z.min (acc_score (analyzePhone_acc input)) 100)
  /\ (let url := js "http://a.xyz/verify-confirm-login-secure-account-update-bank-payment" in
      acc_score (@analyzeUrl_acc Reference.host url) = 122%Z
      /\ riskScore (@analyzeUrl Reference.host url) = 100%Z).
Proof.
  assert (B : forall least r, (0 < least)%Z -> flagged_or_zero least r ->
                              (0 <= riskScore r <= 100)%Z).
  { intros least r Hl [[_ ->]|[_ H]]; lia. }
  split; [|split].
  - intros host input type.
    assert (Hm := fun x => B 1%Z _ ltac:(lia) (analyzeMessage_cases x)).
    assert (Hu := fun x => B 6%Z _ ltac:(lia) (analyzeUrl_cases x)).
    assert (Hp := fun x => B 12%Z _ ltac:(lia) (analyzePhone_cases x)).
    repeat split; try apply Hm; try apply Hu; try apply Hp;
      destruct (analyze_cases input type) as [E|[E|E]]; rewrite E;
      first [apply Hm | apply Hu | apply Hp].
  - intros host input. repeat split.
  - vm_compute. split; reflexivity.
Qed.

(** C10. For each analyzer the score is 0 exactly when no flag was
    raised. *)
Theorem zero_score_iff_no_flags :
  forall (host : Host) (input : jsstring),
    (riskScore (analyzeMessage input) = 0%Z <-> flags (analyzeMessage input) = [])
    /\ (riskScore (analyzeUrl input) = 0%Z <-> flags (analyzeUrl input) = [])
    /\ (riskScore (analyzePhone input) = 0%Z <-> flags (analyzePhone input) = []).
Proof.
  assert (B : forall least r, (0 < least)%Z -> flagged_or_zero least r ->
                              (riskScore r = 0%Z <-> flags r = [])).
  { intros least r Hl [[Hf Hs]|[Hf Hs]]; split; intros H;
      try assumption; try contradiction; lia. }
  intros host input. repeat split;
    first [ apply (B 1%Z _ ltac:(lia) (analyzeMessage_cases input))
          | apply (B 6%Z _ ltac:(lia) (analyzeUrl_cases input))
          | apply (B 12%Z _ ltac:(lia) (analyzePhone_cases input)) ].
Qed.

(** C9. No flag occurs twice in a result, and the flags stand in the
    order in which they were first raised: for a URL or a phone number
    this is the order of the checks; for a message it is the fired rules
    in catalog order followed by the flags of the first two embedded URLs
    and then of the first two embedded phone numbers, each flag kept at
    its first occurrence. *)
Theorem flags_unique_in_first_trigger_order :
  forall (host : Host) (input : jsstring) (type : option jsstring),
    (NoDup (flags (analyzeMessage input))
     /\ NoDup (flags (analyzeUrl input))
     /\ NoDup (flags (analyzePhone input))
     /\ NoDup (flags (analysis (analyze input type))))
    /\ subseq (flags (analyzeUrl input)) URL_FLAG_ORDER
    /\ subseq (flags (analyzePhone input)) PHONE_FLAG_ORDER
    /\ flags (analyzeMessage input)
       = dedup (map rule_flag (fired_rules (toLowerCase input))
                ++ concat (map (fun url => flags (analyzeUrl url))
                               (firstn 2 (extractUrls input)))
                ++ concat (map (fun phone => flags (analyzePhone phone))
                               (firstn 2 (extractPhones input)))).
Proof.
  intros host input type.
  assert (Hm : forall x, NoDup (flags (analyzeMessage x))).
  { intros x. destruct (analyzeMessage_acc_spec x) as (_ & Hf & _).
    cbv zeta in Hf. unfold analyzeMessage, finish. cbn [flags].
    rewrite Hf. apply NoDup_dedup. }
  repeat split.
  - apply Hm.
  - apply analyzeUrl_flags_NoDup.
  - apply analyzePhone_flags_NoDup.
  - destruct (analyze_cases input type) as [E|[E|E]]; rewrite E;
      [apply analyzeUrl_flags_NoDup | apply analyzePhone_flags_NoDup | apply Hm].
  - apply analyzeUrl_flags_subseq.
  - apply analyzePhone_flags_subseq.
  - exact (proj1 (proj2 (analyzeMessage_acc_spec input))).
Qed.

(** C3, as the code has it.  For a URL and for a phone number the details
    and the flags are parallel, entry by entry.  For a message the details
    are parallel to the flags of the fired rules, which open the list of
    flags; the flags merged from embedded URLs and phone numbers follow
    them and have no entry in the details.  The details never name a flag
    twice. *)
Theorem details_parallel_to_own_flags :
  forall (host : Host) (input : jsstring),
    (map Detail.flag (details (analyzeUrl input)) = flags (analyzeUrl input)
     /\ length (details (analyzeUrl input)) = length (flags (analyzeUrl input)))
    /\ (map Detail.flag (details (analyzePhone input)) = flags (analyzePhone input)
        /\ length (details (analyzePhone input))
           = length (flags (analyzePhone input)))
    /\ (map Detail.flag (details (analyzeMessage input))
        = map rule_flag (fired_rules (toLowerCase input))
        /\ (exists merged,
               flags (analyzeMessage input)
               = map Detail.flag (details (analyzeMessage input)) ++ merged)
        /\ length (details (analyzeMessage input))
           <= length (flags (analyzeMessage input)))
    /\ NoDup (map Detail.flag (details (analyzeUrl input)))
    /\ NoDup (map Detail.flag (details (analyzePhone input)))
    /\ NoDup (map Detail.flag (details (analyzeMessage input))).
Proof.
  intros host input.
  assert (Hu : map Detail.flag (details (analyzeUrl input))
               = flags (analyzeUrl input))
    by (destruct (analyzeUrl_Inv input) as [_ H _]; exact H).
  assert (Hp : map Detail.flag (details (analyzePhone input))
               = flags (analyzePhone input))
    by (destruct (analyzePhone_Inv input) as [_ H _]; exact H).
  destruct (analyzeMessage_acc_spec input) as (_ & Hf & Hd).
  cbv zeta in Hf, Hd.
  assert (Hm : exists merged,
             flags (analyzeMessage input)
             = map Detail.flag (details (analyzeMessage input)) ++ merged).
  { unfold analyzeMessage, finish. cbn [flags details].
    rewrite Hf, Hd, dedup_app, (dedup_NoDup (fired_flags_NoDup _)).
    eexists. reflexivity. }
  repeat split.
  - exact Hu.
  - rewrite <- Hu. now rewrite length_map.
  - exact Hp.
  - rewrite <- Hp. now rewrite length_map.
  - exact Hd.
  - exact Hm.
  - destruct Hm as [merged ->]. rewrite length_app, length_map. lia.
  - rewrite Hu. apply analyzeUrl_flags_NoDup.
  - rewrite Hp. apply analyzePhone_flags_NoDup.
  - unfold analyzeMessage, finish. cbn [details]. rewrite Hd.
    apply fired_flags_NoDup.
Qed.

(** C3 as stated fails: a message with an embedded link has more flags
    than details. *)
Lemma details_shorter_than_flags :
  let text := js "Your account will be suspended. Verify now: http://secure-bank-verify.xyz/login" in
  let result := @analyzeMessage Reference.host text in
  length (details result) = 2
  /\ length (flags result) = 5
  /\ length (details result) <> length (flags result)
  /\ analysis (@analyze Reference.host text (Some (js "message"))) = result.
Proof. vm_compute. repeat split; discriminate. Qed.

(** C4. A message's raw score is the weights of the fired rules, plus
    [min (floor (score / 2), 30)] for each of the first two extracted URLs,
    plus [min (floor (score / 3), 15)] for each of the first two extracted
    phone numbers; its flags are those of the rules and of these
    sub-results, without repetition; and [embeddedUrls] and
    [embeddedPhones] are the whole extracted lists, as for a text with
    three links of which only two are scored. *)
Theorem embedded_entities_folded :
  (forall (host : Host) (text : jsstring),
      let urls := extractUrls text in
      let phones := extractPhones text in
      acc_score (analyzeMessage_acc text)
      = (sum (map rule_weight (fired_rules (toLowerCase text)))
         + sum (map (fun url => Z.min (riskScore (analyzeUrl url) / 2) 30)
                    (firstn 2 urls))
         + sum (map (fun phone => Z.min (riskScore (analyzePhone phone) / 3) 15)
                    (firstn 2 phones)))%Z
      /\ riskScore (analyzeMessage text)
         = Z.min (acc_score (analyzeMessage_acc text)) 100
      /\ flags (analyzeMessage text)
         = dedup (map rule_flag (fired_rules (toLowerCase text))
                  ++ concat (map (fun url => flags (analyzeUrl url))
                                 (firstn 2 urls))
                  ++ concat (map (fun phone => flags (analyzePhone phone))
                                 (firstn 2 phones)))
      /\ embeddedUrls (analyzeMessage text) = Some urls
      /\ embeddedPhones (analyzeMessage text) = Some phones)
  /\ (let text := js "see a.com b.com http://1.2.3.4/x" in
      let result := @analyzeMessage Reference.host text in
      embeddedUrls result = Some [js "a.com"; js "b.com"; js "http://1.2.3.4/x"]
      /\ flags (@analyzeUrl Reference.host (js "http://1.2.3.4/x"))
         = [js "ip_based_url"; js "no_https"]
      /\ flags result = [js "contains_link"]
      /\ riskScore result = 12%Z).
Proof.
  split.
  - intros host text. cbv zeta.
    destruct (analyzeMessage_acc_spec text) as (Hs & Hf & _).
    cbv zeta in Hs, Hf. repeat split; assumption.
  - vm_compute. repeat split.
Qed.

(** C8, as the code has it.  A type that is none of [message], [url],
    [phone], [auto] raises no error: [analyze] runs the message analyzer on
    the input and returns the given type as [inputType], and the request
    handler answers with that result whenever the input is not blank. *)
Theorem unknown_type_analyzed_as_message :
  forall (host : Host)
         (getGeminiExplanation : FullAnalysisResult -> jsstring -> option jsstring)
         (input type : jsstring),
    type <> [] -> type <> js "auto" -> type <> js "url" ->
    type <> js "phone" -> type <> js "message" ->
    inputType (analyze input (Some type)) = type
    /\ analysis (analyze input (Some type))
       = analyzeMessage (normalizeInput input)
    /\ (trim input <> [] ->
        exists explanation,
          POST getGeminiExplanation (MkBody (Some input) (Some type))
          = SuccessResponse (analyze (trim input) (Some type)) explanation).
Proof.
  intros host gemini input type Hne Hauto Hurl Hphone _.
  assert (Eb : forall s, type <> s -> JS.eqb type s = false).
  { intros s Hs. destruct (JS.eqb type s) eqn:E; [|reflexivity].
    apply eqb_eq in E. contradiction. }
  assert (Ea : (JS.eqb type (js "auto") || Nat.eqb (length type) 0) = false).
  { rewrite (Eb _ Hauto). destruct type; [contradiction | reflexivity]. }
  assert (Ei : forall s, inputType (analyze s (Some type)) = type).
  { intros s. unfold analyze. cbv zeta. cbn [inputType]. now rewrite Ea. }
  repeat split.
  - apply Ei.
  - unfold analyze. cbv zeta. cbn [analysis].
    rewrite Ea, (Eb _ Hurl), (Eb _ Hphone). reflexivity.
  - intros Htrim. unfold POST. cbn [body_input body_type].
    destruct input as [|x xs]; [now elim Htrim|].
    cbv zeta.
    destruct (trim (x :: xs)) as [|y ys] eqn:Et; [now elim Htrim|].
    cbn [length Nat.eqb].
    replace (or_else (Some type) (js "auto")) with type
      by (destruct type; [contradiction | reflexivity]).
    eexists. reflexivity.
Qed.

Lemma unknown_type_analyzed_as_message_witness :
  inputType (@analyze Reference.host (js "Hello, how are you?") (Some (js "email")))
  = js "email".
Proof.
  apply (@unknown_type_analyzed_as_message Reference.host (fun _ _ => None)
           (js "Hello, how are you?") (js "email"));
    vm_compute; discriminate.
Defined.

(** C8 as stated fails: a request of type [email] is answered with an
    analysis, not with an error. *)
Lemma unknown_type_not_rejected :
  let body := MkBody (Some (js "Hello, how are you?")) (Some (js "email")) in
  exists result explanation,
    @POST Reference.host (fun _ _ => None) body
    = SuccessResponse result explanation
    /\ inputType result = js "email"
    /\ analysis result
       = @analyzeMessage Reference.host (js "Hello, how are you?")
    /\ forall error status,
        @POST Reference.host (fun _ _ => None) body
        <> ErrorResponse error status.
Proof.
  cbv zeta. eexists. eexists. split; [vm_compute; reflexivity|].
  split; [vm_compute; reflexivity|].
  split; [vm_compute; reflexivity|].
  intros error status. vm_compute. discriminate.
Qed.

(* ================================================================== *)
(** * The matcher finds what the pattern matches *)
(* ================================================================== *)

Section Matcher.

Variable icase : bool.

Lemma eat_string_length w st st' :
  RegExp.eat_string icase w st = Some st' ->
  length (RegExp.rest st') <= length (RegExp.rest st).
Proof.
  revert st. induction w as [|c w IH]; intros st H; simpl in H.
  - inversion H. subst. lia.
  - destruct (RegExp.rest st) as [|x xs] eqn:E; [discriminate|].
    destruct (RegExp.same_char icase c x); [|discriminate].
    apply IH in H. cbn [RegExp.step RegExp.rest] in H. simpl. lia.
Qed.

Lemma Iter_length (R : RegExp.mstate -> RegExp.mstate -> Prop) lo hi :
  (forall st st', R st st' ->
                  length (RegExp.rest st') <= length (RegExp.rest st)) ->
  forall count st st',
    Iter R lo hi count st st' ->
    length (RegExp.rest st') <= length (RegExp.rest st).
Proof.
  intros HR count st st' H.
  induction H as [|count st st1 st' _ H1 _ _ IH]; [lia|].
  apply HR in H1. lia.
Qed.

Lemma Matches_length r :
  forall st st', Matches icase r st st' ->
                 length (RegExp.rest st') <= length (RegExp.rest st).
Proof.
  induction r as [ | c | | neg items | r1 IH1 r2 IH2 | r1 IH1 r2 IH2
                 | lo hi r1 IH1 | n r1 IH1 | n | | | ];
    intros st st' H; cbn [Matches] in H.
  - subst. lia.
  - destruct H as (x & xs & E & _ & ->). rewrite E. simpl. lia.
  - destruct H as (x & xs & E & _ & ->). rewrite E. simpl. lia.
  - destruct H as (x & xs & E & _ & ->). rewrite E. simpl. lia.
  - destruct H as (st1 & H1 & H2). apply IH1 in H1. apply IH2 in H2. lia.
  - destruct H as [H|H]; [now apply IH1 | now apply IH2].
  - now apply (Iter_length IH1) in H.
  - destruct H as (st1 & H1 & ->). apply IH1 in H1. exact H1.
  - destruct (RegExp.get_cap n (RegExp.caps st)) as [w|].
    + now apply eat_string_length in H.
    + subst. lia.
  - destruct H as [_ ->]. lia.
  - destruct H as [_ ->]. lia.
  - destruct H as [_ ->]. lia.
Qed.

Lemma eat_spec (p : N -> bool) st k :
  RegExp.eat p st k <> None
  <-> exists st',
      (exists x xs, RegExp.rest st = x :: xs /\ p x = true
                    /\ st' = RegExp.step st x xs)
      /\ k st' <> None.
Proof.
  unfold RegExp.eat. split.
  - destruct (RegExp.rest st) as [|x xs]; [congruence|].
    destruct (p x) eqn:E; [|congruence].
    intros H. exists (RegExp.step st x xs). split; [|exact H].
    exists x, xs. auto.
  - intros (st' & (x & xs & E & Hp & ->) & Hk). now rewrite E, Hp.
Qed.

(** The loop of a quantifier, for a body that the matcher handles
    correctly. *)
Lemma rep_loop_spec body (R : RegExp.mstate -> RegExp.mstate -> Prop)
      lo hi k :
  (forall st k', body st k' <> None
                 <-> exists st', R st st' /\ k' st' <> None) ->
  (forall st st', R st st' ->
                  length (RegExp.rest st') <= length (RegExp.rest st)) ->
  forall fuel count st,
    (lo - count) + length (RegExp.rest st) <= fuel ->
    (RegExp.rep_loop body lo hi k fuel count st <> None
     <-> exists st', Iter R lo hi count st st' /\ k st' <> None).
Proof.
  intros Hbody Hlen.
  induction fuel as [|fuel IH]; intros count st Hfuel.
  - cbn [RegExp.rep_loop]. split.
    + destruct (Nat.leb lo count) eqn:E; [|congruence].
      intros H. exists st. split; [|exact H].
      apply Iter_stop. now apply Nat.leb_le.
    + intros (st' & Hi & Hk).
      inversion Hi as [? ? Hlo|? ? st1 ? _ HR Hprog _]; subst.
      * apply Nat.leb_le in Hlo. now rewrite Hlo.
      * exfalso. apply Hprog. apply Hlen in HR. lia.
  - cbn [RegExp.rep_loop].
    set (allowed := match hi with
                    | Some h => Nat.ltb count h
                    | None => true
                    end).
    set (k' := fun st' =>
                 if Nat.leb lo count
                    && Nat.eqb (length (RegExp.rest st'))
                               (length (RegExp.rest st))
                 then None
                 else RegExp.rep_loop body lo hi k fuel (S count) st').
    assert (Hallowed : allowed = true
                       <-> match hi with
                           | Some h => count < h
                           | None => True
                           end).
    { subst allowed. destruct hi; [apply Nat.ltb_lt | tauto]. }
    assert (Hk' : forall st1,
               R st st1 ->
               (k' st1 <> None
                <-> ~ (lo <= count
                       /\ length (RegExp.rest st1) = length (RegExp.rest st))
                    /\ exists st', Iter R lo hi (S count) st1 st'
                                   /\ k st' <> None)).
    { intros st1 HR. subst k'. cbv beta.
      destruct (Nat.leb lo count
                && Nat.eqb (length (RegExp.rest st1))
                           (length (RegExp.rest st))) eqn:E.
      - apply andb_prop in E. destruct E as [E1 E2].
        apply Nat.leb_le in E1. apply Nat.eqb_eq in E2.
        split; [congruence | tauto].
      - assert (Hn : ~ (lo <= count
                        /\ length (RegExp.rest st1)
                           = length (RegExp.rest st))).
        { intros [H1 H2]. apply Nat.leb_le in H1. apply Nat.eqb_eq in H2.
          rewrite H1, H2 in E. discriminate. }
        rewrite IH; [tauto|].
        apply Hlen in HR.
        destruct (Nat.le_gt_cases lo count); [|lia].
        assert (length (RegExp.rest st1) <> length (RegExp.rest st)) by tauto.
        lia. }
    split.
    + intros H.
      destruct (if allowed then body st k' else None) as [res|] eqn:Emore.
      * destruct allowed eqn:Ea; [|discriminate].
        assert (Hb : body st k' <> None) by congruence.
        apply Hbody in Hb. destruct Hb as (st1 & HR & Hk1).
        apply (Hk' st1 HR) in Hk1. destruct Hk1 as (Hprog & st' & Hi & Hk).
        exists st'. split; [|exact Hk].
        apply Iter_more with st1; try assumption. now apply Hallowed.
      * destruct (Nat.leb lo count) eqn:E; [|congruence].
        exists st. split; [|exact H].
        apply Iter_stop. now apply Nat.leb_le.
    + intros (st' & Hi & Hk).
      inversion Hi as [? ? Hlo|? ? st1 ? Hal HR Hprog Hi']; subst.
      * apply Nat.leb_le in Hlo. rewrite Hlo.
        destruct (if allowed then _ else None); congruence.
      * apply Hallowed in Hal. rewrite Hal.
        assert (Hb : body st k' <> None).
        { apply Hbody. exists st1. split; [assumption|].
          apply (Hk' st1 HR). split; [assumption|]. now exists st'. }
        destruct (body st k'); congruence.
Qed.

(** The matcher succeeds exactly when the pattern matches up to a state
    at which the continuation succeeds. *)
Theorem run_spec r :
  forall st k,
    RegExp.run icase r st k <> None
    <-> exists st', Matches icase r st st' /\ k st' <> None.
Proof.
  induction r as [ | c | | neg items | r1 IH1 r2 IH2 | r1 IH1 r2 IH2
                 | lo hi r1 IH1 | n r1 IH1 | n | | | ];
    intros st k; cbn [RegExp.run Matches].
  - split; [intros H; now exists st | now intros (st' & -> & H)].
  - apply eat_spec.
  - rewrite eat_spec. split; intros (st' & (x & xs & E & Hp & ->) & Hk);
      exists (RegExp.step st x xs); (split; [|exact Hk]); exists x, xs;
      repeat split; try assumption.
    + now apply negb_true_iff.
    + now apply negb_true_iff.
  - apply eat_spec.
  - rewrite IH1. split.
    + intros (st1 & H1 & H2). apply IH2 in H2.
      destruct H2 as (st' & H2 & Hk). exists st'. split; [|exact Hk].
      now exists st1.
    + intros (st' & (st1 & H1 & H2) & Hk). exists st1. split; [exact H1|].
      apply IH2. now exists st'.
  - split.
    + intros H. destruct (RegExp.run icase r1 st k) eqn:E.
      * assert (H1 : RegExp.run icase r1 st k <> None) by congruence.
        apply IH1 in H1. destruct H1 as (st' & H1 & Hk).
        exists st'. tauto.
      * apply IH2 in H. destruct H as (st' & H2 & Hk). exists st'. tauto.
    + intros (st' & [H1|H2] & Hk).
      * assert (H : RegExp.run icase r1 st k <> None)
          by (apply IH1; now exists st').
        destruct (RegExp.run icase r1 st k); congruence.
      * destruct (RegExp.run icase r1 st k); [congruence|].
        apply IH2. now exists st'.
  - apply rep_loop_spec; [exact IH1 | apply Matches_length | lia].
  - rewrite IH1. split.
    + intros (st1 & H1 & Hk). eexists. split; [|exact Hk].
      exists st1. split; [exact H1 | reflexivity].
    + intros (st' & (st1 & H1 & ->) & Hk). exists st1. split; assumption.
  - destruct (RegExp.get_cap n (RegExp.caps st)) as [w|].
    + split.
      * destruct (RegExp.eat_string icase w st) as [st1|]; [|congruence].
        intros H. now exists st1.
      * intros (st' & -> & Hk). exact Hk.
    + split; [intros H; now exists st | now intros (st' & -> & H)].
  - destruct (xorb _ _); split.
    + intros H. exists st. tauto.
    + now intros (st' & [_ ->] & H).
    + congruence.
    + intros (st' & [E _] & _). discriminate.
  - destruct (RegExp.prev st); split.
    + congruence.
    + intros (st' & [E _] & _). discriminate.
    + intros H. exists st. tauto.
    + now intros (st' & [_ ->] & H).
  - destruct (RegExp.rest st); split.
    + intros H. exists st. tauto.
    + now intros (st' & [_ ->] & H).
    + congruence.
    + intros (st' & [E _] & _). discriminate.
Qed.

End Matcher.

(** ** Searching *)

Lemma unit_before_cons before x pre :
  unit_before before (x :: pre) = unit_before (Some x) pre.
Proof.
  unfold unit_before. cbn [rev].
  destruct (rev pre) as [|y l]; reflexivity.
Qed.

Lemma unit_before_app before pre w :
  unit_before before (pre ++ w) = unit_before (unit_before before pre) w.
Proof.
  revert before. induction pre as [|x pre IH]; intros before; [reflexivity|].
  cbn [app]. now rewrite !unit_before_cons, IH.
Qed.

Lemma match_here_spec icase r before s :
  RegExp.match_here icase r before s <> None
  <-> exists st', Matches icase r (RegExp.MState before s []) st'.
Proof.
  unfold RegExp.match_here. rewrite run_spec. split.
  - intros (st' & H & _). now exists st'.
  - intros (st' & H). exists st'. split; [exact H | discriminate].
Qed.

Lemma search_spec icase r s :
  forall before,
    RegExp.search icase r before s <> None
    <-> exists pre post st',
        s = pre ++ post
        /\ Matches icase r
                   (RegExp.MState (unit_before before pre) post []) st'.
Proof.
  induction s as [|x s IH]; intros before; cbn [RegExp.search].
  - destruct (RegExp.match_here icase r before []) eqn:E.
    + split; [intros _ | discriminate].
      assert (H : RegExp.match_here icase r before [] <> None) by congruence.
      apply match_here_spec in H. destruct H as (st' & H).
      now exists [], [], st'.
    + split; [congruence|].
      intros (pre & post & st' & Hs & H).
      symmetry in Hs. apply app_eq_nil in Hs. destruct Hs as [-> ->].
      assert (H' : RegExp.match_here icase r before [] <> None)
        by (apply match_here_spec; now exists st').
      congruence.
  - destruct (RegExp.match_here icase r before (x :: s)) eqn:E.
    + split; [intros _ | discriminate].
      assert (H : RegExp.match_here icase r before (x :: s) <> None)
        by congruence.
      apply match_here_spec in H. destruct H as (st' & H).
      now exists [], (x :: s), st'.
    + split.
      * intros H.
        assert (H' : RegExp.search icase r (Some x) s <> None).
        { destruct (RegExp.search icase r (Some x) s) as [[[? ?] ?]|];
            congruence. }
        apply IH in H'. destruct H' as (pre & post & st' & -> & H').
        exists (x :: pre), post, st'. split; [reflexivity|].
        now rewrite unit_before_cons.
      * intros (pre & post & st' & Hs & H).
        destruct pre as [|y pre].
        -- cbn [app] in Hs. subst post.
           assert (H' : RegExp.match_here icase r before (x :: s) <> None)
             by (apply match_here_spec; now exists st').
           congruence.
        -- cbn [app] in Hs. inversion Hs; subst y s.
           rewrite unit_before_cons in H.
           assert (H' : RegExp.search icase r (Some x) (pre ++ post) <> None)
             by (apply IH; now exists pre, post, st').
           destruct (RegExp.search icase r (Some x) (pre ++ post))
             as [[[? ?] ?]|]; congruence.
Qed.

Lemma test_spec re s :
  RegExp.test re s = true
  <-> exists pre post st',
      s = pre ++ post
      /\ Matches (RegExp.ignoreCase re) (RegExp.compiled re)
                 (RegExp.MState (unit_before None pre) post []) st'.
Proof.
  rewrite <- search_spec. unfold RegExp.test.
  destruct (RegExp.search _ _ None s); split; congruence.
Qed.

(** ** Plain patterns and their words *)

Section Plain.

Variable icase : bool.

Lemma Matches_unit r p :
  unit_of icase r = Some p ->
  forall st st',
    Matches icase r st st'
    <-> exists x xs, RegExp.rest st = x :: xs /\ p x = true
                     /\ st' = RegExp.step st x xs.
Proof.
  destruct r; cbn [unit_of]; intros E; inversion E; subst; intros st st';
    cbn [Matches]; try reflexivity.
  split; intros (x & xs & H1 & H2 & H3); exists x, xs; repeat split;
    try assumption; now apply negb_true_iff.
Qed.

Lemma Iter_unit (R : RegExp.mstate -> RegExp.mstate -> Prop) p lo hi :
  (forall st st',
      R st st' <-> exists x xs, RegExp.rest st = x :: xs /\ p x = true
                                /\ st' = RegExp.step st x xs) ->
  forall count st st',
    Iter R lo hi count st st'
    <-> exists w,
        forallb p w = true
        /\ RegExp.rest st = w ++ RegExp.rest st'
        /\ RegExp.prev st' = unit_before (RegExp.prev st) w
        /\ RegExp.caps st' = RegExp.caps st
        /\ lo <= count + length w
        /\ (w = [] \/ match hi with
                      | Some h => count + length w <= h
                      | None => True
                      end).
Proof.
  intros HR count st st'. split.
  - induction 1 as [count st Hlo|count st st1 st' Hal H1 _ _ IH].
    + exists []. cbn. repeat split; auto. lia.
    + apply HR in H1. destruct H1 as (x & xs & E & Hp & ->).
      destruct IH as (w & Hw & Hrest & Hprev & Hcaps & Hlo & Hhi).
      cbn [RegExp.step RegExp.rest RegExp.prev RegExp.caps] in *.
      exists (x :: w). rewrite unit_before_cons. cbn [forallb length app].
      rewrite Hp, Hw, E, Hrest. repeat split; auto; try lia.
      right. destruct hi as [h|]; [|exact I].
      destruct Hhi as [->|Hhi]; cbn [length]; lia.
  - intros (w & Hw & Hrest & Hprev & Hcaps & Hlo & Hhi).
    revert count st Hw Hrest Hprev Hcaps Hlo Hhi.
    induction w as [|x w IH]; intros count st Hw Hrest Hprev Hcaps Hlo Hhi.
    + cbn in Hrest, Hprev, Hlo.
      assert (st = st') as ->.
      { destruct st, st'. cbn in *. congruence. }
      apply Iter_stop. lia.
    + cbn [forallb] in Hw. apply andb_prop in Hw. destruct Hw as [Hp Hw].
      cbn [app] in Hrest. rewrite unit_before_cons in Hprev.
      apply Iter_more with (RegExp.step st x (w ++ RegExp.rest st')).
      * destruct Hhi as [Hhi|Hhi]; [discriminate|].
        destruct hi as [h|]; [cbn [length] in Hhi; lia | exact I].
      * apply HR. exists x, (w ++ RegExp.rest st'). auto.
      * cbn [RegExp.step RegExp.rest]. rewrite Hrest. cbn [length]. lia.
      * apply IH; cbn [RegExp.step RegExp.rest RegExp.prev RegExp.caps];
          auto.
        -- cbn [length] in Hlo. lia.
        -- destruct Hhi as [Hhi|Hhi]; [discriminate|]. right.
           destruct hi as [h|]; [cbn [length] in Hhi; lia | exact I].
Qed.

(** A plain pattern takes the matcher over exactly its words. *)
Theorem Matches_plain r :
  plain r = true ->
  forall st st',
    Matches icase r st st'
    <-> exists w,
        Lang icase r w
        /\ RegExp.rest st = w ++ RegExp.rest st'
        /\ RegExp.prev st' = unit_before (RegExp.prev st) w
        /\ RegExp.caps st' = RegExp.caps st.
Proof.
  assert (Hunit : forall r p,
             unit_of icase r = Some p ->
             forall st st',
               Matches icase r st st'
               <-> exists w,
                   (exists x, w = [x] /\ p x = true)
                   /\ RegExp.rest st = w ++ RegExp.rest st'
                   /\ RegExp.prev st' = unit_before (RegExp.prev st) w
                   /\ RegExp.caps st' = RegExp.caps st).
  { intros r0 p E st st'. rewrite (Matches_unit _ E). split.
    - intros (x & xs & Hr & Hp & ->). exists [x]. repeat split; eauto.
    - intros (w & (x & -> & Hp) & Hr & Hprev & Hcaps).
      exists x, (RegExp.rest st'). repeat split; auto.
      destruct st, st'. cbn in *. subst. reflexivity. }
  induction r as [ | c | | neg items | r1 IH1 r2 IH2 | r1 IH1 r2 IH2
                 | lo hi r1 IH1 | n r1 IH1 | n | | | ];
    cbn [plain]; intros Hp st st'; try discriminate.
  - cbn [Matches Lang]. split.
    + intros ->. exists []. auto.
    + intros (w & -> & Hr & Hprev & Hcaps).
      destruct st, st'. cbn in *. congruence.
  - now apply Hunit.
  - now apply Hunit.
  - now apply Hunit.
  - apply andb_prop in Hp. destruct Hp as [Hp1 Hp2].
    cbn [Matches Lang]. split.
    + intros (st1 & H1 & H2).
      apply (IH1 Hp1) in H1. apply (IH2 Hp2) in H2.
      destruct H1 as (w1 & L1 & R1 & P1 & C1).
      destruct H2 as (w2 & L2 & R2 & P2 & C2).
      exists (w1 ++ w2). repeat split.
      * now exists w1, w2.
      * now rewrite R1, R2, app_assoc.
      * now rewrite P2, P1, unit_before_app.
      * congruence.
    + intros (w & (w1 & w2 & -> & L1 & L2) & Hr & Hprev & Hcaps).
      exists (RegExp.MState (unit_before (RegExp.prev st) w1)
                            (w2 ++ RegExp.rest st') (RegExp.caps st)).
      split.
      * apply (IH1 Hp1). exists w1. cbn. repeat split; auto.
        now rewrite Hr, app_assoc.
      * apply (IH2 Hp2). exists w2. cbn. repeat split; auto.
        now rewrite Hprev, unit_before_app.
  - apply andb_prop in Hp. destruct Hp as [Hp1 Hp2].
    cbn [Matches Lang]. rewrite (IH1 Hp1), (IH2 Hp2). split.
    + intros [(w & L & H)|(w & L & H)]; exists w; tauto.
    + intros (w & [L|L] & H); [left|right]; exists w; tauto.
  - cbn [Matches Lang].
    assert (exists p, unit_of icase r1 = Some p) as [p Ep]
      by (destruct r1; try discriminate; cbn; eauto).
    rewrite Ep, (@Iter_unit (Matches icase r1) p lo hi (Matches_unit _ Ep)).
    split.
    + intros (w & Hw & Hr & Hprev & Hcaps & Hlo & Hhi).
      exists w. repeat split; auto.
      destruct hi as [h|]; [|exact I].
      destruct Hhi as [->|Hhi]; cbn [length] in *; lia.
    + intros (w & (Hlo & Hhi & Hw) & Hr & Hprev & Hcaps).
      exists w. repeat split; auto.
Qed.

End Plain.

(** A plain pattern is found in a text exactly when the text contains one
    of its words. *)
Lemma test_plain re s :
  plain (RegExp.compiled re) = true ->
  (RegExp.test re s = true
   <-> exists pre w post,
       s = pre ++ w ++ post
       /\ Lang (RegExp.ignoreCase re) (RegExp.compiled re) w).
Proof.
  intros Hp. rewrite test_spec. split.
  - intros (pre & post & st' & -> & H).
    apply (Matches_plain _ _ Hp) in H. destruct H as (w & L & Hr & _ & _).
    cbn [RegExp.rest] in Hr. exists pre, w, (RegExp.rest st').
    rewrite Hr. auto.
  - intros (pre & w & post & -> & L).
    exists pre, (w ++ post),
      (RegExp.MState (unit_before (unit_before None pre) w) post []).
    split; [reflexivity|].
    apply (Matches_plain _ _ Hp). exists w. cbn. auto.
Qed.

(** ** The patterns of the URL and phone checks *)

Lemma forallb_eq {A} (p q : A -> bool) l :
  (forall x, p x = q x) -> forallb p l = forallb q l.
Proof.
  intros H. induction l as [|x l IH]; simpl; [reflexivity|].
  now rewrite H, IH.
Qed.

Lemma Lang_seq r1 r2 w :
  Lang false (RegExp.Seq r1 r2) w
  <-> exists w1 w2, w = w1 ++ w2 /\ Lang false r1 w1 /\ Lang false r2 w2.
Proof. reflexivity. Qed.

Lemma Lang_char c w : Lang false (RegExp.Char c) w <-> w = [c].
Proof.
  cbn [Lang unit_of]. split.
  - intros (x & -> & H). apply N.eqb_eq in H. now subst.
  - intros ->. exists c. split; [reflexivity | apply N.eqb_refl].
Qed.

Lemma Lang_seq_char c r w :
  Lang false (RegExp.Seq (RegExp.Char c) r) w
  <-> exists w', w = c :: w' /\ Lang false r w'.
Proof.
  rewrite Lang_seq. split.
  - intros (w1 & w2 & -> & L1 & L2). apply Lang_char in L1. subst.
    now exists w2.
  - intros (w' & -> & L). exists [c], w'. repeat split; [|exact L].
    now apply Lang_char.
Qed.

Lemma digit_class x :
  RegExp.class_matches false false [RegExp.CDigit] x = is_digit x.
Proof.
  unfold RegExp.class_matches. cbn. now rewrite orb_false_r.
Qed.

Lemma Lang_digits w :
  Lang false (RegExp.Rep 1 (Some 3) (RegExp.Class false [RegExp.CDigit])) w
  <-> digit_group w.
Proof.
  cbn [Lang unit_of]. unfold digit_group.
  rewrite (forallb_eq _ _ w digit_class). tauto.
Qed.

Lemma Lang_seq_digits r w :
  Lang false
       (RegExp.Seq
          (RegExp.Rep 1 (Some 3) (RegExp.Class false [RegExp.CDigit])) r) w
  <-> exists a w', w = a ++ w' /\ digit_group a /\ Lang false r w'.
Proof.
  rewrite Lang_seq. split.
  - intros (a & w' & -> & L1 & L2). apply Lang_digits in L1. now exists a, w'.
  - intros (a & w' & -> & L1 & L2). exists a, w'.
    split; [reflexivity|]. split; [now apply Lang_digits | exact L2].
Qed.

Lemma Lang_seq_optional c r w :
  Lang false (RegExp.Seq (RegExp.Rep 0 (Some 1) (RegExp.Char c)) r) w
  <-> Lang false r w \/ exists w', w = c :: w' /\ Lang false r w'.
Proof.
  rewrite Lang_seq. cbn [Lang unit_of]. split.
  - intros (w1 & w2 & -> & (_ & Hlen & Hc) & L).
    destruct w1 as [|x [|y w1]]; cbn [length] in Hlen; try lia.
    + now left.
    + right. cbn in Hc. rewrite andb_true_r in Hc. apply N.eqb_eq in Hc.
      subst. now exists w2.
  - intros [L|(w' & -> & L)].
    + exists [], w. cbn. repeat split; auto.
    + exists [c], w'. cbn. rewrite N.eqb_refl. repeat split; auto.
Qed.

Lemma ip_pattern_spec s :
  RegExp.test (rx "https?:\/\/\d{1,3}\.\d{1,3}\.\d{1,3}\.\d{1,3}") s = true
  <-> ip_url_shape s.
Proof.
  rewrite test_plain by (vm_compute; reflexivity).
  let r := eval vm_compute in
        (RegExp.compiled (rx "https?:\/\/\d{1,3}\.\d{1,3}\.\d{1,3}\.\d{1,3}")) in
  change (RegExp.compiled (rx "https?:\/\/\d{1,3}\.\d{1,3}\.\d{1,3}\.\d{1,3}"))
    with r.
  cbn [RegExp.ignoreCase rx].
  unfold ip_url_shape.
  change (js ".") with [46%N].
  split.
  - intros (pre & w & post & -> & L).
    do 4 (apply Lang_seq_char in L; destruct L as (? & -> & L)).
    apply Lang_seq_optional in L.
    destruct L as [L|(? & -> & L)];
      do 3 (apply Lang_seq_char in L; destruct L as (? & -> & L));
      apply Lang_seq_digits in L; destruct L as (a & ? & -> & Ha & L);
      apply Lang_seq_char in L; destruct L as (? & -> & L);
      apply Lang_seq_digits in L; destruct L as (b & ? & -> & Hb & L);
      apply Lang_seq_char in L; destruct L as (? & -> & L);
      apply Lang_seq_digits in L; destruct L as (c & ? & -> & Hc & L);
      apply Lang_seq_char in L; destruct L as (d & -> & L);
      apply Lang_digits in L;
      [ exists pre, (js "http://"), a, b, c, d, post
      | exists pre, (js "https://"), a, b, c, d, post ];
      (split; [|tauto]).
    + let v := eval vm_compute in (js "http://") in
      change (js "http://") with v.
      repeat first [rewrite <- app_assoc | progress cbn [app]]. reflexivity.
    + let v := eval vm_compute in (js "https://") in
      change (js "https://") with v.
      repeat first [rewrite <- app_assoc | progress cbn [app]]. reflexivity.
  - intros (pre & scheme & a & b & c & d & post & -> & Hs & Ha & Hb & Hc & Hd).
    exists pre, (scheme ++ a ++ [46%N] ++ b ++ [46%N] ++ c ++ [46%N] ++ d), post.
    split; [now rewrite <- !app_assoc|].
    assert (Q : Lang false
                  (RegExp.Seq
                     (RegExp.Rep 1 (Some 3) (RegExp.Class false [RegExp.CDigit]))
                     (RegExp.Seq (RegExp.Char 46)
                        (RegExp.Seq
                           (RegExp.Rep 1 (Some 3) (RegExp.Class false [RegExp.CDigit]))
                           (RegExp.Seq (RegExp.Char 46)
                              (RegExp.Seq
                                 (RegExp.Rep 1 (Some 3) (RegExp.Class false [RegExp.CDigit]))
                                 (RegExp.Seq (RegExp.Char 46)
                                    (RegExp.Rep 1 (Some 3) (RegExp.Class false [RegExp.CDigit])))))))) 
                  (a ++ [46%N] ++ b ++ [46%N] ++ c ++ [46%N] ++ d)).
    { apply Lang_seq_digits. exists a. eexists. split; [reflexivity|]. split; [exact Ha|].
      apply Lang_seq_char. eexists. split; [reflexivity|].
      apply Lang_seq_digits. exists b. eexists. split; [reflexivity|]. split; [exact Hb|].
      apply Lang_seq_char. eexists. split; [reflexivity|].
      apply Lang_seq_digits. exists c. eexists. split; [reflexivity|]. split; [exact Hc|].
      apply Lang_seq_char. eexists. split; [reflexivity|].
      now apply Lang_digits. }
    destruct Hs as [-> | ->].
    + let v := eval vm_compute in (js "http://") in
      change (js "http://") with v.
      cbn [app].
      do 4 (apply Lang_seq_char; eexists; split; [reflexivity|]).
      apply Lang_seq_optional. left.
      do 3 (apply Lang_seq_char; eexists; split; [reflexivity|]).
      exact Q.
    + let v := eval vm_compute in (js "https://") in
      change (js "https://") with v.
      cbn [app].
      do 4 (apply Lang_seq_char; eexists; split; [reflexivity|]).
      apply Lang_seq_optional. right. eexists. split; [reflexivity|].
      do 3 (apply Lang_seq_char; eexists; split; [reflexivity|]).
      exact Q.
Qed.

Lemma backref_step x st st1 :
  RegExp.get_cap 1 (RegExp.caps st) = Some [x] ->
  (Matches false (RegExp.Backref 1) st st1
   <-> exists xs, RegExp.rest st = x :: xs /\ st1 = RegExp.step st x xs).
Proof.
  intros Hcap. cbn [Matches]. rewrite Hcap. cbn [RegExp.eat_string].
  destruct (RegExp.rest st) as [|y ys]; [split; [discriminate | now intros (? & ? & _)]|].
  cbn [RegExp.same_char]. destruct (N.eqb_spec x y) as [->|Hne]; split.
  - intros H. inversion H. now exists ys.
  - intros (xs & E & ->). inversion E. reflexivity.
  - discriminate.
  - intros (xs & E & _). inversion E. congruence.
Qed.

Lemma backref_iter_sound x lo count st st' :
  Iter (Matches false (RegExp.Backref 1)) lo None count st st' ->
  RegExp.get_cap 1 (RegExp.caps st) = Some [x] ->
  exists n, lo <= count + n /\ RegExp.rest st = repeat x n ++ RegExp.rest st'.
Proof.
  induction 1 as [count st Hlo|count st st1 st' _ H1 _ _ IH]; intros Hcap.
  - exists 0. split; [lia | reflexivity].
  - apply (@backref_step x st st1 Hcap) in H1. destruct H1 as (xs & E & ->).
    destruct (IH Hcap) as (n & Hn & Hr). cbn [RegExp.step RegExp.rest] in Hr.
    exists (S n). split; [lia|]. rewrite E, Hr. reflexivity.
Qed.

Lemma backref_iter_complete x lo n :
  forall count st tail,
    RegExp.get_cap 1 (RegExp.caps st) = Some [x] ->
    RegExp.rest st = repeat x n ++ tail ->
    lo <= count + n ->
    exists st', Iter (Matches false (RegExp.Backref 1)) lo None count st st'.
Proof.
  induction n as [|n IH]; intros count st tail Hcap Hr Hlo.
  - exists st. apply Iter_stop. lia.
  - cbn [repeat app] in Hr.
    destruct (IH (S count) (RegExp.step st x (repeat x n ++ tail)) tail)
      as (st' & Hi); [exact Hcap | reflexivity | lia |].
    exists st'. eapply Iter_more; [exact I | | | exact Hi].
    + apply (@backref_step x st _ Hcap). now exists (repeat x n ++ tail).
    + cbn [RegExp.step RegExp.rest]. rewrite Hr. cbn [length]. lia.
Qed.

(** [/(\d)\1{4,}/] finds a digit that stands five times in a row. *)
Lemma run_pattern_spec s :
  RegExp.test (rx "(\d)\1{4,}") s = true <-> has_digit_run s.
Proof.
  rewrite test_spec.
  let r := eval vm_compute in (RegExp.compiled (rx "(\d)\1{4,}")) in
  change (RegExp.compiled (rx "(\d)\1{4,}")) with r.
  cbn [RegExp.ignoreCase rx]. unfold has_digit_run. split.
  - intros (pre & post & st' & -> & H). cbn [Matches] in H.
    destruct H as (st1 & (st0 & (x & xs & E & Hx & ->) & ->) & Hi).
    cbn [RegExp.rest RegExp.step RegExp.prev RegExp.caps] in *. subst post.
    rewrite digit_class in Hx.
    apply backref_iter_sound with (x := x) in Hi.
    + destruct Hi as (n & Hn & Hr). cbn [RegExp.rest] in Hr.
      exists pre, x, (repeat x (n - 4) ++ RegExp.rest st').
      split; [exact Hx|]. rewrite Hr. f_equal.
      replace n with (4 + (n - 4)) at 1 by lia.
      rewrite repeat_app. cbn [repeat app]. reflexivity.
    + cbn [RegExp.caps RegExp.get_cap Nat.eqb length].
      replace (S (length xs) - length xs) with 1 by lia. reflexivity.
  - intros (pre & d & post & Hd & ->).
    exists pre, (repeat d 5 ++ post). cbn [repeat app Matches].
    set (st1 := RegExp.MState (Some d) (d :: d :: d :: d :: post)
                              [(1, [d])]).
    destruct (@backref_iter_complete d 4 4 0 st1 post) as (st' & Hi);
      [reflexivity | reflexivity | lia |].
    exists st'. split; [reflexivity|].
    exists st1. split; [|exact Hi].
    eexists. split.
    + exists d. eexists. split; [reflexivity|]. split; [|reflexivity].
      now rewrite digit_class.
    + subst st1. cbn [RegExp.step RegExp.rest RegExp.prev RegExp.caps length].
      f_equal. f_equal. f_equal.
      replace (S (S (S (S (S (length post))))) - S (S (S (S (length post)))))
        with 1 by lia.
      reflexivity.
Qed.

(** ** Replacing every unit of a class *)

Section ReplaceUnit.

Variable icase : bool.
Variable r : RegExp.regex.
Variable p : N -> bool.
Hypothesis r_unit : unit_of icase r = Some p.

Lemma match_here_unit before s :
  RegExp.match_here icase r before s
  = match s with
    | x :: xs => if p x then Some (RegExp.MState (Some x) xs []) else None
    | [] => None
    end.
Proof.
  unfold RegExp.match_here.
  destruct r; cbn [unit_of] in r_unit; inversion r_unit; subst;
    cbn [RegExp.run]; unfold RegExp.eat; cbn [RegExp.rest];
    destruct s as [|x xs]; reflexivity.
Qed.

Lemma search_unit before s :
  match RegExp.search icase r before s with
  | None => forallb (fun x => negb (p x)) s = true
  | Some (skipped, m, st) =>
      exists x, s = skipped ++ x :: RegExp.rest st
                /\ forallb (fun x => negb (p x)) skipped = true
                /\ p x = true /\ m = [x]
  end.
Proof.
  revert before. induction s as [|x s IH]; intros before;
    cbn [RegExp.search]; rewrite match_here_unit; [reflexivity|].
  destruct (p x) eqn:Hp.
  - exists x. cbn [RegExp.rest length app forallb].
    replace (S (length s) - length s) with 1 by lia. auto.
  - specialize (IH (Some x)).
    destruct (RegExp.search icase r (Some x) s) as [[[skipped m] st]|].
    + destruct IH as (y & -> & Hsk & Hy & ->). exists y.
      cbn [app forallb]. rewrite Hp. auto.
    + cbn [forallb]. now rewrite Hp.
Qed.

Lemma flat_map_keep (by_ : jsstring) s :
  forallb (fun x => negb (p x)) s = true ->
  flat_map (fun x => if p x then by_ else [x]) s = s.
Proof.
  induction s as [|x s IH]; cbn [forallb flat_map]; [reflexivity|].
  intros H. apply andb_prop in H. destruct H as [Hx Hs].
  apply negb_true_iff in Hx. rewrite Hx, IH by assumption. reflexivity.
Qed.

Lemma scan_unit (by_ : jsstring) fuel :
  forall before s,
    length s < fuel ->
    let '(ms, tail) := RegExp.scan fuel icase r before s in
    concat (map (fun '(skipped, _) => skipped ++ by_) ms) ++ tail
    = flat_map (fun x => if p x then by_ else [x]) s.
Proof.
  induction fuel as [|fuel IH]; intros before s Hlen; [lia|].
  cbn [RegExp.scan].
  pose proof (search_unit before s) as Hs.
  destruct (RegExp.search icase r before s) as [[[skipped m] st]|].
  - destruct Hs as (x & -> & Hsk & Hx & ->).
    specialize (IH (RegExp.prev st) (RegExp.rest st)).
    destruct (RegExp.scan fuel icase r (RegExp.prev st) (RegExp.rest st))
      as [ms tail].
    cbn [map concat]. rewrite flat_map_app. cbn [flat_map].
    rewrite Hx, (flat_map_keep _ _ Hsk), <- IH.
    + now rewrite <- !app_assoc.
    + rewrite length_app in Hlen. cbn [length] in Hlen. lia.
  - cbn [map concat app]. symmetry. now apply flat_map_keep.
Qed.

End ReplaceUnit.

(** Replacing every unit of a one-unit pattern by the empty string leaves
    the other units, in order. *)
Lemma replace_all_unit re p s :
  unit_of (RegExp.ignoreCase re) (RegExp.compiled re) = Some p ->
  RegExp.replace_all re [] s = filter (fun x => negb (p x)) s.
Proof.
  intros Hu. unfold RegExp.replace_all.
  pose proof (@scan_unit _ _ _ Hu [] (S (length s)) None s ltac:(lia)) as H.
  destruct (RegExp.scan _ _ _ None s) as [ms tail]. rewrite H.
  clear. induction s as [|x s IH]; cbn [flat_map filter]; [reflexivity|].
  rewrite IH. now destruct (p x).
Qed.

Ltac eval_compiled :=
  repeat match goal with
         | |- context [RegExp.compiled ?re] =>
             let r := eval vm_compute in (RegExp.compiled re) in
             change (RegExp.compiled re) with r
         end.

(** The digits of a phone number are its decimal digits, in order. *)
Lemma phone_digits_spec phone : phone_digits phone = filter is_digit phone.
Proof.
  unfold phone_digits.
  rewrite (@replace_all_unit (rx "\D")
             (RegExp.class_matches false false [RegExp.CNotDigit]))
    by (eval_compiled; reflexivity).
  rewrite (@replace_all_unit (rx "[\s\-()]")
             (RegExp.class_matches false false
                [RegExp.CSpace; RegExp.CChar 45; RegExp.CChar 40;
                 RegExp.CChar 41]))
    by (eval_compiled; reflexivity).
  rewrite filter_filter.
  apply filter_ext_in. intros x _.
  unfold RegExp.class_matches.
  cbn [xorb existsb RegExp.item_matches RegExp.same_char].
  rewrite !orb_false_r, negb_involutive.
  destruct (is_digit x) eqn:Hd; [|now rewrite andb_false_r].
  rewrite andb_true_r. apply negb_true_iff.
  unfold is_digit in Hd. apply andb_prop in Hd. destruct Hd as [H1 H2].
  apply N.leb_le in H1. apply N.leb_le in H2.
  unfold is_space.
  repeat match goal with
         | |- context [(?a =? ?b)%N] =>
             destruct (N.eqb_spec a b); [lia|]
         | |- context [(?a <=? ?b)%N] =>
             destruct (N.leb_spec a b)
         end; cbn; try reflexivity; lia.
Qed.

(** ** Following one flag through the checks *)

Ltac js_neq :=
  let E := fresh "E" in
  intros E; vm_compute in E; discriminate E.

Section Tracking.

Variable f : jsstring.
Variable d : Detail.t.

Lemma Trk_start : Trk f d False start.
Proof. split; cbn; tauto. Qed.

Lemma Trk_weaken (P Q : Prop) a : (P <-> Q) -> Trk f d P a -> Trk f d Q a.
Proof. intros E [H1 H2]. split; now rewrite <- E. Qed.

(** A check for another flag changes nothing. *)
Lemma Trk_other P (c : bool) pts rule g a :
  f <> js g -> Detail.flag d <> js g ->
  Trk f d P a -> Trk f d P (if c then hit pts rule g a else a).
Proof.
  intros Hf Hd [H1 H2]. destruct c; [|now split].
  split; unfold hit, record, add; cbn [acc_flags acc_details];
    rewrite in_app_iff; cbn [In].
  - rewrite H1. split; [intros [H|[H|[]]]; congruence | tauto].
  - rewrite H2. split; [|tauto].
    intros [H|[H|[]]]; [assumption|]. subst d. cbn in Hd. congruence.
Qed.

Lemma Trk_other_first_that {A} P (p : A -> bool) xs pts rule g a :
  f <> js g -> Detail.flag d <> js g ->
  Trk f d P a -> Trk f d P (first_that p xs (hit pts rule g) a).
Proof. intros. rewrite first_that_existsb. now apply Trk_other. Qed.

(** The check that raises [f] and records [d]. *)
Lemma Trk_this (c : bool) pts rule g a :
  f = js g -> d = Detail.Make (js rule) (js g) pts ->
  Trk f d False a -> Trk f d (c = true) (if c then hit pts rule g a else a).
Proof.
  intros -> -> [H1 H2]. destruct c.
  - split; unfold hit, record, add; cbn [acc_flags acc_details];
      rewrite in_app_iff; cbn [In]; tauto.
  - split; [rewrite H1 | rewrite H2]; split; (discriminate || tauto).
Qed.

Lemma Trk_this_first_that {A} (p : A -> bool) xs pts rule g a :
  f = js g -> d = Detail.Make (js rule) (js g) pts ->
  Trk f d False a ->
  Trk f d (existsb p xs = true) (first_that p xs (hit pts rule g) a).
Proof. intros. rewrite first_that_existsb. now apply Trk_this. Qed.

Lemma Trk_other_tokens P combined tokens a :
  f <> js "suspicious_path_token" ->
  Detail.flag d <> js "suspicious_path_token" ->
  Trk f d P a ->
  Trk f d P
      (fold_left
         (fun a token =>
            if includes combined token then
              let a := add 12 a in
              if negb (arr_includes (acc_flags a) (js "suspicious_path_token"))
              then record (js "suspicious_path") (js "suspicious_path_token") 12 a
              else a
            else a)
         tokens a).
Proof.
  intros Hf Hd. revert a.
  induction tokens as [|t tokens IH]; intros a H; [exact H|].
  cbn [fold_left]. apply IH.
  destruct (includes combined t); [|exact H].
  cbv zeta. cbn [add acc_flags].
  destruct (negb (arr_includes (acc_flags a) (js "suspicious_path_token"))).
  - apply (@Trk_other P true 12 "suspicious_path" "suspicious_path_token" a);
      assumption.
  - destruct H as [H1 H2]. now split.
Qed.

End Tracking.

Section Payment.

Variable extra : Z.

Lemma Paid_start : Paid 0 start.
Proof. split; cbn; [constructor | reflexivity]. Qed.

Lemma Paid_hit (c : bool) pts rule g a :
  (0 <= pts)%Z -> Paid extra a ->
  Paid extra (if c then hit pts rule g a else a).
Proof.
  intros Hp [H1 H2]. destruct c; [|now split].
  split; unfold hit, record, add; cbn [acc_score acc_details].
  - apply Forall_app. split; [assumption | now repeat constructor].
  - rewrite map_app, sum_app, H2. cbn [map]. rewrite sum_cons.
    change (sum []) with 0%Z. cbn [Detail.points]. lia.
Qed.

Lemma Paid_first_that {A} (p : A -> bool) xs pts rule g a :
  (0 <= pts)%Z -> Paid extra a ->
  Paid extra (first_that p xs (hit pts rule g) a).
Proof. intros. rewrite first_that_existsb. now apply Paid_hit. Qed.

(** The token loop once the flag is there: 12 more for each token. *)
Lemma Paid_tokens_seen combined tokens a :
  In (js "suspicious_path_token") (acc_flags a) ->
  Paid extra a ->
  Paid (extra + 12 * Z.of_nat (length (filter (includes combined) tokens)))
       (fold_left
          (fun a token =>
             if includes combined token then
               let a := add 12 a in
               if negb (arr_includes (acc_flags a) (js "suspicious_path_token"))
               then record (js "suspicious_path") (js "suspicious_path_token") 12 a
               else a
             else a)
          tokens a).
Proof.
  revert extra a. induction tokens as [|t tokens IH]; intros e a Hin H.
  - cbn [fold_left filter length]. now replace (e + 12 * Z.of_nat 0)%Z with e by lia.
  - cbn [fold_left filter]. destruct (includes combined t); [|now apply IH].
    cbv zeta. cbn [add acc_flags].
    apply arr_includes_In in Hin. rewrite Hin. cbn [negb length].
    replace (e + 12 * Z.of_nat (S (length (filter (includes combined) tokens))))%Z
      with ((e + 12) + 12 * Z.of_nat (length (filter (includes combined) tokens)))%Z
      by lia.
    apply IH; [now apply arr_includes_In|].
    destruct H as [H1 H2].
    split; unfold add; cbn [acc_score acc_details]; [assumption|lia].
Qed.

(** The token loop from the start: the first token is paid by the detail
    entry, the others are extra. *)
Lemma Paid_tokens combined tokens a :
  ~ In (js "suspicious_path_token") (acc_flags a) ->
  Paid extra a ->
  Paid (extra
        + 12 * Z.of_nat (pred (length (filter (includes combined) tokens))))
       (fold_left
          (fun a token =>
             if includes combined token then
               let a := add 12 a in
               if negb (arr_includes (acc_flags a) (js "suspicious_path_token"))
               then record (js "suspicious_path") (js "suspicious_path_token") 12 a
               else a
             else a)
          tokens a).
Proof.
  revert a. induction tokens as [|t tokens IH]; intros a Hin H.
  - cbn [fold_left filter length pred].
    now replace (extra + 12 * Z.of_nat 0)%Z with extra by lia.
  - cbn [fold_left filter]. destruct (includes combined t); [|now apply IH].
    cbv zeta. cbn [add acc_flags length pred].
    destruct (arr_includes (acc_flags a) (js "suspicious_path_token")) eqn:E.
    + apply arr_includes_In in E. contradiction.
    + cbn [negb]. apply Paid_tokens_seen.
      * cbn [record acc_flags]. apply in_or_app. right. now left.
      * apply (@Paid_hit true 12 "suspicious_path" "suspicious_path_token" a);
          [lia | exact H].
Qed.

Lemma Paid_In a d0 :
  (0 <= extra)%Z -> Paid extra a -> In d0 (acc_details a) ->
  (Detail.points d0 <= acc_score a)%Z.
Proof.
  intros He [H1 H2] Hin.
  enough (Detail.points d0 <= sum (map Detail.points (acc_details a)))%Z by lia.
  clear H2. induction (acc_details a) as [|x l IH]; [destruct Hin|].
  inversion H1 as [|? ? Hx Hl]; subst. cbn [map]. rewrite sum_cons.
  assert (0 <= sum (map Detail.points l))%Z
    by (apply sum_nonneg; now apply Forall_map).
  destruct Hin as [->|Hin]; [lia|]. specialize (IH Hl Hin). lia.
Qed.

End Payment.

(** ** One flag of [analyzeUrl] at a time *)

(** As [acc_step], for a property that the step keeps. *)
Ltac keep_step H tac :=
  intro_let;
  lazymatch goal with
  | x := _ : Acc |- _ =>
      lazymatch type of H with
      | ?P _ =>
          let H' := fresh "H" in
          assert (H' : P x) by (subst x; tac);
          clear H; rename H' into H; clearbody x
      end
  end.

Ltac keep_step2 H1 H2 tac1 tac2 :=
  intro_let;
  lazymatch goal with
  | x := _ : Acc |- _ =>
      lazymatch type of H1 with
      | ?P _ =>
          lazymatch type of H2 with
          | ?Q _ =>
              let H1' := fresh "H" in
              let H2' := fresh "H" in
              assert (H1' : P x) by (subst x; tac1);
              assert (H2' : Q x) by (subst x; tac2);
              clear H1 H2; rename H1' into H1; rename H2' into H2;
              clearbody x
          end
      end
  end.

Ltac other H :=
  first [ apply Trk_other | apply Trk_other_first_that
        | apply Trk_other_tokens ];
  [ js_neq | js_neq | exact H ].

Ltac other_nested H :=
  idtac;
  lazymatch goal with
  | |- _ (if ?c then _ else _) => destruct c; [other H | exact H]
  end.

Ltac pay H :=
  first [ apply Paid_hit | apply Paid_first_that ]; [ lia | exact H ].

Ltac pay_nested H :=
  idtac;
  lazymatch goal with
  | |- _ (if ?c then _ else _) => destruct c; [pay H | exact H]
  end.

Section UrlFlags.

Context {host : Host}.

Lemma analyzeUrl_Paid url :
  let combinedPath := snd (url_parts url) ++ js " " ++ toLowerCase url in
  Paid (12 * Z.of_nat (pred (length (path_tokens_in combinedPath))))
       (analyzeUrl_acc url).
Proof.
  cbv zeta. cbv beta delta [analyzeUrl_acc].
  intro_let. assert (H : Paid 0 a) by (subst a; apply Paid_start).
  assert (T : Trk (js "suspicious_path_token")
                  (Detail.Make (js "suspicious_path")
                               (js "suspicious_path_token") 12)
                  False a) by (subst a; apply Trk_start).
  clearbody a.
  intro_let. intro_let. intro_let.
  do 7 keep_step2 H T ltac:(pay H) ltac:(other T).
  intro_let. intro_let.
  assert (H' : Paid (12 * Z.of_nat (pred (length (path_tokens_in combinedPath))))
                    a7).
  { subst a7. unfold path_tokens_in.
    apply (@Paid_tokens 0); [|exact H].
    destruct T as [T _]. now rewrite T. }
  clear H T. rename H' into H. clearbody a7.
  intro_let.
  do 3 keep_step H ltac:(pay H).
  keep_step H ltac:(pay_nested H).
  subst combinedPath urlLower pathname0. exact H.
Qed.

Lemma analyzeUrl_ip url :
  Trk (js "ip_based_url")
      (Detail.Make (js "ip_based") (js "ip_based_url") 25)
      (RegExp.test (rx "https?:\/\/\d{1,3}\.\d{1,3}\.\d{1,3}\.\d{1,3}")
                   (toLowerCase url) = true)
      (analyzeUrl_acc url).
Proof.
  cbv beta delta [analyzeUrl_acc].
  intro_let.
  assert (H0 : Trk (js "ip_based_url")
                   (Detail.Make (js "ip_based") (js "ip_based_url") 25)
                   False a) by (subst a; apply Trk_start).
  clearbody a.
  intro_let. intro_let. intro_let. intro_let.
  assert (H : Trk (js "ip_based_url")
                  (Detail.Make (js "ip_based") (js "ip_based_url") 25)
                  (RegExp.test
                     (rx "https?:\/\/\d{1,3}\.\d{1,3}\.\d{1,3}\.\d{1,3}")
                     urlLower = true) a0)
    by (subst a0; apply Trk_this; [reflexivity | reflexivity | exact H0]).
  clear H0. clearbody a0.
  do 6 keep_step H ltac:(other H).
  intro_let.
  keep_step H ltac:(other H).
  intro_let.
  do 3 keep_step H ltac:(other H).
  keep_step H ltac:(other_nested H).
  exact H.
Qed.

Lemma analyzeUrl_brand url :
  Trk (js "brand_spoofing")
      (Detail.Make (js "brand_spoof") (js "brand_spoofing") 22)
      (brand_spoofed (url_domain url) = true)
      (analyzeUrl_acc url).
Proof.
  cbv beta delta [analyzeUrl_acc].
  intro_let.
  assert (H : Trk (js "brand_spoofing")
                  (Detail.Make (js "brand_spoof") (js "brand_spoofing") 22)
                  False a) by (subst a; apply Trk_start).
  clearbody a.
  intro_let. intro_let. intro_let.
  do 6 keep_step H ltac:(other H).
  intro_let.
  assert (H' : Trk (js "brand_spoofing")
                   (Detail.Make (js "brand_spoof") (js "brand_spoofing") 22)
                   (brand_spoofed domain = true) a6)
    by (subst a6; apply Trk_this_first_that;
        [reflexivity | reflexivity | exact H]).
  clear H. rename H' into H. clearbody a6.
  intro_let.
  keep_step H ltac:(other H).
  intro_let.
  do 3 keep_step H ltac:(other H).
  keep_step H ltac:(other_nested H).
  exact H.
Qed.

End UrlFlags.

(** ** The repetition checks of [analyzePhone] *)

Lemma In_flags_hit f (c : bool) pts rule g a :
  In f (acc_flags (if c then hit pts rule g a else a))
  <-> (c = true /\ f = js g) \/ In f (acc_flags a).
Proof.
  destruct c; [|split; [tauto | intros [[E _]|H]; [discriminate | exact H]]].
  unfold hit, record, add. cbn [acc_flags]. rewrite in_app_iff. cbn [In].
  split; [intros [H|[H|[]]]; auto | intros [[_ ->]|H]; auto].
Qed.

Lemma In_details_hit d (c : bool) pts rule g a :
  In d (acc_details (if c then hit pts rule g a else a))
  <-> (c = true /\ d = Detail.Make (js rule) (js g) pts)
      \/ In d (acc_details a).
Proof.
  destruct c; [|split; [tauto | intros [[E _]|H]; [discriminate | exact H]]].
  unfold hit, record, add. cbn [acc_details]. rewrite in_app_iff. cbn [In].
  split; [intros [H|[H|[]]]; auto | intros [[_ ->]|H]; auto].
Qed.

Section PhoneFlags.

Context {host : Host}.

Lemma analyzePhone_Paid phone : Paid 0 (analyzePhone_acc phone).
Proof.
  cbv beta delta [analyzePhone_acc].
  intro_let. assert (H : Paid 0 a) by (subst a; apply Paid_start).
  clearbody a.
  intro_let.
  keep_step H ltac:(pay H).
  intro_let.
  do 2 keep_step H ltac:(pay H).
  intro_let.
  keep_step H ltac:(pay H).
  keep_step H ltac:(
    idtac;
    lazymatch goal with
    | |- _ (if ?c then _ else _) => destruct c; [pay H | exact H]
    end).
  exact H.
Qed.

Lemma analyzePhone_repetition phone :
  let digits := phone_digits phone in
  let a := analyzePhone_acc phone in
  (In (js "suspicious_repeated_digits") (acc_flags a)
   <-> few_distinct digits = true \/ digit_run digits = true)
  /\ (In (Detail.Make (js "repeated_digits")
                      (js "suspicious_repeated_digits") 15) (acc_details a)
      <-> few_distinct digits = true)
  /\ (In (Detail.Make (js "repeated_sequence")
                      (js "suspicious_repeated_digits") 12) (acc_details a)
      <-> digit_run digits = true /\ few_distinct digits = false).
Proof.
  cbv zeta.
  set (goal := fun a : Acc =>
         (In (js "suspicious_repeated_digits") (acc_flags a)
          <-> few_distinct (phone_digits phone) = true
              \/ digit_run (phone_digits phone) = true)
         /\ (In (Detail.Make (js "repeated_digits")
                             (js "suspicious_repeated_digits") 15)
                (acc_details a)
             <-> few_distinct (phone_digits phone) = true)
         /\ (In (Detail.Make (js "repeated_sequence")
                             (js "suspicious_repeated_digits") 12)
                (acc_details a)
             <-> digit_run (phone_digits phone) = true
                 /\ few_distinct (phone_digits phone) = false)).
  change (goal (analyzePhone_acc phone)).
  cbv beta delta [analyzePhone_acc].
  intro_let.
  assert (H1 : Trk (js "suspicious_repeated_digits")
                   (Detail.Make (js "repeated_digits")
                                (js "suspicious_repeated_digits") 15)
                   False a) by (subst a; apply Trk_start).
  assert (H2 : Trk (js "suspicious_repeated_digits")
                   (Detail.Make (js "repeated_sequence")
                                (js "suspicious_repeated_digits") 12)
                   False a) by (subst a; apply Trk_start).
  clearbody a.
  intro_let.
  keep_step2 H1 H2 ltac:(other H1) ltac:(other H2).
  intro_let.
  keep_step2 H1 H2 ltac:(other H1) ltac:(other H2).
  keep_step2 H1 H2 ltac:(other H1) ltac:(other H2).
  intro_let. intro_let. intro_let.
  subst goal. cbv beta. subst a4 a3 lastTen digitsOnly.
  fold (few_distinct (phone_digits phone)).
  fold (digit_run (phone_digits phone)).
  destruct H1 as [F1 D1]. destruct H2 as [_ D2].
  set (few := few_distinct (phone_digits phone)) in *.
  set (run := digit_run (phone_digits phone)) in *.
  set (a3 := if few then hit 15 "repeated_digits" "suspicious_repeated_digits" a2
             else a2).
  assert (F3 : In (js "suspicious_repeated_digits") (acc_flags a3)
               <-> few = true).
  { subst a3. rewrite In_flags_hit, F1. tauto. }
  assert (E : arr_includes (acc_flags a3) (js "suspicious_repeated_digits")
              = few).
  { destruct few eqn:Ef.
    - apply arr_includes_In. now apply F3.
    - destruct (arr_includes _ _) eqn:Ea; [|reflexivity].
      apply arr_includes_In in Ea. apply F3 in Ea. discriminate. }
  rewrite E.
  assert (Hlast : (if run
                   then if negb few
                        then hit 12 "repeated_sequence"
                                 "suspicious_repeated_digits" a3
                        else a3
                   else a3)
                  = if run && negb few
                    then hit 12 "repeated_sequence"
                             "suspicious_repeated_digits" a3
                    else a3)
    by (destruct run, few; reflexivity).
  rewrite Hlast. rewrite In_flags_hit, !In_details_hit, F3.
  subst a3. rewrite !In_details_hit, D1, D2.
  assert (N12 : Detail.Make (js "repeated_digits")
                            (js "suspicious_repeated_digits") 15
                <> Detail.Make (js "repeated_sequence")
                               (js "suspicious_repeated_digits") 12)
    by (intros X; inversion X).
  destruct run, few; cbn [andb negb]; repeat split; try tauto;
    intros; repeat match goal with
                   | H : _ \/ _ |- _ => destruct H
                   | H : _ /\ _ |- _ => destruct H
                   end; try discriminate; try contradiction;
    try (exfalso; auto; fail); auto.
Qed.

End PhoneFlags.

(** ** Brand spoofing, spelled out *)

Lemma startsWith_refl s : startsWith s s = true.
Proof. induction s as [|x s IH]; cbn; [reflexivity|]. now rewrite N.eqb_refl. Qed.

Lemma endsWith_refl s : endsWith s s = true.
Proof. apply startsWith_refl. Qed.

Lemma brand_spoofed_spec {host : Host} domain :
  (forall brand, In brand KNOWN_BRANDS -> toLowerCase brand = brand) ->
  (brand_spoofed domain = true
   <-> exists brand, In brand KNOWN_BRANDS /\ spoofs domain brand).
Proof.
  intros Hlower. unfold brand_spoofed. rewrite existsb_exists.
  assert (Hoff : forall brand,
             existsb (fun od => endsWith domain od || JS.eqb domain od)
                     [brand ++ js ".com"; brand ++ js ".in";
                      brand ++ js ".co.in"; brand ++ js ".org"] = false
             <-> forall suffix, In suffix OFFICIAL_SUFFIXES ->
                                endsWith domain (brand ++ suffix) = false).
  { intros brand.
    change [brand ++ js ".com"; brand ++ js ".in"; brand ++ js ".co.in";
            brand ++ js ".org"]
      with (map (fun suffix => brand ++ suffix) OFFICIAL_SUFFIXES).
    rewrite <- not_true_iff_false, existsb_exists. split.
    - intros H suffix Hin.
      destruct (endsWith domain (brand ++ suffix)) eqn:E; [|reflexivity].
      exfalso. apply H. exists (brand ++ suffix). split.
      + apply in_map_iff. now exists suffix.
      + now rewrite E.
    - intros H (od & Hin & Hod). apply in_map_iff in Hin.
      destruct Hin as (suffix & <- & Hin). specialize (H suffix Hin).
      rewrite H in Hod. cbn [orb] in Hod. apply eqb_eq in Hod.
      rewrite Hod, endsWith_refl in H. discriminate. }
  split.
  - intros (brand & Hin & H). exists brand. split; [exact Hin|].
    rewrite (Hlower brand Hin) in H.
    apply andb_prop in H. destruct H as [H1 H2].
    apply orb_prop in H1. apply negb_true_iff in H2.
    split; [exact H1 | now apply Hoff].
  - intros (brand & Hin & [H1 H2]). exists brand. split; [exact Hin|].
    rewrite (Hlower brand Hin). apply andb_true_intro. split.
    + destruct H1 as [-> | ->]; [reflexivity | apply orb_true_r].
    + apply negb_true_iff. now apply Hoff.
Qed.

(** C5. [analyzeUrl] raises [brand_spoofing], with a detail entry of 22
    points, exactly when the domain contains a known brand, as written or
    after the substitutions 0->o 1->l 3->e 5->s 4->a 7->t 8->b are undone,
    and does not end with one of that brand's official domains; the flag
    and the 22 points come once, however many brands are spoofed, and the
    raw score is the points of the detail entries plus 12 for every path
    token after the first.  [https://amazon.in] is not flagged;
    [http://amaz0n-secure.xyz/login] gets [brand_spoofing] and
    [suspicious_tld]. *)
Theorem brand_spoofing_raised :
  (forall (host : Host),
      (forall brand, In brand KNOWN_BRANDS -> toLowerCase brand = brand) ->
      forall url : jsstring,
        let spoofed :=
          exists brand, In brand KNOWN_BRANDS /\ spoofs (url_domain url) brand in
        let entry :=
          Detail.Make (js "brand_spoof") (js "brand_spoofing") 22 in
        (In (js "brand_spoofing") (flags (analyzeUrl url)) <-> spoofed)
        /\ (In entry (details (analyzeUrl url)) <-> spoofed)
        /\ NoDup (map Detail.flag (details (analyzeUrl url)))
        /\ acc_score (analyzeUrl_acc url)
           = (sum (map Detail.points (details (analyzeUrl url)))
              + 12 * Z.of_nat
                       (pred (length
                                (path_tokens_in
                                   (snd (url_parts url) ++ js " "
                                        ++ toLowerCase url)))))%Z)
  /\ ~ In (js "brand_spoofing")
          (flags (@analyzeUrl Reference.host (js "https://amazon.in")))
  /\ In (js "brand_spoofing")
        (flags (@analyzeUrl Reference.host (js "http://amaz0n-secure.xyz/login")))
  /\ In (js "suspicious_tld")
        (flags (@analyzeUrl Reference.host (js "http://amaz0n-secure.xyz/login"))).
Proof.
  split; [|split; [|split]].
  - intros host Hlower url. cbv zeta.
    destruct (analyzeUrl_brand url) as [Hf Hd].
    rewrite (brand_spoofed_spec _ Hlower) in Hf, Hd.
    split; [exact Hf|]. split; [exact Hd|]. split.
    + destruct (analyzeUrl_Inv url) as [_ E _].
      unfold analyzeUrl, finish. cbn [details]. rewrite E.
      apply analyzeUrl_flags_NoDup.
    + exact (paid_eq (analyzeUrl_Paid url)).
  - vm_compute. tauto.
  - vm_compute. auto 10.
  - vm_compute. auto 10.
Qed.

Lemma brand_spoofing_raised_witness :
  (forall brand, In brand KNOWN_BRANDS ->
                 Reference.toLowerCase brand = brand)
  /\ (In (js "brand_spoofing")
         (flags (@analyzeUrl Reference.host (js "http://amaz0n-secure.xyz/login")))
      <-> exists brand,
          In brand KNOWN_BRANDS
          /\ spoofs (@url_domain Reference.host
                                 (js "http://amaz0n-secure.xyz/login")) brand).
Proof.
  assert (Hlower : forall brand, In brand KNOWN_BRANDS ->
                                 Reference.toLowerCase brand = brand).
  { intros brand Hin. vm_compute in Hin.
    repeat (destruct Hin as [<-|Hin]; [vm_compute; reflexivity|]).
    destruct Hin. }
  split; [exact Hlower|].
  exact (proj1 (proj1 brand_spoofing_raised Reference.host Hlower
                      (js "http://amaz0n-secure.xyz/login"))).
Defined.

(** C6, as the code has it.  [analyzeUrl] raises [ip_based_url], with a
    detail entry of 25 points, exactly when the lower-cased URL contains
    [http://] or [https://] followed at once by four groups of one to
    three digits with dots between them; the score is then at least 25.
    [http://192.168.0.1/verify] is such a URL. *)
Theorem ip_based_url_raised :
  (forall (host : Host) (url : jsstring),
      let entry := Detail.Make (js "ip_based") (js "ip_based_url") 25 in
      (In (js "ip_based_url") (flags (analyzeUrl url))
       <-> ip_url_shape (toLowerCase url))
      /\ (In entry (details (analyzeUrl url))
          <-> ip_url_shape (toLowerCase url))
      /\ (ip_url_shape (toLowerCase url) ->
          (25 <= riskScore (analyzeUrl url))%Z))
  /\ In (js "ip_based_url")
        (flags (@analyzeUrl Reference.host (js "http://192.168.0.1/verify")))
  /\ (25 <= riskScore (@analyzeUrl Reference.host
                                   (js "http://192.168.0.1/verify")))%Z.
Proof.
  split; [|split].
  - intros host url. cbv zeta.
    destruct (analyzeUrl_ip url) as [Hf Hd].
    rewrite ip_pattern_spec in Hf, Hd.
    split; [exact Hf|]. split; [exact Hd|].
    intros Hshape. apply Hd in Hshape.
    assert (H : (25 <= acc_score (analyzeUrl_acc url))%Z).
    { pose proof (analyzeUrl_Paid url) as Hp. cbv zeta in Hp.
      refine (@Paid_In _ _ _ _ Hp Hshape). lia. }
    unfold analyzeUrl, finish. cbn [riskScore]. lia.
  - vm_compute. auto.
  - vm_compute. discriminate.
Qed.

Lemma ip_based_url_raised_witness :
  ip_url_shape (Reference.toLowerCase (js "http://192.168.0.1/verify"))
  /\ (25 <= riskScore (@analyzeUrl Reference.host
                                   (js "http://192.168.0.1/verify")))%Z.
Proof.
  assert (Hshape : ip_url_shape
                     (Reference.toLowerCase (js "http://192.168.0.1/verify"))).
  { exists [], (js "http://"), (js "192"), (js "168"), (js "0"), (js "1"),
      (js "/verify").
    split; [vm_compute; reflexivity|]. split; [now left|].
    unfold digit_group.
    repeat split; try (vm_compute; reflexivity); cbn; lia. }
  split; [exact Hshape|].
  exact (proj2 (proj2 (proj1 ip_based_url_raised Reference.host
                             (js "http://192.168.0.1/verify"))) Hshape).
Defined.

(** C6 as stated fails: a URL given without scheme whose host is an IP
    literal is not flagged. *)
Lemma ip_host_without_scheme_not_flagged :
  let url := js "192.168.0.1/verify" in
  @url_domain Reference.host url = js "192.168.0.1"
  /\ is_ip_literal (@url_domain Reference.host url) = true
  /\ ~ In (js "ip_based_url") (flags (@analyzeUrl Reference.host url))
  /\ riskScore (@analyzeUrl Reference.host url) = 12%Z.
Proof.
  vm_compute. repeat split.
  intros H. repeat destruct H as [H|H]; try discriminate H. exact H.
Qed.

(** C7. The digits of the number are its decimal digits in order, and
    the last ten of them are what is left when all but the final ten are
    dropped (all of them when there are at most ten).  If the last ten
    show at most two distinct values, 15 points are recorded under
    [suspicious_repeated_digits]; if some digit stands five times in a
    row, 12 points are recorded under the same flag exactly when the
    first check did not fire; the raw score is the sum of the recorded
    points, so the two checks are never both scored.  The number
    [9999999999] gets the flag.  Only the last ten digits count for the
    first check: [+919898989898] shows three distinct digits but two in
    its last ten and gets the 15 points; [111111111123] shows one digit
    in its first ten but three in its last ten and gets the 12 points of
    the second check instead. *)
Theorem repeated_digits_scored_once :
  (forall phone : jsstring,
      let digits := filter is_digit phone in
      let last_ten := skipn (length digits - 10) digits in
      let few := length (nodup N.eq_dec last_ten) <= 2 in
      let entry15 :=
        Detail.Make (js "repeated_digits") (js "suspicious_repeated_digits") 15 in
      let entry12 :=
        Detail.Make (js "repeated_sequence") (js "suspicious_repeated_digits") 12 in
      phone_digits phone = digits
      /\ slice_last 10 digits = last_ten
      /\ (exists front, digits = front ++ last_ten)
      /\ length last_ten = Nat.min 10 (length digits)
      /\ (In (js "suspicious_repeated_digits") (flags (analyzePhone phone))
          <-> few \/ has_digit_run digits)
      /\ (In entry15 (details (analyzePhone phone)) <-> few)
      /\ (In entry12 (details (analyzePhone phone))
          <-> has_digit_run digits /\ ~ few)
      /\ ~ (In entry15 (details (analyzePhone phone))
            /\ In entry12 (details (analyzePhone phone)))
      /\ acc_score (analyzePhone_acc phone)
         = sum (map Detail.points (details (analyzePhone phone)))
      /\ NoDup (map Detail.flag (details (analyzePhone phone))))
  /\ In (js "suspicious_repeated_digits")
        (flags (analyzePhone (js "9999999999")))
  /\ (let phone := js "+919898989898" in
      length (nodup N.eq_dec (filter is_digit phone)) = 3
      /\ length (nodup N.eq_dec
                   (skipn (length (filter is_digit phone) - 10)
                          (filter is_digit phone))) = 2
      /\ analyzePhone phone
         = MkResult 15 safe [js "suspicious_repeated_digits"]
             [Detail.Make (js "repeated_digits")
                          (js "suspicious_repeated_digits") 15]
             None None)
  /\ (let phone := js "111111111123" in
      length (nodup N.eq_dec (firstn 10 (filter is_digit phone))) = 1
      /\ length (nodup N.eq_dec
                   (skipn (length (filter is_digit phone) - 10)
                          (filter is_digit phone))) = 3
      /\ analyzePhone phone
         = MkResult 12 safe [js "suspicious_repeated_digits"]
             [Detail.Make (js "repeated_sequence")
                          (js "suspicious_repeated_digits") 12]
             None None).
Proof.
  split; [|split; [|split]].
  - intros phone. cbv zeta.
    destruct (analyzePhone_repetition phone) as (Hf & H15 & H12).
    cbv zeta in Hf, H15, H12.
    unfold few_distinct, digit_run, slice_last in *.
    rewrite run_pattern_spec in Hf, H12.
    rewrite Nat.leb_le in Hf, H15.
    rewrite <- not_true_iff_false, Nat.leb_le in H12.
    rewrite phone_digits_spec in *.
    split; [reflexivity|]. split; [reflexivity|].
    split; [exists (firstn (length (filter is_digit phone) - 10)
                           (filter is_digit phone));
            symmetry; apply firstn_skipn|].
    split; [rewrite length_skipn; lia|].
    split; [exact Hf|]. split; [exact H15|]. split; [exact H12|].
    split; [|split].
    + intros [A B]. apply H15 in A. apply H12 in B. tauto.
    + rewrite (paid_eq (analyzePhone_Paid phone)).
      unfold analyzePhone, finish. cbn [details]. lia.
    + destruct (analyzePhone_Inv phone) as [_ E _].
      unfold analyzePhone, finish. cbn [details]. rewrite E.
      apply analyzePhone_flags_NoDup.
  - vm_compute. auto.
  - vm_compute. repeat split.
  - vm_compute. repeat split.
Qed.

(* ================================================================== *)
(** * Further properties of the engine *)
(* ================================================================== *)

(** ** The risk level calculator *)

(** X1. A higher score never gives a lower tier. *)
Theorem calculateRiskLevel_monotone (s1 s2 : Z) :
  (s1 <= s2)%Z ->
  level_rank (calculateRiskLevel s1) <= level_rank (calculateRiskLevel s2).
Proof.
  intros H. unfold calculateRiskLevel.
  destruct (Z.leb_spec s1 30), (Z.leb_spec s2 30),
    (Z.leb_spec s1 60), (Z.leb_spec s2 60); cbn; lia.
Qed.

Lemma calculateRiskLevel_monotone_witness :
  (30 <= 31)%Z
  /\ level_rank (calculateRiskLevel 30) <= level_rank (calculateRiskLevel 31).
Proof.
  split; [lia | apply calculateRiskLevel_monotone; lia].
Defined.

(** ** [deleet] *)

Lemma replace_unit_length a b s : length (replace_unit a b s) = length s.
Proof. apply length_map. Qed.

Lemma includes_map (g : N -> N) s p :
  includes s p = true -> includes (map g s) (map g p) = true.
Proof.
  assert (Hs : forall s p, startsWith s p = true ->
                           startsWith (map g s) (map g p) = true).
  { intros s0 p0. revert s0. induction p0 as [|y p0 IH]; intros [|x s0];
      cbn; intros H; try reflexivity; try discriminate.
    apply andb_prop in H. destruct H as [E H]. apply N.eqb_eq in E. subst.
    now rewrite N.eqb_refl, IH. }
  induction s as [|x s IH]; cbn [includes map]; intros H.
  - apply orb_prop in H. destruct H as [H|H]; [|discriminate].
    apply Hs in H. cbn [map] in H. now rewrite H.
  - apply orb_prop in H. destruct H as [H|H].
    + apply Hs in H. cbn [map] in H. now rewrite H.
    + rewrite (IH H). apply orb_true_r.
Qed.

Lemma deleet_map s :
  deleet s
  = map (fun c =>
           if (c =? ch "0")%N then ch "o"
           else if (c =? ch "1")%N then ch "l"
           else if (c =? ch "3")%N then ch "e"
           else if (c =? ch "5")%N then ch "s"
           else if (c =? ch "4")%N then ch "a"
           else if (c =? ch "7")%N then ch "t"
           else if (c =? ch "8")%N then ch "b"
           else c) s.
Proof.
  unfold deleet, replace_unit. rewrite !map_map.
  apply map_ext. intros c.
  repeat match goal with
         | |- context [(?x =? ?y)%N] =>
             destruct (N.eqb_spec x y);
             try (exfalso; vm_compute in *; congruence); subst
         end; reflexivity.
Qed.

(** X2. [deleet] keeps the length, leaves none of the digits 0 1 3 4 5 7
    8, changes nothing else, and doing it twice is doing it once.  Since
    no known brand has such a digit, a domain that contains a brand as
    written also contains it after [deleet]: the direct test of the brand
    loop is covered by the second one. *)
Theorem deleet_normalizes :
  forall s : jsstring,
    length (deleet s) = length s
    /\ forallb (fun c => negb (leet_digit c)) (deleet s) = true
    /\ deleet (deleet s) = deleet s
    /\ deleet (filter (fun c => negb (leet_digit c)) s)
       = filter (fun c => negb (leet_digit c)) s
    /\ forall brand, In brand KNOWN_BRANDS ->
                     includes s brand = true ->
                     includes (deleet s) brand = true.
Proof.
  intros s.
  assert (Hfix : forall c, leet_digit c = false ->
                           deleet [c] = [c]).
  { intros c Hc. rewrite deleet_map. cbn [map]. f_equal.
    unfold leet_digit in Hc.
    let l := eval vm_compute in (js "0135478") in
    change (js "0135478") with l in Hc.
    cbn [existsb] in Hc.
    repeat (apply orb_false_elim in Hc; destruct Hc as [? Hc]).
    repeat match goal with
           | H : (c =? ?v)%N = false |- context [(c =? ?y)%N] =>
               change (c =? y)%N with (c =? v)%N; rewrite H; clear H
           end.
    reflexivity. }
  assert (Hout : forall c, leet_digit (hd 0%N (deleet [c])) = false).
  { intros c. rewrite deleet_map. cbn [map hd].
    repeat match goal with
           | |- context [(?x =? ?y)%N] =>
               destruct (N.eqb_spec x y); [vm_compute; reflexivity|]
           end.
    unfold leet_digit.
    let l := eval vm_compute in (js "0135478") in
    change (js "0135478") with l.
    cbn [existsb].
    repeat match goal with
           | H : c <> ?y |- _ =>
               let y' := eval vm_compute in y in
               let E := fresh "E" in
               assert (E : (c =? y')%N = false)
                 by (apply N.eqb_neq; exact H);
               rewrite E; clear H E
           end.
    reflexivity. }
  assert (Hcons : forall c t, deleet (c :: t) = deleet [c] ++ deleet t).
  { intros c t. now rewrite !deleet_map. }
  assert (Hsingle : forall c, deleet [c] = [hd 0%N (deleet [c])]).
  { intros c. now rewrite deleet_map. }
  split; [|split; [|split; [|split]]].
  - unfold deleet. now rewrite !replace_unit_length.
  - induction s as [|c s IH]; [reflexivity|].
    rewrite Hcons, Hsingle. cbn [app forallb]. now rewrite Hout, IH.
  - induction s as [|c s IH]; [reflexivity|].
    rewrite Hcons, Hsingle. cbn [app]. rewrite Hcons, IH.
    now rewrite (Hfix _ (Hout c)).
  - induction s as [|c s IH]; [reflexivity|]. cbn [filter].
    destruct (leet_digit c) eqn:Hc; cbn [negb]; [exact IH|].
    rewrite Hcons, IH, (Hfix _ Hc). reflexivity.
  - intros brand Hin Hinc.
    assert (Hb : deleet brand = brand).
    { vm_compute in Hin.
      repeat (destruct Hin as [<-|Hin]; [vm_compute; reflexivity|]).
      destruct Hin. }
    rewrite <- Hb, !deleet_map. now apply includes_map.
Qed.

(** ** The fallback explanation *)

Lemma startsWith_app s t : startsWith (s ++ t) s = true.
Proof.
  induction s as [|x s IH]; cbn; [now destruct t|]. now rewrite N.eqb_refl.
Qed.

Lemma join_head sep x parts :
  startsWith (join sep (x :: parts)) x = true.
Proof.
  destruct parts as [|y parts]; cbn [join].
  - apply startsWith_refl.
  - apply startsWith_app.
Qed.

Lemma headline_not_empty l : headline l <> [].
Proof. destruct l; vm_compute; discriminate. Qed.

Lemma explanation_parts level flags :
  exists rest,
    generateFallbackExplanation level flags
    = join (js " ") (headline level :: rest).
Proof.
  unfold generateFallbackExplanation. cbv zeta.
  destruct level, (Nat.ltb 0 (length flags)); cbn [app headline];
    eexists; reflexivity.
Qed.

Lemma explanation_starts level flags :
  startsWith (generateFallbackExplanation level flags) (headline level) = true.
Proof.
  destruct (explanation_parts level flags) as [rest ->]. apply join_head.
Qed.

Lemma explanation_not_empty level flags :
  generateFallbackExplanation level flags <> [].
Proof.
  intros E. pose proof (explanation_starts level flags) as Hstart.
  rewrite E in Hstart. pose proof (headline_not_empty level) as Hne.
  destruct (headline level); [congruence | discriminate].
Qed.

(** X3. The fallback explanation is never empty: it opens with the
    sentence of the tier.  Only the first three flags are described, so
    flags beyond the third never change it. *)
Theorem fallback_explanation_headline :
  forall (riskLevel : RiskLevel) (flags : list jsstring),
    startsWith (generateFallbackExplanation riskLevel flags)
               (headline riskLevel) = true
    /\ generateFallbackExplanation riskLevel flags <> []
    /\ generateFallbackExplanation riskLevel flags
       = generateFallbackExplanation riskLevel (firstn 3 flags)
    /\ generateFallbackExplanation safe [] = headline safe.
Proof.
  intros level flags.
  split; [apply explanation_starts|].
  split; [apply explanation_not_empty|]. split.
  - unfold generateFallbackExplanation. cbv zeta.
    rewrite firstn_firstn. cbn [Nat.min].
    replace (Nat.ltb 0 (length (firstn 3 flags)))
      with (Nat.ltb 0 (length flags)); [reflexivity|].
    destruct flags as [|a [|b [|c flags]]]; reflexivity.
  - vm_compute. reflexivity.
Qed.

(** ** The request handler *)

(** X4. The handler answers with an error, always of status 400, exactly
    when the input is missing or blank.  Otherwise it answers with the
    analysis of the trimmed input, which does not depend on what the
    explanation collaborator returns; the explanation sent is the
    collaborator's when it gives a non-empty one and the fallback
    otherwise, and is never empty. *)
Theorem POST_answers :
  forall (host : Host)
         (gemini gemini' : FullAnalysisResult -> jsstring -> option jsstring)
         (body : Body),
    let blank :=
      match body_input body with
      | None => True
      | Some input => trim input = []
      end in
    match POST gemini body with
    | ErrorResponse _ status =>
        blank /\ status = 400%Z
        /\ POST gemini' body = POST gemini body
    | SuccessResponse result text =>
        ~ blank
        /\ (exists input,
               body_input body = Some input
               /\ result = analyze (trim input)
                                   (Some (or_else (body_type body) (js "auto")))
               /\ text = or_else (gemini result (trim input))
                                 (explanation result))
        /\ (exists text', POST gemini' body = SuccessResponse result text')
        /\ text <> []
    end.
Proof.
  intros host g g' [input type]. unfold POST. cbn [body_input body_type].
  destruct input as [[|x xs]|]; cbv zeta.
  - repeat split; reflexivity.
  - destruct (trim (x :: xs)) as [|y ys] eqn:Et; cbn [length Nat.eqb].
    + repeat split; reflexivity.
    + split; [discriminate|]. split; [|split].
      * exists (x :: xs). rewrite Et. repeat split.
      * eexists. reflexivity.
      * set (r := analyze (y :: ys) _).
        destruct (g r (y :: ys)) as [[|c cs]|]; cbn [or_else];
          try discriminate;
          apply explanation_not_empty.
  - repeat split; reflexivity.
Qed.

(** ** The size of a message's score *)

Lemma sum_capped {A} (f : A -> Z) (cap : Z) l :
  (0 <= cap)%Z -> (forall x, 0 <= f x)%Z ->
  (0 <= sum (map (fun x => Z.min (f x) cap) l) <= cap * Z.of_nat (length l))%Z.
Proof.
  intros Hc Hf. induction l as [|x l IH]; [cbn; lia|].
  cbn [map length]. rewrite sum_cons. specialize (Hf x). lia.
Qed.

Lemma sum_filter_le {A} (w : A -> Z) (p : A -> bool) l :
  (forall x, In x l -> 0 <= w x)%Z ->
  (0 <= sum (map w (filter p l)) <= sum (map w l))%Z.
Proof.
  induction l as [|x l IH]; intros Hw; [cbn; lia|].
  assert (0 <= w x)%Z by (apply Hw; now left).
  assert (IH' := IH (fun y Hy => Hw y (or_intror Hy))).
  cbn [filter map]. destruct (p x); cbn [map]; rewrite ?sum_cons; lia.
Qed.

(** X5. The raw score of a message is the weights of the fired rules,
    at most 249 in all, plus what the embedded entities add: never more
    than 30 for each of at most two URLs and 15 for each of at most two
    phone numbers, so at most 90. *)
Theorem message_score_bounds :
  forall (host : Host) (text : jsstring),
    let rules := sum (map rule_weight (fired_rules (toLowerCase text))) in
    let raw := acc_score (analyzeMessage_acc text) in
    let urls := Z.of_nat (Nat.min 2 (length (extractUrls text))) in
    let phones := Z.of_nat (Nat.min 2 (length (extractPhones text))) in
    (0 <= rules <= 249)%Z
    /\ (rules <= raw <= rules + 30 * urls + 15 * phones)%Z
    /\ (raw <= rules + 90)%Z.
Proof.
  intros host text. cbv zeta.
  destruct (analyzeMessage_acc_spec text) as (Hs & _ & _). cbv zeta in Hs.
  rewrite Hs.
  assert (Hu : forall url, (0 <= riskScore (analyzeUrl url) / 2)%Z).
  { intros url. apply Z.div_pos; [|lia].
    destruct (analyzeUrl_cases url) as [[_ ->]|[_ H]]; lia. }
  assert (Hp : forall phone, (0 <= riskScore (analyzePhone phone) / 3)%Z).
  { intros phone. apply Z.div_pos; [|lia].
    destruct (analyzePhone_cases phone) as [[_ ->]|[_ H]]; lia. }
  pose proof (@sum_capped _ (fun url => riskScore (analyzeUrl url) / 2)%Z 30%Z
                         (firstn 2 (extractUrls text)) ltac:(lia) Hu) as Bu.
  pose proof (@sum_capped _ (fun phone => riskScore (analyzePhone phone) / 3)%Z 15%Z
                         (firstn 2 (extractPhones text)) ltac:(lia) Hp) as Bp.
  rewrite length_firstn in Bu, Bp.
  assert (Hr : (0 <= sum (map rule_weight (fired_rules (toLowerCase text)))
                <= 249)%Z).
  { unfold fired_rules.
    pose proof (@sum_filter_le _ rule_weight (rule_fires (toLowerCase text))
                               MESSAGE_RULES) as H.
    assert (Hall : sum (map rule_weight MESSAGE_RULES) = 249%Z)
      by (vm_compute; reflexivity).
    rewrite Hall in H. apply H. intros x Hx.
    pose proof (proj1 (Forall_forall _ _) MESSAGE_RULES_weights x Hx) as Hx'.
    cbv beta in Hx'. lia. }
  assert (Nat.min 2 (length (extractUrls text)) <= 2) by lia.
  assert (Nat.min 2 (length (extractPhones text)) <= 2) by lia.
  lia.
Qed.

(** ** The phone analyzer in closed form *)

Lemma score_hit (c : bool) n rule g a :
  acc_score (if c then hit n rule g a else a) = (acc_score a + pts c n)%Z.
Proof. destruct c; cbn; lia. Qed.

Lemma flags_hit (c : bool) n rule g a :
  acc_flags (if c then hit n rule g a else a) = acc_flags a ++ flag_if c g.
Proof. destruct c; cbn; [reflexivity | now rewrite app_nil_r]. Qed.

Lemma details_hit (c : bool) n rule g a :
  acc_details (if c then hit n rule g a else a)
  = acc_details a ++ detail_if c rule g n.
Proof. destruct c; cbn; [reflexivity | now rewrite app_nil_r]. Qed.

(** The next [let] of the analysed accumulator is an unguarded check:
    [S], [F] and [D] give the score, the flags and the details so far. *)
Ltac closed_step S F D :=
  intro_let;
  lazymatch goal with
  | x := ?v : Acc |- _ =>
      let S' := fresh "S" in
      let F' := fresh "F" in
      let D' := fresh "D" in
      assert (S' : acc_score x = acc_score v) by reflexivity;
      assert (F' : acc_flags x = acc_flags v) by reflexivity;
      assert (D' : acc_details x = acc_details v) by reflexivity;
      rewrite ?first_that_existsb, score_hit, S in S';
      rewrite ?first_that_existsb, flags_hit, F in F';
      rewrite ?first_that_existsb, details_hit, D in D';
      clear S F D; rename S' into S; rename F' into F; rename D' into D;
      clearbody x
  | _ => idtac
  end.

Lemma clean_phone_spec phone :
  clean_phone phone = filter (fun c => negb (phone_separator c)) phone.
Proof.
  unfold clean_phone.
  rewrite (@replace_all_unit (rx "[\s\-()]")
             (RegExp.class_matches false false
                [RegExp.CSpace; RegExp.CChar 45; RegExp.CChar 40;
                 RegExp.CChar 41]))
    by (eval_compiled; reflexivity).
  apply filter_ext. intros c. f_equal.
  unfold RegExp.class_matches, phone_separator.
  cbn [xorb existsb RegExp.item_matches RegExp.same_char].
  rewrite orb_false_r, !orb_assoc.
  rewrite (N.eqb_sym 45 c), (N.eqb_sym 40 c), (N.eqb_sym 41 c).
  reflexivity.
Qed.

Lemma analyzePhone_closed phone :
  let clean := clean_phone phone in
  let digits := phone_digits phone in
  let n := length digits in
  let foreign := existsb (fun code => startsWith clean code) FOREIGN_CODES in
  let bad_length := Nat.ltb n 10 || Nat.ltb 15 n in
  let bad_start :=
    Nat.eqb n 10
    && negb (arr_includes (map js ["6"; "7"; "8"; "9"]%string)
                          (firstn 1 digits)) in
  let few := few_distinct digits in
  let run := digit_run digits in
  let a := analyzePhone_acc phone in
  acc_score a
  = (pts foreign 15 + pts bad_length 12 + pts bad_start 20 + pts few 15
     + pts (run && negb few) 12)%Z
  /\ acc_flags a
     = flag_if foreign "foreign_country_code"
       ++ flag_if bad_length "suspicious_number_length"
       ++ flag_if bad_start "invalid_number_pattern"
       ++ flag_if (few || run) "suspicious_repeated_digits"
  /\ acc_details a
     = detail_if foreign "foreign_code" "foreign_country_code" 15
       ++ detail_if bad_length "length_issue" "suspicious_number_length" 12
       ++ detail_if bad_start "invalid_pattern" "invalid_number_pattern" 20
       ++ detail_if few "repeated_digits" "suspicious_repeated_digits" 15
       ++ detail_if (run && negb few) "repeated_sequence"
                    "suspicious_repeated_digits" 12.
Proof.
  cbv zeta.
  lazymatch goal with
  | |- ?s = ?r1 /\ ?f = ?r2 /\ ?d = ?r3 =>
      set (goal := fun a : Acc =>
             acc_score a = r1 /\ acc_flags a = r2 /\ acc_details a = r3)
  end.
  change (goal (analyzePhone_acc phone)).
  cbv beta delta [analyzePhone_acc].
  intro_let.
  assert (S : acc_score a = 0%Z) by (subst a; reflexivity).
  assert (F : acc_flags a = []) by (subst a; reflexivity).
  assert (D : acc_details a = []) by (subst a; reflexivity).
  clearbody a.
  do 7 closed_step S F D.
  intro_let. subst goal. cbv beta. subst a4 lastTen digitsOnly cleanPhone.
  fold (clean_phone phone) in *.
  fold (few_distinct (phone_digits phone)) in *.
  fold (digit_run (phone_digits phone)).
  set (few := few_distinct (phone_digits phone)) in *.
  set (run := digit_run (phone_digits phone)) in *.
  set (foreign := existsb _ FOREIGN_CODES) in *.
  set (bad_length := (_ || _)%bool) in *.
  set (bad_start := (_ && negb (arr_includes (map js _) _))%bool) in *.
  assert (E : arr_includes (acc_flags a3) (js "suspicious_repeated_digits")
              = few).
  { rewrite F.
    destruct foreign, bad_length, bad_start, few; vm_compute; reflexivity. }
  rewrite E.
  destruct run, few; cbn [negb andb orb]; unfold hit, record, add;
    cbn [acc_score acc_flags acc_details]; rewrite ?S, ?F, ?D;
    cbn [app pts flag_if detail_if]; rewrite <- ?app_assoc, ?app_nil_r;
    (split; [unfold pts; lia | split; reflexivity]).
Qed.

(** X6. The result of [analyzePhone] in closed form.  With [clean] the
    number without white space, hyphens and parentheses and [digits] its
    decimal digits, five tests decide everything: [clean] starts with a
    foreign code (15); fewer than 10 or more than 15 digits (12); exactly
    10 digits and the first one not 6, 7, 8 or 9 (20); at most two distinct
    values among the last ten digits (15); the same digit five times in a
    row when the previous test failed (12).  The score is the sum of the
    points, never capped; the flags and the details are those of the
    tests that hold, in this order, and the two repetition tests share one
    flag. *)
Theorem analyzePhone_closed_form (phone : jsstring) :
  let clean := filter (fun c => negb (phone_separator c)) phone in
  let digits := filter is_digit phone in
  let n := length digits in
  let foreign := existsb (fun code => startsWith clean code) FOREIGN_CODES in
  let bad_length := Nat.ltb n 10 || Nat.ltb 15 n in
  let bad_start :=
    Nat.eqb n 10
    && negb (arr_includes (map js ["6"; "7"; "8"; "9"]%string)
                          (firstn 1 digits)) in
  let few := Nat.leb (length (nodup N.eq_dec (slice_last 10 digits))) 2 in
  let run := digit_run digits in
  let score :=
    (pts foreign 15 + pts bad_length 12 + pts bad_start 20 + pts few 15
     + pts (run && negb few) 12)%Z in
  (digit_run digits = true <-> has_digit_run digits)
  /\ analyzePhone phone
     = MkResult score (calculateRiskLevel score)
         (flag_if foreign "foreign_country_code"
          ++ flag_if bad_length "suspicious_number_length"
          ++ flag_if bad_start "invalid_number_pattern"
          ++ flag_if (few || run) "suspicious_repeated_digits")
         (detail_if foreign "foreign_code" "foreign_country_code" 15
          ++ detail_if bad_length "length_issue" "suspicious_number_length" 12
          ++ detail_if bad_start "invalid_pattern" "invalid_number_pattern" 20
          ++ detail_if few "repeated_digits" "suspicious_repeated_digits" 15
          ++ detail_if (run && negb few) "repeated_sequence"
                       "suspicious_repeated_digits" 12)
         None None.
Proof.
  cbv zeta. split; [apply run_pattern_spec|].
  destruct (analyzePhone_closed phone) as (S & F & D). cbv zeta in S, F, D.
  rewrite clean_phone_spec, phone_digits_spec in *.
  unfold few_distinct in *.
  unfold analyzePhone, finish. rewrite S, F, D.
  set (score := (_ + pts (_ && _) 12)%Z).
  assert (Hs : (score <= 100)%Z).
  { subst score.
    unfold pts.
    repeat match goal with
           | |- context [if ?c then _ else _] => destruct c
           end; lia. }
  now rewrite (Z.min_l _ _ Hs).
Qed.

(** X7. What [analyzePhone] never does: its score is at most 50, so a
    phone number is never rated [high_risk]; a score that is not 0 is at
    least 12; [suspicious_number_length] and [invalid_number_pattern] are
    never raised together; there are at most three flags.  The bound 50 is
    reached. *)
Theorem analyzePhone_never_high_risk :
  (forall phone : jsstring,
      let result := analyzePhone phone in
      (0 <= riskScore result <= 50)%Z
      /\ (riskScore result = 0 \/ 12 <= riskScore result)%Z
      /\ riskLevel result <> high_risk
      /\ ~ (In (js "suspicious_number_length") (flags result)
            /\ In (js "invalid_number_pattern") (flags result))
      /\ length (flags result) <= 3)
  /\ riskScore (analyzePhone (js "+1111111111")) = 50%Z.
Proof.
  split; [|vm_compute; reflexivity].
  intros phone. cbv zeta.
  destruct (analyzePhone_closed phone) as (S & F & D). cbv zeta in S, F, D.
  unfold analyzePhone, finish. cbn [riskScore riskLevel flags].
  rewrite F, S.
  set (n := length (phone_digits phone)) in *.
  assert (X : (Nat.ltb n 10 || Nat.ltb 15 n)
              && (Nat.eqb n 10 && negb (arr_includes
                    (map js ["6"; "7"; "8"; "9"]%string)
                    (firstn 1 (phone_digits phone)))) = false).
  { destruct (Nat.eqb n 10) eqn:E; [|now rewrite andb_false_r].
    apply Nat.eqb_eq in E. rewrite E. reflexivity. }
  revert X.
  set (foreign := existsb _ FOREIGN_CODES).
  set (bad_length := (Nat.ltb n 10 || Nat.ltb 15 n)%bool).
  set (bad_start := (Nat.eqb n 10 && _)%bool).
  set (few := few_distinct (phone_digits phone)).
  set (run := digit_run (phone_digits phone)).
  destruct foreign, bad_length, bad_start, few, run; intros X;
    try discriminate X;
    (split; [vm_compute; split; discriminate|]);
    (split; [vm_compute; first [left; reflexivity | right; discriminate]|]);
    (split; [vm_compute; discriminate|]);
    (split; [|cbn; lia]);
    intros [H1 H2]; vm_compute in H1, H2; intuition discriminate.
Qed.

(** ** The URL analyzer in closed form *)

Lemma arr_includes_app l1 l2 x :
  arr_includes (l1 ++ l2) x = arr_includes l1 x || arr_includes l2 x.
Proof. unfold arr_includes. apply existsb_app. Qed.

Lemma arr_includes_flag_if c g x :
  arr_includes (flag_if c g) x = c && JS.eqb x (js g).
Proof. destruct c; cbn; [apply orb_false_r | reflexivity]. Qed.

Lemma length_app_zero {A} (l1 l2 : list A) :
  Nat.eqb (length (l1 ++ l2)) 0
  = Nat.eqb (length l1) 0 && Nat.eqb (length l2) 0.
Proof. destruct l1; reflexivity. Qed.

Lemma length_flag_if_zero c g : Nat.eqb (length (flag_if c g)) 0 = negb c.
Proof. now destruct c. Qed.

Lemma if_nested {A} (c1 c2 : bool) (x y : A) :
  (if c1 then if c2 then x else y else y) = if c1 && c2 then x else y.
Proof. now destruct c1, c2. Qed.

(** The token loop once the flag is there: 12 points for each token that
    occurs, and nothing else. *)
Lemma tokens_seen combined tokens a :
  arr_includes (acc_flags a) (js "suspicious_path_token") = true ->
  acc_score (fold_left (path_token_turn combined) tokens a)
  = (acc_score a
     + 12 * Z.of_nat (length (filter (includes combined) tokens)))%Z
  /\ acc_flags (fold_left (path_token_turn combined) tokens a) = acc_flags a
  /\ acc_details (fold_left (path_token_turn combined) tokens a)
     = acc_details a.
Proof.
  revert a. induction tokens as [|t tokens IH]; intros a Hin.
  - cbn. repeat split. lia.
  - cbn [fold_left filter]. unfold path_token_turn at 2 4 6.
    destruct (includes combined t).
    + cbv zeta. cbn [add acc_flags]. rewrite Hin. cbn [negb].
      destruct (IH (add 12 a) Hin) as (H1 & H2 & H3).
      rewrite H1, H2, H3. cbn [add acc_score acc_flags acc_details length].
      repeat split. lia.
    + apply IH, Hin.
Qed.

(** The token loop from the start. *)
Lemma tokens_closed combined tokens a :
  arr_includes (acc_flags a) (js "suspicious_path_token") = false ->
  let hits := filter (includes combined) tokens in
  let some := negb (Nat.eqb (length hits) 0) in
  acc_score (fold_left (path_token_turn combined) tokens a)
  = (acc_score a + 12 * Z.of_nat (length hits))%Z
  /\ acc_flags (fold_left (path_token_turn combined) tokens a)
     = acc_flags a ++ flag_if some "suspicious_path_token"
  /\ acc_details (fold_left (path_token_turn combined) tokens a)
     = acc_details a
       ++ detail_if some "suspicious_path" "suspicious_path_token" 12.
Proof.
  cbv zeta. revert a. induction tokens as [|t tokens IH]; intros a Hin.
  - cbn. rewrite !app_nil_r. repeat split. lia.
  - cbn [fold_left filter]. unfold path_token_turn at 2 4 6.
    destruct (includes combined t).
    + cbv zeta. cbn [add acc_flags]. rewrite Hin. cbn [negb length Nat.eqb].
      destruct (@tokens_seen combined tokens
                  (record (js "suspicious_path") (js "suspicious_path_token")
                          12 (add 12 a))) as (H1 & H2 & H3).
      { cbn [record acc_flags]. rewrite arr_includes_app.
        apply orb_true_iff. right. vm_compute. reflexivity. }
      rewrite H1, H2, H3.
      cbn [record add acc_score acc_flags acc_details flag_if detail_if].
      repeat split. lia.
    + apply IH, Hin.
Qed.

(** Decide the comparisons of flag names that the goal shows. *)
Ltac eval_flag_tests :=
  repeat match goal with
         | |- context [JS.eqb (js ?x) (js ?y)] =>
             let b := eval vm_compute in (JS.eqb (js x) (js y)) in
             change (JS.eqb (js x) (js y)) with b
         end;
  rewrite ?andb_false_r, ?andb_true_r, ?orb_false_r, ?orb_false_l.

Section UrlClosed.

Context {host : Host}.

Lemma analyzeUrl_closed url :
  let urlLower := toLowerCase url in
  let domain := url_domain url in
  let labels := length (split (ch ".") domain) in
  let ip :=
    RegExp.test (rx "https?:\/\/\d{1,3}\.\d{1,3}\.\d{1,3}\.\d{1,3}") urlLower in
  let puny := includes domain (js "xn--") in
  let userinfo := RegExp.test (rx "@") urlLower in
  let no_tls :=
    startsWith urlLower (js "http://")
    && negb (startsWith urlLower (js "https://")) in
  let tld := existsb (fun tld => endsWith domain tld) SUSPICIOUS_TLDS in
  let shortener :=
    existsb (fun shortener => includes domain shortener) URL_SHORTENERS in
  let brand := brand_spoofed domain in
  let hits :=
    path_tokens_in (snd (url_parts url) ++ js " " ++ urlLower) in
  let token := negb (Nat.eqb (length hits) 0) in
  let subdomains := (3 <=? Z.of_nat labels - 2)%Z in
  let long := Nat.ltb 100 (length url) in
  let random := RegExp.test (rx "[a-z0-9]{15,}") urlLower in
  let weird :=
    negb ip && negb puny && negb userinfo && negb no_tls && negb tld
    && negb shortener && negb brand && negb token && negb subdomains
    && negb long && negb random
    && negb (Nat.eqb (length domain) 0) && Nat.leb 2 labels
    && RegExp.test (rxi "[^a-z0-9.-]") domain in
  let a := analyzeUrl_acc url in
  acc_score a
  = (pts ip 25 + pts puny 20 + pts userinfo 18 + pts no_tls 8 + pts tld 18
     + pts shortener 15 + pts brand 22 + 12 * Z.of_nat (length hits)
     + pts subdomains 12 + pts long 10 + pts random 12 + pts weird 6)%Z
  /\ acc_flags a
     = flag_if ip "ip_based_url" ++ flag_if puny "punycode_domain"
       ++ flag_if userinfo "userinfo_in_url" ++ flag_if no_tls "no_https"
       ++ flag_if tld "suspicious_tld" ++ flag_if shortener "url_shortener"
       ++ flag_if brand "brand_spoofing"
       ++ flag_if token "suspicious_path_token"
       ++ flag_if subdomains "excessive_subdomains"
       ++ flag_if long "suspicious_long_url"
       ++ flag_if random "random_string_url"
       ++ flag_if weird "weird_domain_chars"
  /\ acc_details a
     = detail_if ip "ip_based" "ip_based_url" 25
       ++ detail_if puny "punycode" "punycode_domain" 20
       ++ detail_if userinfo "userinfo" "userinfo_in_url" 18
       ++ detail_if no_tls "no_https" "no_https" 8
       ++ detail_if tld "suspicious_tld" "suspicious_tld" 18
       ++ detail_if shortener "shortener" "url_shortener" 15
       ++ detail_if brand "brand_spoof" "brand_spoofing" 22
       ++ detail_if token "suspicious_path" "suspicious_path_token" 12
       ++ detail_if subdomains "many_subdomains" "excessive_subdomains" 12
       ++ detail_if long "long_url" "suspicious_long_url" 10
       ++ detail_if random "random_string" "random_string_url" 12
       ++ detail_if weird "weird_chars" "weird_domain_chars" 6.
Proof.
  cbv zeta.
  lazymatch goal with
  | |- ?s = ?r1 /\ ?f = ?r2 /\ ?d = ?r3 =>
      set (goal := fun a : Acc =>
             acc_score a = r1 /\ acc_flags a = r2 /\ acc_details a = r3)
  end.
  change (goal (analyzeUrl_acc url)).
  cbv beta delta [analyzeUrl_acc].
  intro_let.
  assert (S : acc_score a = 0%Z) by (subst a; reflexivity).
  assert (F : acc_flags a = []) by (subst a; reflexivity).
  assert (D : acc_details a = []) by (subst a; reflexivity).
  clearbody a.
  do 10 closed_step S F D.
  cbn [app] in F, D.
  intro_let. intro_let.
  destruct (@tokens_closed combinedPath SUSPICIOUS_PATH_TOKENS a6)
    as (S' & F' & D').
  { rewrite F, !arr_includes_app, !arr_includes_flag_if.
    eval_flag_tests. reflexivity. }
  change (fold_left (path_token_turn combinedPath) SUSPICIOUS_PATH_TOKENS a6)
    with a7 in S', F', D'.
  rewrite S in S'. rewrite F in F'. rewrite D in D'.
  clear S F D. rename S' into S. rename F' into F. rename D' into D.
  clearbody a7.
  do 4 closed_step S F D.
  intro_let. subst goal. cbv beta.
  lazymatch goal with
  | x := (if ?c1 then if ?c2 then ?y else ?z else _) : Acc |- _ =>
      assert (E : x = if c1 && c2 then y else z) by apply if_nested;
      clearbody x; subst x
  end.
  rewrite score_hit, flags_hit, details_hit, S, F, D.
  rewrite !length_app_zero, !length_flag_if_zero.
  repeat match goal with x := _ |- _ => subst x end.
  unfold path_tokens_in, brand_spoofed.
  rewrite <- !app_assoc, <- ?andb_assoc.
  split; [lia | split; reflexivity].
Qed.

End UrlClosed.

(** X8. The result of [analyzeUrl] in closed form.  Twelve tests on the
    lower-cased URL, the parsed domain and the path decide everything.
    The flags and the details are those of the tests that hold, in the
    order of the checks, one entry each.  The raw score is the sum of
    their points, except that every path token that occurs adds 12 while
    the tokens share one flag and one entry; the score returned is the raw
    score capped at 100.  The last test, for odd characters in the domain,
    counts only when all the others fail. *)
Theorem analyzeUrl_closed_form :
  forall (host : Host) (url : jsstring),
    let urlLower := toLowerCase url in
    let domain := url_domain url in
    let labels := length (split (ch ".") domain) in
    let ip :=
      RegExp.test (rx "https?:\/\/\d{1,3}\.\d{1,3}\.\d{1,3}\.\d{1,3}")
                  urlLower in
    let puny := includes domain (js "xn--") in
    let userinfo := RegExp.test (rx "@") urlLower in
    let no_tls :=
      startsWith urlLower (js "http://")
      && negb (startsWith urlLower (js "https://")) in
    let tld := existsb (fun tld => endsWith domain tld) SUSPICIOUS_TLDS in
    let shortener :=
      existsb (fun shortener => includes domain shortener) URL_SHORTENERS in
    let brand := brand_spoofed domain in
    let hits :=
      path_tokens_in (snd (url_parts url) ++ js " " ++ urlLower) in
    let token := negb (Nat.eqb (length hits) 0) in
    let subdomains := (3 <=? Z.of_nat labels - 2)%Z in
    let long := Nat.ltb 100 (length url) in
    let random := RegExp.test (rx "[a-z0-9]{15,}") urlLower in
    let weird :=
      negb ip && negb puny && negb userinfo && negb no_tls && negb tld
      && negb shortener && negb brand && negb token && negb subdomains
      && negb long && negb random
      && negb (Nat.eqb (length domain) 0) && Nat.leb 2 labels
      && RegExp.test (rxi "[^a-z0-9.-]") domain in
    let raw :=
      (pts ip 25 + pts puny 20 + pts userinfo 18 + pts no_tls 8 + pts tld 18
       + pts shortener 15 + pts brand 22 + 12 * Z.of_nat (length hits)
       + pts subdomains 12 + pts long 10 + pts random 12 + pts weird 6)%Z in
    analyzeUrl url
    = MkResult (Z.min raw 100) (calculateRiskLevel (Z.min raw 100))
        (flag_if ip "ip_based_url" ++ flag_if puny "punycode_domain"
         ++ flag_if userinfo "userinfo_in_url" ++ flag_if no_tls "no_https"
         ++ flag_if tld "suspicious_tld" ++ flag_if shortener "url_shortener"
         ++ flag_if brand "brand_spoofing"
         ++ flag_if token "suspicious_path_token"
         ++ flag_if subdomains "excessive_subdomains"
         ++ flag_if long "suspicious_long_url"
         ++ flag_if random "random_string_url"
         ++ flag_if weird "weird_domain_chars")
        (detail_if ip "ip_based" "ip_based_url" 25
         ++ detail_if puny "punycode" "punycode_domain" 20
         ++ detail_if userinfo "userinfo" "userinfo_in_url" 18
         ++ detail_if no_tls "no_https" "no_https" 8
         ++ detail_if tld "suspicious_tld" "suspicious_tld" 18
         ++ detail_if shortener "shortener" "url_shortener" 15
         ++ detail_if brand "brand_spoof" "brand_spoofing" 22
         ++ detail_if token "suspicious_path" "suspicious_path_token" 12
         ++ detail_if subdomains "many_subdomains" "excessive_subdomains" 12
         ++ detail_if long "long_url" "suspicious_long_url" 10
         ++ detail_if random "random_string" "random_string_url" 12
         ++ detail_if weird "weird_chars" "weird_domain_chars" 6)
        None None.
Proof.
  intros host url. cbv zeta.
  destruct (analyzeUrl_closed url) as (S & F & D). cbv zeta in S, F, D.
  unfold analyzeUrl, finish. rewrite S, F, D. reflexivity.
Qed.

Lemma pts_cases (c : bool) (n : Z) : pts c n = 0%Z \/ pts c n = n.
Proof. destruct c; auto. Qed.

(** X9. [weird_domain_chars] is raised only alone: when it is among the
    flags it is the only flag, the score is 6 and the level is [safe];
    and a score of 6 means exactly this flag.  A domain with a blank in it
    is an example. *)
Theorem weird_domain_chars_only_alone :
  (forall (host : Host) (url : jsstring),
      let result := analyzeUrl url in
      let weird := js "weird_domain_chars" in
      (In weird (flags result)
       <-> result
           = MkResult 6 safe [weird]
               [Detail.Make (js "weird_chars") weird 6] None None)
      /\ (In weird (flags result) <-> riskScore result = 6%Z)
      /\ (In weird (flags result) ->
          url_domain url <> []
          /\ 2 <= length (split (ch ".") (url_domain url))
          /\ RegExp.test (rxi "[^a-z0-9.-]") (url_domain url) = true))
  /\ In (js "weird_domain_chars")
        (flags (@analyzeUrl Reference.host (js "exa mple.com"))).
Proof.
  split; [|vm_compute; auto].
  intros host url. cbv zeta.
  destruct (analyzeUrl_closed url) as (S & F & D). cbv zeta in S, F, D.
  unfold analyzeUrl, finish. cbn [flags riskScore].
  set (A := analyzeUrl_acc url) in *.
  assert (HW : In (js "weird_domain_chars") (acc_flags A)
               <-> arr_includes (acc_flags A) (js "weird_domain_chars") = true)
    by (symmetry; apply arr_includes_In).
  rewrite F, !arr_includes_app, !arr_includes_flag_if in HW.
  revert HW. eval_flag_tests. intros HW. rewrite <- F in HW.
  set (n := length (path_tokens_in _)) in *.
  set (ip := RegExp.test (rx "https?:\/\/\d{1,3}\.\d{1,3}\.\d{1,3}\.\d{1,3}") _) in *.
  set (puny := includes _ (js "xn--")) in *.
  set (userinfo := RegExp.test (rx "@") _) in *.
  set (no_tls := (startsWith _ _ && _)%bool) in *.
  set (tld := existsb _ SUSPICIOUS_TLDS) in *.
  set (shortener := existsb _ URL_SHORTENERS) in *.
  set (brand := brand_spoofed _) in *.
  set (subdomains := (3 <=? _)%Z) in *.
  set (long := Nat.ltb 100 _) in *.
  set (random := RegExp.test (rx "[a-z0-9]{15,}") _) in *.
  set (odd := RegExp.test (rxi "[^a-z0-9.-]") _) in *.
  clearbody A ip puny userinfo no_tls tld shortener brand subdomains long
            random n.
  revert S F D HW.
  lazymatch goal with
  | |- context [flag_if ?w "weird_domain_chars"] => destruct w eqn:EW
  end; intros S F D HW.
  - repeat (apply andb_true_iff in EW; let H := fresh "H" in
            destruct EW as [EW H]).
    rewrite negb_true_iff in *. subst.
    assert (n = 0) by (destruct n; [reflexivity | discriminate]). subst n.
    assert (Hd : url_domain url <> []).
    { intros E. rewrite E in *. discriminate. }
    assert (H2 : 2 <= length (split (ch ".") (url_domain url)))
      by now apply Nat.leb_le.
    rewrite S, F, D. cbn [pts flag_if detail_if app Z.of_nat negb Nat.eqb].
    split; [split; [reflexivity | intros _; now left]|].
    split; [split; [reflexivity | intros _; now left]|].
    intros _. auto.
  - assert (Hno : ~ In (js "weird_domain_chars") (acc_flags A))
      by (intros X; apply HW in X; discriminate X).
    split; [split; [tauto|]|split; [split; [tauto|]|tauto]].
    + intros E. exfalso. apply Hno.
      assert (E' : acc_flags A = [js "weird_domain_chars"])
        by (injection E; auto).
      rewrite E'. left. reflexivity.
    + intros E. exfalso. rewrite S in E. clear - E.
      pose proof (pts_cases ip 25). pose proof (pts_cases puny 20).
      pose proof (pts_cases userinfo 18). pose proof (pts_cases no_tls 8).
      pose proof (pts_cases tld 18). pose proof (pts_cases shortener 15).
      pose proof (pts_cases brand 22). pose proof (pts_cases subdomains 12).
      pose proof (pts_cases long 10). pose proof (pts_cases random 12).
      change (pts false 6) with 0%Z in E.
      assert (Hn : (Z.of_nat n = 0 \/ 1 <= Z.of_nat n)%Z) by lia.
      lia.
Qed.

(** X10. The score of a URL and its detail entries.  The path tokens
    share one flag and one entry of 12 points, but each token that
    occurs in the path or the URL adds 12 to the score: the score
    returned is the points of the entries plus 12 for each further
    token, capped at 100.  With at most one token the entries account
    for the whole score; [https://example.com/login/verify] has two
    tokens, one entry of 12 points and the score 24. *)
Theorem url_score_exceeds_details_by_tokens :
  (forall (host : Host) (url : jsstring),
      let hits :=
        path_tokens_in (snd (url_parts url) ++ js " " ++ toLowerCase url) in
      let result := analyzeUrl url in
      let listed := sum (map Detail.points (details result)) in
      riskScore result
      = Z.min (listed + 12 * Z.of_nat (pred (length hits))) 100
      /\ (In (js "suspicious_path_token") (flags result) <-> hits <> [])
      /\ (length hits <= 1 -> riskScore result = Z.min listed 100)
      /\ (Z.min listed 100 <= riskScore result)%Z)
  /\ (let result :=
        @analyzeUrl Reference.host (js "https://example.com/login/verify") in
      riskScore result = 24%Z
      /\ details result
         = [Detail.Make (js "suspicious_path") (js "suspicious_path_token")
                        12]).
Proof.
  split; [|vm_compute; auto].
  intros host url. cbv zeta.
  pose proof (paid_eq (analyzeUrl_Paid url)) as P. cbv zeta in P.
  destruct (analyzeUrl_closed url) as (_ & F & _). cbv zeta in F.
  unfold analyzeUrl, finish. cbn [riskScore details flags].
  rewrite P.
  set (hits := path_tokens_in _) in *.
  split; [reflexivity|]. split; [|split].
  - rewrite <- arr_includes_In, F, !arr_includes_app, !arr_includes_flag_if.
    eval_flag_tests.
    destruct hits; cbn; split; congruence.
  - intros H. destruct (length hits) as [|[|n]]; [| |lia];
      cbn [pred Z.of_nat]; f_equal; lia.
  - lia.
Qed.

(** ** What the flags of a URL mean *)

(** A one-unit pattern is found where some unit satisfies it. *)
Lemma test_unit re p s :
  unit_of (RegExp.ignoreCase re) (RegExp.compiled re) = Some p ->
  RegExp.test re s = existsb p s.
Proof.
  intros Hu. unfold RegExp.test.
  pose proof (@search_unit _ _ _ Hu None s) as H.
  destruct (RegExp.search _ _ None s) as [[[skipped m] st]|].
  - destruct H as (x & -> & _ & Hx & _). symmetry.
    apply existsb_exists. exists x. split; [|exact Hx].
    apply in_or_app. right. now left.
  - symmetry. apply not_true_iff_false. intros E.
    apply existsb_exists in E. destruct E as (x & Hin & Hx).
    rewrite forallb_forall in H. apply H in Hin. now rewrite Hx in Hin.
Qed.

Lemma split_length sep s :
  length (split sep s) = S (count_occ N.eq_dec s sep).
Proof.
  induction s as [|x s IH]; [reflexivity|]. cbn [split count_occ].
  destruct (N.eqb_spec x sep) as [E|E].
  - destruct (N.eq_dec x sep); [|contradiction]. cbn [length]. now rewrite IH.
  - destruct (N.eq_dec x sep); [contradiction|].
    destruct (split sep s); [discriminate IH | exact IH].
Qed.

Lemma http_is_not_https s :
  startsWith s (js "http://") = true -> startsWith s (js "https://") = false.
Proof.
  let l := eval vm_compute in (js "http://") in change (js "http://") with l.
  let l := eval vm_compute in (js "https://") in change (js "https://") with l.
  destruct s as [|a [|b [|c [|d [|e s]]]]]; cbn [startsWith];
    rewrite ?andb_false_r; try discriminate.
  intros H. do 4 (apply andb_prop in H; destruct H as [_ H]).
  apply andb_prop in H. destruct H as [H _].
  apply N.eqb_eq in H. subst e. cbn. now rewrite !andb_false_r.
Qed.

Lemma lower_alnum_class x :
  RegExp.class_matches false false
    [RegExp.CRange 97 122; RegExp.CRange 48 57] x
  = lower_alnum x.
Proof.
  unfold RegExp.class_matches, lower_alnum, is_digit.
  cbn [xorb existsb RegExp.item_matches]. unfold RegExp.in_range.
  cbn [andb]. now rewrite !orb_false_r.
Qed.

Lemma random_pattern_spec s :
  RegExp.test (rx "[a-z0-9]{15,}") s = true
  <-> exists pre w post,
      s = pre ++ w ++ post /\ 15 <= length w /\ forallb lower_alnum w = true.
Proof.
  rewrite test_plain by (vm_compute; reflexivity).
  let r := eval vm_compute in (RegExp.compiled (rx "[a-z0-9]{15,}")) in
  change (RegExp.compiled (rx "[a-z0-9]{15,}")) with r.
  cbn [RegExp.ignoreCase rx Lang unit_of].
  split; intros (pre & w & post & -> & Hl & Hw); exists pre, w, post.
  - destruct Hw as [_ Hw].
    rewrite (forallb_eq _ _ w lower_alnum_class) in Hw. auto.
  - rewrite (forallb_eq _ _ w lower_alnum_class). auto.
Qed.

(** X11. What nine of the flags of [analyzeUrl] mean, in terms of the
    lower-cased URL, the parsed domain and the path.  [no_https]: the URL
    starts with [http://] (the second half of the test in the code never
    decides).  [userinfo_in_url]: an [@] occurs anywhere in the URL.
    [punycode_domain], [suspicious_tld], [url_shortener]: the domain
    contains [xn--], ends with a listed ending, contains a listed
    shortener.  [suspicious_path_token]: a listed token occurs in the path
    or anywhere in the URL.  [excessive_subdomains]: the domain has at
    least four dots.  [suspicious_long_url]: more than 100 code units.
    [random_string_url]: fifteen lower-case letters or digits in a row
    somewhere in the URL. *)
Theorem url_flags_meaning :
  forall (host : Host) (url : jsstring),
    let urlLower := toLowerCase url in
    let domain := url_domain url in
    let combined := snd (url_parts url) ++ js " " ++ urlLower in
    let raised f := In (js f) (flags (analyzeUrl url)) in
    (raised "no_https"%string <-> startsWith urlLower (js "http://") = true)
    /\ (raised "userinfo_in_url"%string <-> In (ch "@") urlLower)
    /\ (raised "punycode_domain"%string <-> includes domain (js "xn--") = true)
    /\ (raised "suspicious_tld"%string
        <-> exists tld, In tld SUSPICIOUS_TLDS /\ endsWith domain tld = true)
    /\ (raised "url_shortener"%string
        <-> exists shortener,
            In shortener URL_SHORTENERS
            /\ includes domain shortener = true)
    /\ (raised "suspicious_path_token"%string
        <-> exists token,
            In token SUSPICIOUS_PATH_TOKENS
            /\ includes combined token = true)
    /\ (raised "excessive_subdomains"%string
        <-> 4 <= count_occ N.eq_dec domain (ch "."))
    /\ (raised "suspicious_long_url"%string <-> 100 < length url)
    /\ (raised "random_string_url"%string
        <-> exists pre w post,
            urlLower = pre ++ w ++ post
            /\ 15 <= length w /\ forallb lower_alnum w = true).
Proof.
  intros host url. cbv zeta.
  destruct (analyzeUrl_closed url) as (_ & F & _). cbv zeta in F.
  unfold analyzeUrl, finish. cbn [flags]. rewrite F.
  split; [|split; [|split; [|split; [|split; [|split; [|split; [|split]]]]]]];
    rewrite <- arr_includes_In, !arr_includes_app, !arr_includes_flag_if;
    eval_flag_tests.
  - split; intros H.
    + now apply andb_prop in H.
    + rewrite H. now rewrite (http_is_not_https _ H).
  - rewrite (@test_unit (rx "@") (RegExp.same_char false 64))
      by (eval_compiled; reflexivity).
    rewrite existsb_exists. split.
    + intros (x & Hin & Hx). apply N.eqb_eq in Hx. now subst x.
    + intros H. exists (ch "@"). split; [exact H | reflexivity].
  - reflexivity.
  - apply existsb_exists.
  - apply existsb_exists.
  - rewrite negb_true_iff, Nat.eqb_neq. unfold path_tokens_in.
    rewrite length_zero_iff_nil. split.
    + intros H.
      destruct (filter _ SUSPICIOUS_PATH_TOKENS) as [|t l] eqn:E;
        [contradiction|].
      assert (Hin : In t (t :: l)) by now left.
      rewrite <- E in Hin. apply filter_In in Hin. now exists t.
    + intros (t & Hin & Ht) E.
      assert (Hf : In t (filter (includes (snd (url_parts url) ++ js " "
                                           ++ toLowerCase url))
                                SUSPICIOUS_PATH_TOKENS))
        by (apply filter_In; auto).
      rewrite E in Hf. destruct Hf.
  - rewrite Z.leb_le, split_length. lia.
  - apply Nat.ltb_lt.
  - apply random_pattern_spec.
Qed.

(** ** The input handler *)

Lemma filter_none {A} (p : A -> bool) l :
  forallb (fun x => negb (p x)) l = true -> filter p l = [].
Proof.
  induction l as [|x l IH]; cbn [forallb filter]; [reflexivity|].
  intros H. apply andb_prop in H. destruct H as [Hx Hl].
  apply negb_true_iff in Hx. rewrite Hx. now apply IH.
Qed.

(** The matches of a one-unit pattern are the units that satisfy it, in
    order. *)
Lemma scan_unit_matches icase r p fuel :
  unit_of icase r = Some p ->
  forall before s,
    length s < fuel ->
    map snd (fst (RegExp.scan fuel icase r before s))
    = map (fun x => [x]) (filter p s).
Proof.
  intros Hu. induction fuel as [|fuel IH]; intros before s Hlen; [lia|].
  cbn [RegExp.scan].
  pose proof (@search_unit _ _ _ Hu before s) as Hs.
  destruct (RegExp.search icase r before s) as [[[skipped m] st]|].
  - destruct Hs as (x & -> & Hsk & Hx & ->).
    specialize (IH (RegExp.prev st) (RegExp.rest st)).
    destruct (RegExp.scan fuel icase r (RegExp.prev st) (RegExp.rest st))
      as [ms tail].
    cbn [fst map snd] in *.
    rewrite filter_app, (filter_none _ _ Hsk). cbn [app filter].
    rewrite Hx. cbn [map]. f_equal. apply IH.
    rewrite length_app in Hlen. cbn [length] in Hlen. lia.
  - cbn [fst map]. now rewrite (filter_none _ _ Hs).
Qed.

Lemma match_all_unit re p s :
  unit_of (RegExp.ignoreCase re) (RegExp.compiled re) = Some p ->
  RegExp.match_all re s = map (fun x => [x]) (filter p s).
Proof.
  intros Hu. unfold RegExp.match_all.
  apply scan_unit_matches; [exact Hu | lia].
Qed.

Lemma devanagari_class x :
  RegExp.class_matches false false [RegExp.CRange 2304 2431] x
  = devanagari x.
Proof.
  unfold RegExp.class_matches, devanagari.
  cbn [xorb existsb RegExp.item_matches]. unfold RegExp.in_range.
  cbn [andb]. now rewrite !orb_false_r.
Qed.

Lemma ascii_letter_class x :
  RegExp.class_matches false false
    [RegExp.CRange 97 122; RegExp.CRange 65 90] x
  = ascii_letter x.
Proof.
  unfold RegExp.class_matches, ascii_letter.
  cbn [xorb existsb RegExp.item_matches]. unfold RegExp.in_range.
  cbn [andb]. now rewrite !orb_false_r.
Qed.

(** X12. [detectLanguage] by counts.  With [h] the number of code units
    of the Devanagari block and [e] the number of ASCII letters in the
    text, the answer is [english] exactly when [h] is 0, [hindi] exactly
    when [h] exceeds [e], and [hinglish] in between; nothing else in the
    text matters. *)
Theorem detectLanguage_by_counts :
  forall text : jsstring,
    let h := length (filter devanagari text) in
    let e := length (filter ascii_letter text) in
    (detectLanguage text = english <-> h = 0)
    /\ (detectLanguage text = hindi <-> e < h)
    /\ (detectLanguage text = hinglish <-> 0 < h <= e).
Proof.
  intros text. cbv zeta. unfold detectLanguage.
  rewrite (@match_all_unit (rx "[\u0900-\u097F]")
             (RegExp.class_matches false false [RegExp.CRange 2304 2431]))
    by (eval_compiled; reflexivity).
  rewrite (@match_all_unit (rx "[a-zA-Z]")
             (RegExp.class_matches false false
                [RegExp.CRange 97 122; RegExp.CRange 65 90]))
    by (eval_compiled; reflexivity).
  rewrite !length_map.
  rewrite (filter_ext _ _ devanagari_class).
  rewrite (filter_ext _ _ ascii_letter_class).
  set (h := length (filter devanagari text)).
  set (e := length (filter ascii_letter text)).
  destruct (Nat.eqb_spec (h + e) 0) as [E0|E0].
  - repeat split; intros; try discriminate; lia.
  - destruct (Nat.ltb_spec e h) as [L|L].
    + repeat split; intros; try discriminate; lia.
    + destruct (Nat.ltb_spec 0 h) as [Lh|Lh];
        destruct (Nat.ltb_spec 0 e) as [Le|Le]; cbn [andb];
        repeat split; intros; try discriminate; lia.
Qed.

(** ** What the matcher returns *)

Section MatcherSound.

Variable icase : bool.

(** The loop of a quantifier ends in a state that the iterations of its
    body reach. *)
Lemma rep_loop_sound body (R : RegExp.mstate -> RegExp.mstate -> Prop)
      lo hi k :
  (forall st k' res, body st k' = Some res ->
                     exists st', R st st' /\ k' st' = Some res) ->
  forall fuel count st res,
    RegExp.rep_loop body lo hi k fuel count st = Some res ->
    exists st', Iter R lo hi count st st' /\ k st' = Some res.
Proof.
  intros Hbody.
  assert (Hstop : forall count st res,
             (if Nat.leb lo count then k st else None) = Some res ->
             exists st', Iter R lo hi count st st' /\ k st' = Some res).
  { intros count st res H. destruct (Nat.leb lo count) eqn:E; [|discriminate].
    exists st. split; [|exact H]. apply Iter_stop. now apply Nat.leb_le. }
  induction fuel as [|fuel IH]; intros count st res; cbn [RegExp.rep_loop];
    [apply Hstop|].
  set (allowed := match hi with
                  | Some h => Nat.ltb count h
                  | None => true
                  end).
  set (k' := fun st' =>
               if Nat.leb lo count
                  && Nat.eqb (length (RegExp.rest st'))
                             (length (RegExp.rest st))
               then None
               else RegExp.rep_loop body lo hi k fuel (S count) st').
  destruct (if allowed then body st k' else None) as [r|] eqn:Emore;
    [|apply Hstop].
  intros E. injection E as ->.
  destruct allowed eqn:Ea; [|discriminate].
  apply Hbody in Emore. destruct Emore as (st1 & HR & Hk1).
  subst k'. cbv beta in Hk1.
  destruct (Nat.leb lo count
            && Nat.eqb (length (RegExp.rest st1))
                       (length (RegExp.rest st))) eqn:Ec; [discriminate|].
  apply IH in Hk1. destruct Hk1 as (st' & Hi & Hk).
  exists st'. split; [|exact Hk].
  apply Iter_more with st1; try assumption.
  - subst allowed. destruct hi; [now apply Nat.ltb_lt | exact I].
  - intros [H1 H2]. apply Nat.leb_le in H1. apply Nat.eqb_eq in H2.
    rewrite H1, H2 in Ec. discriminate.
Qed.

(** The state that the matcher returns is one at which the pattern has
    matched and the continuation has returned it. *)
Theorem run_sound r :
  forall st k res,
    RegExp.run icase r st k = Some res ->
    exists st', Matches icase r st st' /\ k st' = Some res.
Proof.
  assert (Heat : forall (p : N -> bool) st k res,
             RegExp.eat p st k = Some res ->
             exists st',
               (exists x xs, RegExp.rest st = x :: xs /\ p x = true
                             /\ st' = RegExp.step st x xs)
               /\ k st' = Some res).
  { intros p st k res. unfold RegExp.eat.
    destruct (RegExp.rest st) as [|x xs]; [discriminate|].
    destruct (p x) eqn:E; [|discriminate].
    intros H. exists (RegExp.step st x xs). split; [|exact H].
    now exists x, xs. }
  induction r as [ | c | | neg items | r1 IH1 r2 IH2 | r1 IH1 r2 IH2
                 | lo hi r1 IH1 | n r1 IH1 | n | | | ];
    intros st k res; cbn [RegExp.run Matches].
  - intros H. now exists st.
  - apply Heat.
  - intros H. apply Heat in H.
    destruct H as (st' & (x & xs & E & Hp & ->) & Hk).
    exists (RegExp.step st x xs). split; [|exact Hk].
    exists x, xs. repeat split; try assumption. now apply negb_true_iff.
  - apply Heat.
  - intros H. apply IH1 in H. destruct H as (st1 & H1 & H2).
    apply IH2 in H2. destruct H2 as (st' & H2 & Hk).
    exists st'. split; [now exists st1 | exact Hk].
  - destruct (RegExp.run icase r1 st k) as [r|] eqn:E.
    + intros H. injection H as ->. apply IH1 in E.
      destruct E as (st' & H1 & Hk). exists st'. tauto.
    + intros H. apply IH2 in H. destruct H as (st' & H2 & Hk).
      exists st'. tauto.
  - apply rep_loop_sound. exact IH1.
  - intros H. apply IH1 in H. destruct H as (st1 & H1 & Hk).
    eexists. split; [|exact Hk]. exists st1. split; [exact H1 | reflexivity].
  - destruct (RegExp.get_cap n (RegExp.caps st)) as [w|].
    + destruct (RegExp.eat_string icase w st) as [st1|]; [|discriminate].
      intros H. now exists st1.
    + intros H. now exists st.
  - destruct (xorb _ _); [|discriminate]. intros H. exists st. tauto.
  - destruct (RegExp.prev st); [discriminate|]. intros H. exists st. tauto.
  - destruct (RegExp.rest st); [|discriminate]. intros H. exists st. tauto.
Qed.

Lemma match_here_sound r before s st' :
  RegExp.match_here icase r before s = Some st' ->
  Matches icase r (RegExp.MState before s []) st'.
Proof.
  unfold RegExp.match_here. intros H. apply run_sound in H.
  destruct H as (st1 & H & E). now injection E as ->.
Qed.

Lemma firstn_length_app {A} (w l : list A) :
  firstn (length (w ++ l) - length l) (w ++ l) = w.
Proof.
  rewrite length_app. replace (length w + length l - length l) with (length w)
    by lia.
  induction w as [|x w IH]; cbn [length app firstn].
  - now destruct l.
  - now rewrite IH.
Qed.

Variable r : RegExp.regex.
Hypothesis r_plain : plain r = true.

Lemma found_here before s st0 :
  RegExp.match_here icase r before s = Some st0 ->
  s = firstn (length s - length (RegExp.rest st0)) s ++ RegExp.rest st0
  /\ Lang icase r (firstn (length s - length (RegExp.rest st0)) s).
Proof.
  intros E. apply match_here_sound, (Matches_plain _ _ r_plain) in E.
  destruct E as (w & L & Hr & _). cbn [RegExp.rest] in Hr. subst s.
  rewrite firstn_length_app. auto.
Qed.

(** What a search for a plain pattern finds is one of its words, between
    the text skipped and the text left. *)
Lemma search_plain s :
  forall before skipped m st,
    RegExp.search icase r before s = Some (skipped, m, st) ->
    s = skipped ++ m ++ RegExp.rest st /\ Lang icase r m.
Proof.
  induction s as [|x s IH]; intros before skipped m st;
    cbn [RegExp.search];
    destruct (RegExp.match_here icase r _ _) as [st0|] eqn:E.
  - intros H. injection H as <- <- <-. now apply found_here in E.
  - discriminate.
  - intros H. injection H as <- <- <-. now apply found_here in E.
  - destruct (RegExp.search icase r (Some x) s) as [[[sk m0] st0]|] eqn:Es;
      [|discriminate].
    intros H. injection H as <- <- <-.
    apply IH in Es. destruct Es as [-> L]. auto.
Qed.

Lemma scan_plain fuel :
  forall before s,
    Forall (fun sm => Lang icase r (snd sm))
           (fst (RegExp.scan fuel icase r before s)).
Proof.
  induction fuel as [|fuel IH]; intros before s; cbn [RegExp.scan];
    [constructor|].
  destruct (RegExp.search icase r before s) as [[[skipped m] st]|] eqn:Es;
    [|constructor].
  apply search_plain in Es. destruct Es as [_ L].
  destruct m as [|y m].
  - destruct (RegExp.rest st) as [|x xs].
    + repeat constructor. exact L.
    + specialize (IH (Some x) xs).
      destruct (RegExp.scan fuel icase r (Some x) xs) as [ms tail].
      cbn [fst] in IH. destruct ms as [|[sk m'] ms'].
      * repeat constructor. exact L.
      * inversion IH; subst. cbn [fst]. repeat constructor; assumption.
  - specialize (IH (RegExp.prev st) (RegExp.rest st)).
    destruct (RegExp.scan fuel icase r (RegExp.prev st) (RegExp.rest st))
      as [ms tail].
    cbn [fst] in *. constructor; assumption.
Qed.

End MatcherSound.

(** Every match of a plain [g] pattern is one of its words. *)
Lemma match_all_plain re s m :
  plain (RegExp.compiled re) = true ->
  In m (RegExp.match_all re s) ->
  Lang (RegExp.ignoreCase re) (RegExp.compiled re) m.
Proof.
  intros Hp Hin. unfold RegExp.match_all in Hin.
  apply in_map_iff in Hin. destruct Hin as ([sk m'] & <- & Hin).
  pose proof (@scan_plain (RegExp.ignoreCase re) (RegExp.compiled re) Hp
                (S (length s)) None s) as H.
  rewrite Forall_forall in H. exact (H _ Hin).
Qed.

Lemma filter_all {A} (p : A -> bool) l :
  forallb p l = true -> filter p l = l.
Proof.
  induction l as [|x l IH]; cbn [forallb filter]; [reflexivity|].
  intros H. apply andb_prop in H. destruct H as [Hx Hl].
  rewrite Hx. f_equal. now apply IH.
Qed.

(** X13. The phone numbers that [extractPhones] finds in a text are an
    optional [+] followed by ten to thirteen decimal digits and nothing
    else.  So the phone analyzer sees exactly these digits, and an
    embedded phone number never gets [suspicious_number_length]. *)
Theorem extracted_phones_shape :
  forall (text phone : jsstring),
    In phone (extractPhones text) ->
    exists digits,
      (phone = digits \/ phone = ch "+" :: digits)
      /\ 10 <= length digits <= 13
      /\ forallb is_digit digits = true
      /\ phone_digits phone = digits
      /\ ~ In (js "suspicious_number_length") (flags (analyzePhone phone)).
Proof.
  intros text phone Hin. unfold extractPhones in Hin. cbv zeta in Hin.
  apply match_all_plain in Hin; [|vm_compute; reflexivity].
  revert Hin.
  let c := eval vm_compute in (RegExp.compiled (rx "[+]?[0-9]{10,13}")) in
  change (RegExp.compiled (rx "[+]?[0-9]{10,13}")) with c.
  cbn [RegExp.ignoreCase rx Lang unit_of].
  intros (w1 & digits & -> & (_ & Hl1 & Hp1) & (Hlo & Hhi & Hd)).
  assert (Hdig : forallb is_digit digits = true).
  { erewrite forallb_eq; [exact Hd|]. intros x.
    unfold RegExp.class_matches, is_digit.
    cbn [xorb existsb RegExp.item_matches]. unfold RegExp.in_range.
    cbn [andb]. now rewrite !orb_false_r. }
  assert (Hw1 : w1 = [] \/ w1 = [ch "+"]).
  { destruct w1 as [|x [|y w1]]; cbn [length] in Hl1; [now left| |lia].
    right. cbn [forallb] in Hp1. rewrite andb_true_r in Hp1.
    unfold RegExp.class_matches in Hp1.
    cbn [xorb existsb RegExp.item_matches RegExp.same_char] in Hp1.
    rewrite orb_false_r in Hp1. apply N.eqb_eq in Hp1. now subst x. }
  assert (Hpd : phone_digits (w1 ++ digits) = digits).
  { rewrite phone_digits_spec, filter_app, (filter_all _ _ Hdig).
    destruct Hw1 as [->| ->]; reflexivity. }
  exists digits. split; [destruct Hw1 as [->| ->]; auto|].
  split; [lia|]. split; [exact Hdig|]. split; [exact Hpd|].
  destruct (analyzePhone_closed (w1 ++ digits)) as (_ & F & _).
  cbv zeta in F. unfold analyzePhone, finish. cbn [flags].
  rewrite F, Hpd, <- arr_includes_In, !arr_includes_app,
    !arr_includes_flag_if.
  eval_flag_tests.
  destruct (Nat.ltb_spec (length digits) 10); [lia|].
  destruct (Nat.ltb_spec 15 (length digits)); [lia|]. discriminate.
Qed.

Lemma extracted_phones_shape_witness :
  In (js "9876543210") (extractPhones (js "Call 98765 43210 now"))
  /\ exists digits,
      (js "9876543210" = digits \/ js "9876543210" = ch "+" :: digits)
      /\ 10 <= length digits <= 13
      /\ forallb is_digit digits = true
      /\ phone_digits (js "9876543210") = digits
      /\ ~ In (js "suspicious_number_length")
              (flags (analyzePhone (js "9876543210"))).
Proof.
  assert (H : In (js "9876543210")
                 (extractPhones (js "Call 98765 43210 now")))
    by (vm_compute; auto).
  split; [exact H|].
  exact (extracted_phones_shape (js "Call 98765 43210 now") (js "9876543210") H).
Defined.

(** ** Normalizing the input *)

Lemma take_drop_while p s : s = take_while p s ++ drop_while p s.
Proof.
  induction s as [|x s IH]; [reflexivity|]. cbn [take_while drop_while].
  destruct (p x); [cbn [app]; now f_equal | reflexivity].
Qed.

Lemma take_while_ext p q s :
  (forall x, p x = q x) -> take_while p s = take_while q s.
Proof.
  intros E. induction s as [|x s IH]; [reflexivity|]. cbn [take_while].
  now rewrite E, IH.
Qed.

Lemma drop_while_ext p q s :
  (forall x, p x = q x) -> drop_while p s = drop_while q s.
Proof.
  intros E. induction s as [|x s IH]; [reflexivity|]. cbn [drop_while].
  now rewrite E, IH.
Qed.

Lemma drop_while_length p s : length (drop_while p s) <= length s.
Proof.
  induction s as [|x s IH]; [reflexivity|]. cbn [drop_while].
  destruct (p x); cbn [length]; lia.
Qed.

Lemma firstn_take_while p s :
  firstn (length (take_while p s)) s = take_while p s.
Proof.
  induction s as [|x s IH]; [reflexivity|]. cbn [take_while].
  destruct (p x); [cbn [length firstn]; now f_equal | reflexivity].
Qed.

Lemma unit_before_some before x w :
  unit_before before (x :: w) = unit_before None (x :: w).
Proof. now rewrite !unit_before_cons. Qed.

(** A quantified unit with no upper bound takes all the units it can. *)
Lemma rep_eat_greedy (p : N -> bool) lo :
  forall fuel count st,
    length (RegExp.rest st) < fuel ->
    RegExp.rep_loop (fun st k => RegExp.eat p st k) lo None Some fuel count st
    = if Nat.leb lo (count + length (take_while p (RegExp.rest st)))
      then Some (RegExp.MState
                   (unit_before (RegExp.prev st)
                                (take_while p (RegExp.rest st)))
                   (drop_while p (RegExp.rest st)) (RegExp.caps st))
      else None.
Proof.
  induction fuel as [|fuel IH]; intros count st Hlen; [lia|].
  cbn [RegExp.rep_loop]. unfold RegExp.eat at 1.
  destruct st as [prev rest caps]. cbn [RegExp.rest RegExp.prev RegExp.caps] in *.
  destruct rest as [|x xs].
  - cbn [take_while drop_while length]. rewrite Nat.add_0_r. reflexivity.
  - cbn [take_while drop_while]. destruct (p x) eqn:Hp.
    + cbn [RegExp.step RegExp.rest RegExp.caps length].
      replace (Nat.eqb (length xs) (S (length xs))) with false
        by (symmetry; apply Nat.eqb_neq; lia).
      rewrite andb_false_r, IH
        by (unfold RegExp.step; cbn [RegExp.rest length] in *; lia).
      unfold RegExp.step. cbn [RegExp.rest RegExp.prev RegExp.caps].
      rewrite unit_before_cons.
      replace (count + S (length (take_while p xs)))
        with (S count + length (take_while p xs)) by lia.
      destruct (Nat.leb_spec lo (S count + length (take_while p xs)));
        [reflexivity|].
      destruct (Nat.leb_spec lo count); [lia | reflexivity].
    + cbn [length]. rewrite Nat.add_0_r. reflexivity.
Qed.

Lemma space_class icase x :
  RegExp.class_matches icase false [RegExp.CSpace] x = is_space x.
Proof.
  unfold RegExp.class_matches. cbn [xorb existsb RegExp.item_matches].
  apply orb_false_r.
Qed.

Section Spaces.

Variable icase : bool.

Lemma match_here_spaces before s :
  RegExp.match_here icase (RegExp.Rep 1 None (RegExp.Class false [RegExp.CSpace])) before s
  = match take_while is_space s with
    | [] => None
    | w => Some (RegExp.MState (unit_before before w)
                               (drop_while is_space s) [])
    end.
Proof.
  unfold RegExp.match_here. cbn [RegExp.run].
  change (RegExp.run icase (RegExp.Class false [RegExp.CSpace]))
    with (fun st k =>
            RegExp.eat (RegExp.class_matches icase false [RegExp.CSpace])
                       st k).
  rewrite rep_eat_greedy by (cbn [RegExp.rest]; lia).
  cbn [RegExp.rest RegExp.prev RegExp.caps].
  rewrite (take_while_ext _ _ s (space_class icase)),
    (drop_while_ext _ _ s (space_class icase)).
  destruct (take_while is_space s); reflexivity.
Qed.

Lemma search_spaces s :
  forall before,
    RegExp.search icase (RegExp.Rep 1 None (RegExp.Class false [RegExp.CSpace])) before s
    = match drop_while (fun x => negb (is_space x)) s with
      | [] => None
      | rest1 =>
          Some (take_while (fun x => negb (is_space x)) s,
                take_while is_space rest1,
                RegExp.MState (unit_before None (take_while is_space rest1))
                              (drop_while is_space rest1) [])
      end.
Proof.
  induction s as [|x s IH]; intros before; cbn [RegExp.search];
    rewrite match_here_spaces; [reflexivity|].
  cbn [take_while drop_while]. destruct (is_space x) eqn:Hx; cbn [negb].
  - cbv zeta. cbn [take_while drop_while RegExp.rest]. rewrite Hx.
    f_equal. f_equal; [f_equal|].
    + assert (Hl : length s
                   = length (take_while is_space s)
                     + length (drop_while is_space s))
        by (rewrite <- length_app, <- take_drop_while; reflexivity).
      cbn [length].
      replace (S (length s) - length (drop_while is_space s))
        with (S (length (take_while is_space s))) by lia.
      cbn [firstn]. f_equal. apply firstn_take_while.
    + now rewrite unit_before_some.
  - rewrite IH.
    destruct (drop_while (fun x0 => negb (is_space x0)) s); reflexivity.
Qed.

Lemma squeeze_keep pre t :
  forallb (fun x => negb (is_space x)) pre = true ->
  squeeze false (pre ++ t) = pre ++ squeeze false t.
Proof.
  induction pre as [|x pre IH]; cbn [forallb app]; [reflexivity|].
  intros H. apply andb_prop in H. destruct H as [Hx Hp].
  apply negb_true_iff in Hx. cbn [squeeze]. rewrite Hx. f_equal. now apply IH.
Qed.

Lemma squeeze_skip t :
  squeeze true t = squeeze false (drop_while is_space t).
Proof.
  induction t as [|y t IH]; [reflexivity|]. cbn [squeeze drop_while].
  destruct (is_space y) eqn:Hy; [exact IH|]. cbn [squeeze]. now rewrite Hy.
Qed.

Lemma drop_while_head p s x t :
  drop_while p s = x :: t -> p x = false.
Proof.
  induction s as [|y s IH]; cbn [drop_while]; [discriminate|].
  destruct (p y) eqn:Hy; [exact IH|]. intros E. injection E as -> _. exact Hy.
Qed.

Lemma take_while_all p s : forallb p (take_while p s) = true.
Proof.
  induction s as [|x s IH]; [reflexivity|]. cbn [take_while].
  destruct (p x) eqn:Hx; [cbn [forallb]; now rewrite Hx | reflexivity].
Qed.

Lemma scan_spaces fuel :
  forall before s,
    length s < fuel ->
    let '(ms, tail) := RegExp.scan fuel icase (RegExp.Rep 1 None (RegExp.Class false [RegExp.CSpace])) before s in
    concat (map (fun '(skipped, _) => skipped ++ [32%N]) ms) ++ tail
    = squeeze false s.
Proof.
  induction fuel as [|fuel IH]; intros before s Hlen; [lia|].
  cbn [RegExp.scan]. rewrite search_spaces.
  pose proof (take_drop_while (fun x => negb (is_space x)) s) as Es.
  pose proof (take_while_all (fun x => negb (is_space x)) s) as Hpre.
  destruct (drop_while (fun x => negb (is_space x)) s) as [|x rest1] eqn:Ed.
  - rewrite app_nil_r in Es. rewrite <- Es in Hpre.
    cbn [map concat app]. symmetry.
    rewrite <- (app_nil_r s) at 1. rewrite squeeze_keep by exact Hpre.
    cbn [squeeze]. apply app_nil_r.
  - pose proof (drop_while_head _ _ Ed) as Hx. apply negb_false_iff in Hx.
    cbn [take_while drop_while RegExp.rest RegExp.prev]. rewrite Hx.
    specialize (IH (unit_before None (x :: take_while is_space rest1))
                   (drop_while is_space rest1)).
    destruct (RegExp.scan fuel icase (RegExp.Rep 1 None (RegExp.Class false [RegExp.CSpace])) _ (drop_while is_space rest1))
      as [ms tail].
    cbn [map concat]. rewrite <- !app_assoc. cbn [app].
    rewrite IH.
    + replace (squeeze false s)
        with (squeeze false
                (take_while (fun x => negb (is_space x)) s ++ x :: rest1))
        by (now rewrite <- Es).
      rewrite squeeze_keep by exact Hpre.
      cbn [squeeze]. rewrite Hx. now rewrite squeeze_skip.
    + pose proof (drop_while_length is_space rest1).
      assert (length s = length (take_while (fun x => negb (is_space x)) s)
                         + S (length rest1))
        by (rewrite Es at 1; now rewrite length_app).
      lia.
Qed.

End Spaces.

Lemma replace_spaces s :
  RegExp.replace_all (rx "\s+") (js " ") s = squeeze false s.
Proof.
  unfold RegExp.replace_all.
  let r := eval vm_compute in (RegExp.compiled (rx "\s+")) in
  change (RegExp.compiled (rx "\s+")) with r.
  change (js " ") with [32%N].
  pose proof (@scan_spaces (RegExp.ignoreCase (rx "\s+")) (S (length s))
                           None s ltac:(lia)) as H.
  destruct (RegExp.scan _ _ _ None s) as [ms tail]. exact H.
Qed.

Lemma normalizeInput_spec text :
  normalizeInput text = squeeze false (trim text).
Proof. apply replace_spaces. Qed.

Lemma starts_clean_trimStart s : starts_clean (trimStart s) = true.
Proof.
  induction s as [|x s IH]; [reflexivity|]. cbn [trimStart].
  destruct (is_space x) eqn:Hx; [exact IH|]. cbn [starts_clean].
  now rewrite Hx.
Qed.

Lemma trimStart_clean s : starts_clean s = true -> trimStart s = s.
Proof.
  destruct s as [|x s]; [reflexivity|]. cbn [starts_clean trimStart].
  intros H. apply negb_true_iff in H. now rewrite H.
Qed.

Lemma trimStart_split s :
  exists ws, s = ws ++ trimStart s /\ forallb is_space ws = true.
Proof.
  induction s as [|x s (ws & E & H)]; [now exists []|]. cbn [trimStart].
  destruct (is_space x) eqn:Hx.
  - exists (x :: ws). cbn [app forallb]. rewrite Hx, H. split; [|reflexivity].
    now f_equal.
  - now exists [].
Qed.

Lemma starts_clean_app s t :
  starts_clean (s ++ t) = true -> starts_clean s = true.
Proof. destruct s; [reflexivity | exact (fun H => H)]. Qed.

(** A trimmed text has no white space at either end. *)
Lemma trim_clean s :
  starts_clean (trim s) = true /\ starts_clean (rev (trim s)) = true.
Proof.
  unfold trim. split.
  - destruct (trimStart_split (rev (trimStart s))) as (ws & E & _).
    apply (f_equal (@rev N)) in E. rewrite rev_involutive, rev_app_distr in E.
    pose proof (starts_clean_trimStart s) as H. rewrite E in H.
    exact (starts_clean_app _ _ H).
  - rewrite rev_involutive. apply starts_clean_trimStart.
Qed.

Lemma trim_fixed s :
  starts_clean s = true -> starts_clean (rev s) = true -> trim s = s.
Proof.
  intros H1 H2. unfold trim.
  now rewrite (trimStart_clean _ H1), (trimStart_clean _ H2), rev_involutive.
Qed.

Lemma filter_trimStart s :
  filter (fun x => negb (is_space x)) (trimStart s)
  = filter (fun x => negb (is_space x)) s.
Proof.
  induction s as [|x s IH]; [reflexivity|]. cbn [trimStart].
  destruct (is_space x) eqn:Hx; [|reflexivity].
  cbn [filter]. now rewrite Hx.
Qed.

Lemma filter_trim s :
  filter (fun x => negb (is_space x)) (trim s)
  = filter (fun x => negb (is_space x)) s.
Proof.
  unfold trim.
  now rewrite filter_rev, filter_trimStart, filter_rev, rev_involutive,
    filter_trimStart.
Qed.

Lemma filter_squeeze b s :
  filter (fun x => negb (is_space x)) (squeeze b s)
  = filter (fun x => negb (is_space x)) s.
Proof.
  revert b. induction s as [|x s IH]; intros b; [reflexivity|].
  cbn [squeeze filter]. destruct (is_space x) eqn:Hx; cbn [negb].
  - destruct b; [apply IH|]. cbn [filter].
    change (is_space 32) with true. cbn [negb]. apply IH.
  - cbn [filter]. rewrite Hx. cbn [negb]. f_equal. apply IH.
Qed.

Lemma rev_tail_clean x s :
  s <> [] -> starts_clean (rev (x :: s)) = true ->
  starts_clean (rev s) = true.
Proof.
  intros Hs H. cbn [rev] in H.
  destruct (rev s) as [|z l] eqn:E; [|exact H].
  apply (f_equal (@rev N)) in E. rewrite rev_involutive in E.
  contradiction.
Qed.

(** After white space that is not at the end of the text comes a unit
    that is not white space. *)
Lemma squeeze_after_space s :
  s <> [] -> starts_clean (rev s) = true ->
  squeeze true s <> [] /\ starts_clean (squeeze true s) = true.
Proof.
  induction s as [|x s IH]; [congruence|]. intros _ H.
  cbn [squeeze]. destruct (is_space x) eqn:Hx.
  - destruct s as [|y s].
    + cbn in H. rewrite Hx in H. discriminate.
    + apply IH; [discriminate|].
      apply (@rev_tail_clean x); [discriminate | exact H].
  - split; [discriminate|]. cbn [starts_clean]. now rewrite Hx.
Qed.

Lemma squeeze_single_spaced b s :
  starts_clean (rev s) = true -> single_spaced (squeeze b s) = true.
Proof.
  revert b. induction s as [|x s IH]; intros b H; [reflexivity|].
  cbn [squeeze]. destruct (is_space x) eqn:Hx.
  - assert (Hs : s <> []).
    { intros ->. cbn in H. rewrite Hx in H. discriminate. }
    pose proof (@rev_tail_clean x s Hs H) as H'.
    destruct b; [now apply IH|].
    cbn [single_spaced]. change (is_space 32) with true.
    destruct (squeeze_after_space Hs H') as [Hne Hc].
    rewrite N.eqb_refl, Hc, (IH true H'). cbn [andb].
    destruct (squeeze true s); [contradiction | reflexivity].
  - cbn [single_spaced]. rewrite Hx. cbn [andb].
    destruct s as [|y s]; [reflexivity|].
    apply IH. apply (@rev_tail_clean x); [discriminate | exact H].
Qed.

Lemma single_spaced_end s :
  single_spaced s = true -> starts_clean (rev s) = true.
Proof.
  induction s as [|x s IH]; [reflexivity|]. cbn [single_spaced].
  intros H. apply andb_prop in H. destruct H as [Hx Hs].
  destruct s as [|y s].
  - cbn. destruct (is_space x); [|reflexivity].
    cbn in Hx. now rewrite andb_false_r in Hx.
  - specialize (IH Hs). cbn [rev] in *.
    destruct (rev s ++ [y]) as [|z l] eqn:E.
    + now destruct (rev s).
    + exact IH.
Qed.

Lemma squeeze_fixed b s :
  single_spaced s = true -> (b = true -> starts_clean s = true) ->
  squeeze b s = s.
Proof.
  revert b. induction s as [|x s IH]; intros b H Hb; [reflexivity|].
  cbn [single_spaced] in H. apply andb_prop in H. destruct H as [Hx Hs].
  cbn [squeeze]. destruct (is_space x) eqn:Ex.
  - apply andb_prop in Hx. destruct Hx as [Hx Hc].
    apply andb_prop in Hx. destruct Hx as [Hx _].
    apply N.eqb_eq in Hx. subst x.
    destruct b.
    + specialize (Hb eq_refl). cbn [starts_clean] in Hb.
      rewrite Ex in Hb. discriminate.
    + f_equal. apply IH; [exact Hs | intros _; exact Hc].
  - f_equal. apply IH; [exact Hs | discriminate].
Qed.

(** X14. [normalizeInput] gives a normal form: the result has no white
    space at either end, its only white space is single blanks between
    other characters, and the characters that are not white space are
    those of the input, in order.  A text of this form is left as it is,
    so normalizing twice is normalizing once, and [analyze] gives the
    same answer for a text and for its normalized form. *)
Theorem normalizeInput_normal_form :
  forall text : jsstring,
    let result := normalizeInput text in
    normal result = true
    /\ starts_clean (rev result) = true
    /\ filter (fun c => negb (is_space c)) result
       = filter (fun c => negb (is_space c)) text
    /\ (normal text = true -> result = text)
    /\ normalizeInput result = result
    /\ (forall (host : Host) (type : option jsstring),
           analyze result type = analyze text type).
Proof.
  intros text. cbv zeta.
  assert (Hfix : forall s, normal s = true -> normalizeInput s = s).
  { intros s H. unfold normal in H. apply andb_prop in H.
    destruct H as [H1 H2]. rewrite normalizeInput_spec.
    rewrite (trim_fixed _ H1 (single_spaced_end _ H2)).
    apply squeeze_fixed; [exact H2 | intros _; exact H1]. }
  assert (Hn : normal (normalizeInput text) = true).
  { rewrite normalizeInput_spec. destruct (trim_clean text) as [H1 H2].
    unfold normal. rewrite (squeeze_single_spaced false _ H2), andb_true_r.
    destruct (trim text) as [|x t]; [reflexivity|].
    cbn [starts_clean] in H1. apply negb_true_iff in H1.
    cbn [squeeze]. rewrite H1. cbn [starts_clean]. now rewrite H1. }
  split; [exact Hn|]. split; [|split; [|split; [|split]]].
  - apply single_spaced_end. unfold normal in Hn.
    now apply andb_prop in Hn.
  - now rewrite normalizeInput_spec, filter_squeeze, filter_trim.
  - apply Hfix.
  - apply Hfix, Hn.
  - intros host type. unfold analyze. now rewrite (Hfix _ Hn).
Qed.

(** ** Telling a phone number from a message *)

Lemma unit_before_none pre : unit_before None pre = None -> pre = [].
Proof.
  unfold unit_before. destruct (rev pre) as [|x l] eqn:E; [|discriminate].
  intros _. apply (f_equal (@rev N)) in E. now rewrite rev_involutive in E.
Qed.

(** The phone pattern of [detectInputType] takes a whole text: an optional
    [+], then at least ten digits, white space, hyphens or parentheses. *)
Lemma phone_pattern_spec s :
  RegExp.test (rx "^[+]?[0-9\s\-()]{10,}$") s = true
  <-> exists w,
      (s = w \/ s = ch "+" :: w)
      /\ 10 <= length w
      /\ forallb (fun c => phone_char c || is_space c) w = true.
Proof.
  assert (Hc : forall x,
             RegExp.class_matches false false
               [RegExp.CRange 48 57; RegExp.CSpace; RegExp.CChar 45;
                RegExp.CChar 40; RegExp.CChar 41] x
             = phone_char x || is_space x).
  { intros x. unfold RegExp.class_matches, phone_char, is_digit.
    cbn [xorb existsb RegExp.item_matches RegExp.same_char].
    unfold RegExp.in_range. cbn [andb].
    rewrite !orb_false_r, (N.eqb_sym 45 x), (N.eqb_sym 40 x),
      (N.eqb_sym 41 x).
    change (ch "-") with 45%N. change (ch "(") with 40%N.
    change (ch ")") with 41%N.
    destruct ((48 <=? x)%N && (x <=? 57)%N), (is_space x), (x =? 45)%N,
      (x =? 40)%N, (x =? 41)%N; reflexivity. }
  assert (Hplus : forall x,
             RegExp.class_matches false false [RegExp.CChar 43] x
             = (43 =? x)%N).
  { intros x. unfold RegExp.class_matches.
    cbn [xorb existsb RegExp.item_matches RegExp.same_char].
    apply orb_false_r. }
  rewrite test_spec.
  let r := eval vm_compute in
        (RegExp.compiled (rx "^[+]?[0-9\s\-()]{10,}$")) in
  change (RegExp.compiled (rx "^[+]?[0-9\s\-()]{10,}$")) with r.
  cbn [RegExp.ignoreCase rx Matches].
  split.
  - intros (pre & post & st' & -> & st1 & [Hb ->] & st2 & Ho & st3 & Hr
            & He & ->).
    cbn [RegExp.prev] in Hb. apply unit_before_none in Hb. subst pre.
    cbn [app].
    apply (@Iter_unit _ (RegExp.class_matches false false [RegExp.CChar 43]))
      in Ho; [|intros; reflexivity].
    destruct Ho as (w1 & Hw1 & Hr1 & _ & _ & _ & Hhi1).
    apply (@Iter_unit _ (RegExp.class_matches false false
                           [RegExp.CRange 48 57; RegExp.CSpace;
                            RegExp.CChar 45; RegExp.CChar 40;
                            RegExp.CChar 41]))
      in Hr; [|intros; reflexivity].
    destruct Hr as (w & Hw & Hr2 & _ & _ & Hlo & _).
    cbn [RegExp.rest] in Hr1. rewrite Hr2, He, app_nil_r in Hr1.
    rewrite (forallb_eq _ _ w Hc) in Hw.
    exists w. split; [|split; [lia | exact Hw]].
    destruct w1 as [|x [|y w1]].
    + now left.
    + right. cbn [forallb] in Hw1. rewrite andb_true_r, Hplus in Hw1.
      apply N.eqb_eq in Hw1. now subst x.
    + exfalso. destruct Hhi1 as [Hhi1|Hhi1]; [discriminate|].
      cbn [length] in Hhi1. lia.
  - intros (w & Hs & Hlen & Hw).
    rewrite <- (forallb_eq _ _ w Hc) in Hw.
    exists [], s, (RegExp.MState (unit_before (unit_before None
                                     (if JS.eqb s w then [] else [ch "+"]))
                                     w) [] []).
    split; [reflexivity|].
    exists (RegExp.MState None s []). split; [now split|].
    exists (RegExp.MState (unit_before None
                             (if JS.eqb s w then [] else [ch "+"]))
                          w []).
    split.
    + apply (@Iter_unit _ (RegExp.class_matches false false
                             [RegExp.CChar 43]));
        [intros; reflexivity|].
      exists (if JS.eqb s w then [] else [ch "+"]).
      cbn [RegExp.rest RegExp.prev RegExp.caps].
      destruct (JS.eqb s w) eqn:E.
      * apply eqb_eq in E. subst s. cbn. repeat split; auto.
      * destruct Hs as [->| ->]; [now rewrite eqb_refl in E|].
        cbn. repeat split; auto.
    + exists (RegExp.MState (unit_before (unit_before None
                                 (if JS.eqb s w then [] else [ch "+"]))
                                 w) [] []).
      split; [|split; reflexivity].
      apply (@Iter_unit _ (RegExp.class_matches false false
                             [RegExp.CRange 48 57; RegExp.CSpace;
                              RegExp.CChar 45; RegExp.CChar 40;
                              RegExp.CChar 41]));
        [intros; reflexivity|].
      exists w. cbn [RegExp.rest RegExp.prev RegExp.caps].
      rewrite app_nil_r. repeat split; auto.
Qed.

Lemma strip_spaces s :
  RegExp.replace_all (rx "\s") [] s = filter (fun c => negb (is_space c)) s.
Proof.
  rewrite (@replace_all_unit (rx "\s")
             (RegExp.class_matches false false [RegExp.CSpace]))
    by (eval_compiled; reflexivity).
  apply filter_ext. intros c. now rewrite space_class.
Qed.

Lemma forallb_filter_keep (p q : N -> bool) w :
  forallb q w = true -> forallb p w = forallb (fun c => p c && q c) w.
Proof.
  induction w as [|x w IH]; [reflexivity|]. cbn [forallb].
  intros H. apply andb_prop in H. destruct H as [Hx Hw].
  now rewrite Hx, andb_true_r, IH.
Qed.

(** X15. [detectInputType] answers [url], [phone] or [message].  It
    answers [phone] exactly when the trimmed text does not look like a
    URL and the text without its white space is an optional [+] followed
    by at least ten characters that are digits, hyphens or parentheses;
    white space anywhere in the text does not matter for this. *)
Theorem detectInputType_phone :
  forall text : jsstring,
    let urlPattern :=
      rxi "^https?:\/\/[^\s]+|^www\.[^\s]+|^[a-zA-Z0-9-]+\.(com|org|net|xyz|top|click|info|co|in|io|ly|tk|ml|ga|cf|gq|bit\.ly|tinyurl)" in
    let url_like := RegExp.test urlPattern (trim text) in
    let stripped := filter (fun c => negb (is_space c)) text in
    let phone_like :=
      exists w,
        (stripped = w \/ stripped = ch "+" :: w)
        /\ 10 <= length w /\ forallb phone_char w = true in
    (detectInputType text = js "url" <-> url_like = true)
    /\ (detectInputType text = js "phone"
        <-> url_like = false /\ phone_like)
    /\ (detectInputType text = js "message"
        <-> url_like = false /\ ~ phone_like).
Proof.
  intros text. cbv zeta. unfold detectInputType. cbv zeta.
  set (url_like := RegExp.test _ (trim text)).
  rewrite strip_spaces, filter_trim.
  set (stripped := filter _ text).
  assert (Hns : forallb (fun c => negb (is_space c)) stripped = true).
  { subst stripped. apply forallb_forall. intros x Hx.
    now apply filter_In in Hx. }
  assert (Hp : RegExp.test (rx "^[+]?[0-9\s\-()]{10,}$") stripped = true
               <-> exists w,
                   (stripped = w \/ stripped = ch "+" :: w)
                   /\ 10 <= length w /\ forallb phone_char w = true).
  { rewrite phone_pattern_spec.
    split; intros (w & Hs & Hl & Hw); exists w;
      (split; [exact Hs|]); (split; [exact Hl|]).
    - assert (Hw' : forallb (fun c => negb (is_space c)) w = true).
      { destruct Hs as [<-|Hs]; [exact Hns|].
        rewrite Hs in Hns. cbn [forallb] in Hns.
        now apply andb_prop in Hns. }
      rewrite forallb_forall in *. intros x Hx.
      specialize (Hw x Hx). specialize (Hw' x Hx).
      apply negb_true_iff in Hw'. now rewrite Hw', orb_false_r in Hw.
    - rewrite forallb_forall in *. intros x Hx.
      now rewrite (Hw x Hx). }
  destruct url_like.
  - split; [split; auto|].
    split; (split; [intros E; vm_compute in E; discriminate E
                   | intros [E _]; discriminate E]).
  - destruct (RegExp.test (rx "^[+]?[0-9\s\-()]{10,}$") stripped) eqn:Et.
    + split; [split; [intros E; vm_compute in E|]; discriminate|].
      split.
      * split; [intros _; split; [reflexivity | now apply Hp]|reflexivity].
      * split; [intros E; vm_compute in E; discriminate E|].
        intros [_ Hn]. exfalso. apply Hn. now apply Hp.
    + split; [split; [intros E; vm_compute in E|]; discriminate|].
      split.
      * split; [intros E; vm_compute in E; discriminate E|].
        intros [_ H]. apply Hp in H. discriminate.
      * split; [intros _; split; [reflexivity|]|reflexivity].
        intros H. apply Hp in H. discriminate.
Qed.
